(** * CRC-32 computation and CRC-32 forging

    A shallow embedding of [CRC32.py] (the bit-by-bit CRC-32 digest) and of
    [crc32_modifier.py] (the GF(2) polynomial arithmetic engine and the
    4-byte CRC-32 forger), followed by the verification of their
    specification.

    Python integers are unbounded, so they are modelled by [Z]; the bit
    operators [&], [|], [^], [<<], [>>] are [Z.land], [Z.lor], [Z.lxor],
    [Z.shiftl], [Z.shiftr].  File contents are [list byte].  The file
    system is a finite map from paths to contents. *)

From Stdlib Require Import ZArith List Lia Bool Ascii String DecimalString.
From Stdlib.Strings Require Import Byte.
From stdpp Require Import base gmap strings.
Import ListNotations.

Local Open Scope Z_scope.

(** ** Exceptions and results *)

(** The exceptions the two programs can raise. *)
Inductive exn : Type :=
| ValueError (msg : string)
| IOError (msg : string)
| AssertionError (msg : string)
| IndexError (msg : string).

(** Outcome of running a piece of code: a value, a raised exception, or
    [OutOfFuel] when a [while] loop did not leave within its iteration
    budget. *)
Inductive result (A : Type) : Type :=
| Ok (a : A)
| Raise (e : exn)
| OutOfFuel.

Arguments Ok {A} a.
Arguments Raise {A} e.
Arguments OutOfFuel {A}.

Global Instance result_ret : MRet result := fun A a => Ok a.

Global Instance result_bind : MBind result := fun A B f m =>
  match m with
  | Ok a => f a
  | Raise e => Raise e
  | OutOfFuel => OutOfFuel
  end.

(** Python truthiness of an integer ([if y & 1:]). *)
Definition truthy (v : Z) : bool := negb (v =? 0).

(** ** [crc32_modifier.py]: the GF(2) arithmetic engine *)

Definition POLYNOMIAL : Z := 0x104C11DB7.
Definition MASK : Z := Z.shiftl 1 32 - 1.

(** [int.bit_length]: the number of bits of the absolute value. *)
Definition bit_length (x : Z) : Z :=
  if x =? 0 then 0 else Z.log2 (Z.abs x) + 1.

Definition get_degree (x : Z) : Z := bit_length x - 1.

(** The body of the [for _ in range(32)] loop of [reverse32], on the pair
    [(x, y)]. *)
Definition reverse32_step (xy : Z * Z) : Z * Z :=
  let '(x, y) := xy in
  (Z.shiftr x 1, Z.lor (Z.shiftl y 1) (Z.land x 1)).

Definition reverse32 (x : Z) : Z :=
  snd (Nat.iter 32 reverse32_step (x, 0)).

Arguments reverse32 : simpl never.

(** [while y != 0] of [multiply_mod]; one unit of fuel per iteration. *)
Fixpoint multiply_mod_loop (fuel : nat) (x y z : Z) : result Z :=
  if y =? 0 then Ok z
  else match fuel with
       | O => OutOfFuel
       | S fuel' =>
           let z := if truthy (Z.land y 1) then Z.lxor z x else z in
           let y := Z.shiftr y 1 in
           let x := Z.shiftl x 1 in
           let x := if negb (Z.land (Z.shiftr x 32) 1 =? 0)
                    then Z.lxor x POLYNOMIAL else x in
           multiply_mod_loop fuel' x y z
       end.

(** The loop halves [y] until it is zero: [bit_length y] iterations when
    [0 <= y], and no exit at all when [y < 0]. *)
Definition multiply_mod (x y : Z) : result Z :=
  multiply_mod_loop (Z.to_nat (bit_length y)) x y 0.

Fixpoint pow_mod_loop (fuel : nat) (x y z : Z) : result Z :=
  if y =? 0 then Ok z
  else match fuel with
       | O => OutOfFuel
       | S fuel' =>
           z ← (if negb (Z.land y 1 =? 0) then multiply_mod z x else Ok z);
           x ← multiply_mod x x;
           pow_mod_loop fuel' x (Z.shiftr y 1) z
       end.

Definition pow_mod (x y : Z) : result Z :=
  pow_mod_loop (Z.to_nat (bit_length y)) x y 1.

(** [range(start, -1, -1)]. *)
Definition range_down (start : Z) : list Z :=
  map (fun k => start - Z.of_nat k) (seq 0 (Z.to_nat (start + 1))).

(** The body of the [for] loop of [divide_and_remainder], on the pair
    [(z, x)]. *)
Definition divide_step (y ydeg : Z) (zx : Z * Z) (i : Z) : Z * Z :=
  let '(z, x) := zx in
  if negb (Z.land (Z.shiftr x (i + ydeg)) 1 =? 0)
  then (Z.lor z (Z.shiftl 1 i), Z.lxor x (Z.shiftl y i))
  else (z, x).

Definition divide_and_remainder (x y : Z) : result (Z * Z) :=
  if y =? 0 then Raise (ValueError "Division by zero")
  else if x =? 0 then Ok (0, 0)
  else
    let ydeg := get_degree y in
    Ok (fold_left (divide_step y ydeg) (range_down (get_degree x - ydeg)) (0, x)).

(** [while y != 0] of [reciprocal_mod], on the variables [x y a b]. *)
Fixpoint reciprocal_mod_loop (fuel : nat) (x y a b : Z) : result Z :=
  if y =? 0 then
    if x =? 1 then Ok a else Raise (ValueError "Reciprocal does not exist")
  else match fuel with
       | O => OutOfFuel
       | S fuel' =>
           '(q, r) ← divide_and_remainder x y;
           m ← multiply_mod q b;
           let c := Z.lxor a m in
           reciprocal_mod_loop fuel' y r b c
       end.

(** For [0 <= x] the degree of [y] drops at every iteration, so
    [bit_length x] iterations are enough ([reciprocal_mod_spec]).  For
    [x < 0] the remainders follow no such measure and no budget is known
    to be enough: there [OutOfFuel] only says that the budget ran out, not
    that the code loops.  The forger calls the function on
    [pow_mod(2, ...)] only, which is never negative. *)
Definition reciprocal_mod (x : Z) : result Z :=
  reciprocal_mod_loop (Z.to_nat (bit_length x)) POLYNOMIAL x 0 1.

(** ** Bytes *)

Definition Z_of_byte (b : byte) : Z := Z.of_N (Byte.to_N b).

Definition byte_of_Z (v : Z) : option byte :=
  if v <? 0 then None else Byte.of_N (Z.to_N v).

(** ** [CRC32.py]: the bit-by-bit digest *)

(** A Python [str] is a sequence of code points. *)
Definition pystr : Type := list Z.

Definition pystr_of_string (s : string) : pystr :=
  map (fun c => Z.of_N (N_of_ascii c)) (list_ascii_of_string s).

Definition bytes_of_Zs (l : list Z) : result (list byte) :=
  match mapM byte_of_Z l with
  | Some bs => Ok bs
  | None => Raise (ValueError "byte must be in range(0, 256)")
  end.

(** A number in decimal, as [str(n)] writes it. *)
Definition decimal (n : nat) : string :=
  NilEmpty.string_of_uint (Nat.to_uint n).

(** Four lower-case hexadecimal digits, as in the escape [\uXXXX]. *)
Definition lower_hex_digit (d : Z) : ascii :=
  if d <? 10 then ascii_of_N (Z.to_N (48 + d)) else ascii_of_N (Z.to_N (87 + d)).

Definition lower_hex4 (v : Z) : string :=
  String (lower_hex_digit (Z.land (Z.shiftr v 12) 15))
    (String (lower_hex_digit (Z.land (Z.shiftr v 8) 15))
       (String (lower_hex_digit (Z.land (Z.shiftr v 4) 15))
          (String (lower_hex_digit (Z.land v 15)) EmptyString))).

Definition is_surrogate (cp : Z) : bool := (0xD800 <=? cp) && (cp <=? 0xDFFF).

(** The number of surrogates at the head of a text. *)
Fixpoint surrogate_run (data : pystr) : nat :=
  match data with
  | cp :: rest => if is_surrogate cp then S (surrogate_run rest) else O
  | [] => O
  end.

(** [UnicodeEncodeError], a [ValueError]: the encoder stops at the first
    surrogate, at position [pos], and reports it together with the
    surrogates that directly follow it in [rest]. *)
Definition surrogates_not_allowed (pos : nat) (cp : Z) (rest : pystr) : exn :=
  ValueError
    ("'utf-8' codec can't encode " +:+
     match surrogate_run rest with
     | O => "character '\u" +:+ lower_hex4 cp +:+ "' in position "
            +:+ decimal pos
     | S n => "characters in position " +:+ decimal pos +:+ "-"
              +:+ decimal (pos + S n)
     end +:+ ": surrogates not allowed").

(** [str.encode('utf-8')] of the code point [cp] found at position [pos]
    and followed by [rest]; surrogates are refused. *)
Definition utf8_encode_char (pos : nat) (cp : Z) (rest : pystr)
  : result (list byte) :=
  if cp <? 0x80 then bytes_of_Zs [cp]
  else if cp <? 0x800 then
    bytes_of_Zs [Z.lor 0xC0 (Z.shiftr cp 6); Z.lor 0x80 (Z.land cp 0x3F)]
  else if cp <? 0x10000 then
    if (0xD800 <=? cp) && (cp <=? 0xDFFF)
    then Raise (surrogates_not_allowed pos cp rest)
    else bytes_of_Zs [Z.lor 0xE0 (Z.shiftr cp 12);
                      Z.lor 0x80 (Z.land (Z.shiftr cp 6) 0x3F);
                      Z.lor 0x80 (Z.land cp 0x3F)]
  else bytes_of_Zs [Z.lor 0xF0 (Z.shiftr cp 18);
                    Z.lor 0x80 (Z.land (Z.shiftr cp 12) 0x3F);
                    Z.lor 0x80 (Z.land (Z.shiftr cp 6) 0x3F);
                    Z.lor 0x80 (Z.land cp 0x3F)].

Fixpoint utf8_encode_from (pos : nat) (data : pystr) : result (list byte) :=
  match data with
  | [] => Ok []
  | cp :: rest =>
      bs ← utf8_encode_char pos cp rest;
      bs' ← utf8_encode_from (S pos) rest;
      Ok (bs ++ bs')
  end.

Definition utf8_encode (data : pystr) : result (list byte) :=
  utf8_encode_from 0 data.

(** [polynomial] of [calculate_crc32]. *)
Definition polynomial : Z := 0xEDB88320.

(** The body of [for _ in range(8)]. *)
Definition crc32_bit_step (crc : Z) : Z :=
  if truthy (Z.land crc 1)
  then Z.lxor (Z.shiftr crc 1) polynomial
  else Z.shiftr crc 1.

(** The body of [for byte in byte_data]. *)
Definition crc32_byte_step (crc : Z) (b : byte) : Z :=
  Nat.iter 8 crc32_bit_step (Z.lxor crc (Z_of_byte b)).

(** [calculate_crc32] from the point where [byte_data] is known. *)
Definition crc32_of_bytes (byte_data : list byte) : Z :=
  Z.lxor (fold_left crc32_byte_step byte_data 0xFFFFFFFF) 0xFFFFFFFF.

Definition calculate_crc32 (data : pystr) : result Z :=
  byte_data ← utf8_encode data;
  Ok (crc32_of_bytes byte_data).

(** ** The digest primitive [zlib.crc32] *)

(** [n] bits processed: "if low bit set, shift right and xor with
    generator; else shift right". *)
Fixpoint hdlc_bits (n : nat) (reg : Z) : Z :=
  match n with
  | O => reg
  | S n' =>
      hdlc_bits n' (if Z.odd reg
                    then Z.lxor (Z.div2 reg) 0xEDB88320
                    else Z.div2 reg)
  end.

(** One byte consumed per outer step. *)
Fixpoint hdlc_bytes (reg : Z) (buffer : list byte) : Z :=
  match buffer with
  | [] => reg
  | b :: rest => hdlc_bytes (hdlc_bits 8 (Z.lxor reg (Z_of_byte b))) rest
  end.

(** Modelled from the spec: [zlib.crc32(buffer, value)] is a library
    function, not part of the sources.  Section 4.1 of the specification
    defines it: the register starts at [0xFFFFFFFF] (here: at the
    carried-over partial result [value], un-inverted), one byte is consumed
    per outer step, 8 bits are processed per byte via "if low bit set,
    shift right and xor with generator [0xEDB88320]; else shift right",
    and the final result is inverted.  [value] is taken as an unsigned
    32-bit integer. *)
Definition zlib_crc32 (buffer : list byte) (value : Z) : Z :=
  Z.lxor (hdlc_bytes (Z.lxor (Z.land value 0xFFFFFFFF) 0xFFFFFFFF) buffer)
         0xFFFFFFFF.

(** The canonical CRC-32/ISO-HDLC checksum of a whole buffer. *)
Definition crc32_iso_hdlc (buffer : list byte) : Z := zlib_crc32 buffer 0.

(** ** The open file [raf] and the console *)

(** What the code inside [with open(path, "r+b") as raf] acts on: the
    bytes of the file, the position of the handle, and the lines printed
    so far. *)
Record state : Type := mkState {
  content : list byte;
  position : Z;
  stdout : list string
}.

(** A command returns its outcome and the state it leaves; an exception
    leaves the state reached when it was raised. *)
Definition io (A : Type) : Type := state -> result A * state.

Global Instance io_ret : MRet io := fun A a s => (Ok a, s).

Global Instance io_bind : MBind io := fun A B f m s =>
  match m s with
  | (Ok a, s') => f a s'
  | (Raise e, s') => (Raise e, s')
  | (OutOfFuel, s') => (OutOfFuel, s')
  end.

Definition raise {A : Type} (e : exn) : io A := fun s => (Raise e, s).

(** A pure computation of the arithmetic engine run as a command. *)
Definition lift {A : Type} (r : result A) : io A := fun s => (r, s).

Definition print (line : string) : io unit :=
  fun s => (Ok tt, mkState (content s) (position s) (stdout s ++ [line])).

(** [raf.seek(0, os.SEEK_END)] *)
Definition raf_seek_end : io unit :=
  fun s => (Ok tt, mkState (content s) (Z.of_nat (length (content s))) (stdout s)).

(** [raf.tell()] *)
Definition raf_tell : io Z := fun s => (Ok (position s), s).

(** What [raf.seek(offset)] raises for a negative position: the operating
    system refuses it, and below [-2^63] the number does not even fit the
    type of a file position. *)
Definition seek_error (offset : Z) : exn :=
  if offset <? - 2 ^ 63
  then ValueError "cannot fit 'int' into an offset-sized integer"
  else IOError "[Errno 22] Invalid argument".

(** [raf.seek(offset)].  (A position of [2^63] or more is refused as well;
    the forger only seeks inside the file, and no file is that long.) *)
Definition raf_seek (offset : Z) : io unit :=
  fun s =>
    if offset <? 0 then (Raise (seek_error offset), s)
    else (Ok tt, mkState (content s) offset (stdout s)).

(** [raf.read(n)]: the bytes from the position on, at most [n] of them. *)
Definition raf_read (n : Z) : io (list byte) :=
  fun s =>
    let buffer := take (Z.to_nat n) (drop (Z.to_nat (position s)) (content s)) in
    (Ok buffer,
     mkState (content s) (position s + Z.of_nat (length buffer)) (stdout s)).

(** [raf.write(buffer)]: overwrites from the position on, growing the file
    when it has to (a gap left by a seek past the end reads as zeros). *)
Definition raf_write (buffer : list byte) : io unit :=
  fun s =>
    let p := Z.to_nat (position s) in
    let old := content s in
    let new := take p old ++ replicate (p - length old) x00 ++ buffer
               ++ drop (p + length buffer) old in
    (Ok tt, mkState new (position s + Z.of_nat (length buffer)) (stdout s)).

(** ** [crc32_modifier.py]: the forger *)

(** [while True] of [get_crc32]; every iteration but the last reads at
    least one byte. *)
Fixpoint get_crc32_loop (fuel : nat) (crc : Z) : io Z :=
  buffer ← raf_read (128 * 1024);
  if Z.of_nat (length buffer) =? 0 then mret (reverse32 crc)
  else match fuel with
       | O => lift OutOfFuel
       | S fuel' => get_crc32_loop fuel' (zlib_crc32 buffer crc)
       end.

Definition get_crc32 : io Z :=
  fun s => (raf_seek 0;; get_crc32_loop (length (content s)) 0) s.

(** Upper-case hexadecimal digits of a non-negative number, most
    significant first. *)
Definition hex_digit (d : Z) : ascii :=
  if d <? 10 then ascii_of_N (Z.to_N (48 + d)) else ascii_of_N (Z.to_N (55 + d)).

Fixpoint hex_digits (fuel : nat) (v : Z) (acc : string) : string :=
  let acc := String (hex_digit (v mod 16)) acc in
  match fuel with
  | O => acc
  | S fuel' => if v / 16 =? 0 then acc else hex_digits fuel' (v / 16) acc
  end.

Fixpoint zero_pad (n : nat) (s : string) : string :=
  match n with
  | O => s
  | S n' => String "0" (zero_pad n' s)
  end.

(** The format specification [:08X]. *)
Definition format_08X (v : Z) : string :=
  let digits := hex_digits (Z.to_nat (bit_length v)) (Z.abs v) EmptyString in
  if v <? 0
  then String "-" (zero_pad (7 - String.length digits) digits)
  else zero_pad (8 - String.length digits) digits.

(** [bytes4[i] ^= v] on a [bytearray]. *)
Definition bytearray_ixor (bytes4 : list byte) (i : nat) (v : Z)
  : result (list byte) :=
  match bytes4 !! i with
  | None => Raise (IndexError "bytearray index out of range")
  | Some b =>
      match byte_of_Z (Z.lxor (Z_of_byte b) v) with
      | None => Raise (ValueError "byte must be in range(0, 256)")
      | Some b' => Ok (<[i := b']> bytes4)
      end
  end.

(** The value [(reverse32(delta) >> (i * 8)) & 0xFF]. *)
Definition patch_byte (delta : Z) (i : Z) : Z :=
  Z.land (Z.shiftr (reverse32 delta) (i * 8)) 0xFF.

(** The body of [for i in range(4)]. *)
Definition patch_step (delta : Z) (acc : result (list byte)) (i : nat)
  : result (list byte) :=
  bytes4 ← acc;
  bytearray_ixor bytes4 i (patch_byte delta (Z.of_nat i)).

Definition when (b : bool) (c : io unit) : io unit :=
  if b then c else mret tt.

(** The block under [with open(path, "r+b") as raf] of
    [modify_file_crc32]. *)
Definition modify_raf_crc32 (offset newcrc : Z) (printstatus : bool) : io unit :=
  raf_seek_end;;
  len ← raf_tell;
  if offset + 4 >? len
  then raise (ValueError "Byte offset plus 4 exceeds file length")
  else
    crc ← get_crc32;
    when printstatus
      (print ("Original CRC-32: " +:+ format_08X (reverse32 crc)));;
    let delta := Z.lxor crc newcrc in
    p ← lift (pow_mod 2 ((len - offset) * 8));
    r ← lift (reciprocal_mod p);
    delta ← lift (multiply_mod r delta);
    raf_seek offset;;
    bytes4 ← raf_read 4;
    if negb (Z.of_nat (length bytes4) =? 4)
    then raise (IOError "Cannot read 4 bytes at offset")
    else
      bytes4 ← lift (fold_left (patch_step delta) (seq 0 4) (Ok bytes4));
      raf_seek offset;;
      raf_write bytes4;;
      when printstatus (print "Computed and wrote patch");;
      crc' ← get_crc32;
      if negb (crc' =? newcrc)
      then raise (AssertionError "Failed to update CRC-32 to desired value")
      else when printstatus (print "New CRC-32 successfully verified").

(** The files reachable by path, and the console. *)
Record world : Type := mkWorld {
  files : gmap string (list byte);
  console : list string
}.

(** [repr] of a text made of code points below [U+0100]: between single
    quotes, or between double quotes when the text has a single quote and
    no double quote; the quote in use and the backslash are escaped, and so
    are the characters that are not printable. *)
Fixpoint contains (c : ascii) (s : string) : bool :=
  match s with
  | EmptyString => false
  | String c' s' => Ascii.eqb c c' || contains c s'
  end.

Definition lower_hex2 (v : Z) : string :=
  String (lower_hex_digit (Z.land (Z.shiftr v 4) 15))
    (String (lower_hex_digit (Z.land v 15)) EmptyString).

Definition repr_char (quote c : ascii) : string :=
  let n := Z.of_N (N_of_ascii c) in
  if Ascii.eqb c quote || Ascii.eqb c "\" then String "\" (String c EmptyString)
  else if n =? 9 then "\t"
  else if n =? 10 then "\n"
  else if n =? 13 then "\r"
  else if (n <? 32) || ((127 <=? n) && (n <=? 160)) || (n =? 173)
  then "\x" +:+ lower_hex2 n
  else String c EmptyString.

Fixpoint repr_chars (quote : ascii) (s : string) : string :=
  match s with
  | EmptyString => EmptyString
  | String c s' => repr_char quote c +:+ repr_chars quote s'
  end.

Definition py_repr (s : string) : string :=
  let quote := if contains "'" s && negb (contains "034" s) then "034"%char
               else "'"%char in
  String quote (repr_chars quote s) +:+ String quote EmptyString.

(** What [open(path, "r+b")] raises when [path] names no file: a name with
    a NUL character is refused before the operating system is asked;
    otherwise the answer is "no such file".  (Other refusals of the
    operating system, such as a name that is too long or a path through
    something that is not a directory, are not distinguished.) *)
Definition open_error (path : string) : exn :=
  if contains "000" path then ValueError "embedded null byte"
  else IOError ("[Errno 2] No such file or directory: " +:+ py_repr path).

(** [modify_file_crc32]: opening fails on a path that names no file;
    leaving the [with] block, normally or not, closes the file, so what was
    written is in the file afterwards. *)
Definition modify_file_crc32 (path : string) (offset newcrc : Z)
    (printstatus : bool) (w : world) : result unit * world :=
  match files w !! path with
  | None => (Raise (open_error path), w)
  | Some bytes =>
      let '(r, s) := modify_raf_crc32 offset newcrc printstatus
                       (mkState bytes 0 (console w)) in
      (r, mkWorld (<[path := content s]> (files w)) (stdout s))
  end.

(** ** [int(text, base)]

    The arguments of the command line are modelled by [string]: texts
    whose characters are the code points below [U+0100]. *)

(** White space skipped around a number: tab, line feed, vertical tab,
    form feed, carriage return, space, and, outside ASCII, next line
    ([U+0085]) and no-break space ([U+00A0]), which the interpreter turns
    into spaces before it reads the number. *)
Definition is_space (c : ascii) : bool :=
  let n := N_of_ascii c in
  (((9 <=? n) && (n <=? 13)) || (n =? 32) || (n =? 133) || (n =? 160))%N.

Definition digit_value (c : ascii) : option Z :=
  let n := Z.of_N (N_of_ascii c) in
  if (48 <=? n) && (n <=? 57) then Some (n - 48)
  else if (97 <=? n) && (n <=? 122) then Some (n - 87)
  else if (65 <=? n) && (n <=? 90) then Some (n - 55)
  else None.

Fixpoint skip_spaces (s : string) : string :=
  match s with
  | String c s' => if is_space c then skip_spaces s' else s
  | EmptyString => s
  end.

(** Where the run of digits and underscores stops: there must be a digit,
    and no underscore directly after the start, after another underscore
    or at the end. *)
Definition digits_end (acc : Z) (prev : option ascii) (rest : string)
  : option (Z * string) :=
  match prev with
  | None => None
  | Some c => if Ascii.eqb c "_" then None else Some (acc, rest)
  end.

Fixpoint scan_digits (base : Z) (s : string) (acc : Z) (prev : option ascii)
  : option (Z * string) :=
  match s with
  | EmptyString => digits_end acc prev s
  | String c s' =>
      if Ascii.eqb c "_" then
        match prev with
        | None => None
        | Some p => if Ascii.eqb p "_" then None
                    else scan_digits base s' acc (Some c)
        end
      else
        match digit_value c with
        | Some d => if d <? base
                    then scan_digits base s' (acc * base + d) (Some c)
                    else digits_end acc prev s
        | None => digits_end acc prev s
        end
  end.

(** For base 16 a prefix [0x] or [0X] may precede the digits, and one
    underscore may follow it. *)
Definition skip_prefix (base : Z) (s : string) : string :=
  match s with
  | String c (String x s') =>
      if (base =? 16) && Ascii.eqb c "0" && (Ascii.eqb x "x" || Ascii.eqb x "X")
      then match s' with
           | String u s'' => if Ascii.eqb u "_" then s'' else s'
           | EmptyString => s'
           end
      else s
  | _ => s
  end.

(** An optional sign. *)
Definition split_sign (s : string) : Z * string :=
  match s with
  | String c s' =>
      if Ascii.eqb c "+" then (1, s')
      else if Ascii.eqb c "-" then (-1, s')
      else (1, s)
  | EmptyString => (1, s)
  end.

(** The characters other than underscores among the first [n] of a
    text. *)
Fixpoint count_digits (n : nat) (s : string) : nat :=
  match n, s with
  | S n', String c s' =>
      ((if Ascii.eqb c "_" then 0 else 1) + count_digits n' s')%nat
  | _, _ => O
  end.

(** The default of [sys.get_int_max_str_digits()]: in a base that is not a
    power of two, a number written with more digits is refused. *)
Definition max_str_digits : nat := 4300.

(** [int(s, base)] for [base] 10 and 16, after the parser of the
    interpreter: white space, sign, prefix, digits with single underscores
    between them, white space.  [None] stands for [ValueError]. *)
Definition py_int (s : string) (base : Z) : option Z :=
  let '(sign, s) := split_sign (skip_spaces s) in
  let digits := skip_prefix base s in
  match scan_digits base digits 0 None with
  | None => None
  | Some (v, rest) =>
      if negb (base =? 16) &&
         (max_str_digits <? count_digits (String.length digits - String.length rest)
                                         digits)%nat
      then None
      else
        match skip_spaces rest with
        | EmptyString => Some (sign * v)
        | _ => None
        end
  end.

(** [s.startswith(("+", "-"))] *)
Definition starts_with_sign (s : string) : bool :=
  match s with
  | String c _ => Ascii.eqb c "+" || Ascii.eqb c "-"
  | EmptyString => false
  end.

(** ** [crc32_modifier.py]: the command line *)

(** The validation of the new CRC-32 value in [main]: the message returned,
    or the value of [new_crc]. *)
Definition parse_new_crc (arg : string) : string + Z :=
  if negb (Z.of_nat (String.length arg) =? 8) || starts_with_sign arg
  then inl "Error: Invalid new CRC-32 value"
  else match py_int arg 16 with
       | None => inl "Error: Invalid new CRC-32 value"
       | Some temp =>
           if negb (Z.land temp MASK =? temp)
           then inl "Error: Invalid new CRC-32 value"
           else inr (reverse32 temp)
       end.

Definition main (args : list string) (w : world)
  : result (option string) * world :=
  match args with
  | [arg0; arg1; arg2] =>
      match py_int arg1 10 with
      | None => (Ok (Some "Error: Invalid byte offset"), w)
      | Some offset =>
          if offset <? 0 then (Ok (Some "Error: Negative byte offset"), w)
          else
            match parse_new_crc arg2 with
            | inl msg => (Ok (Some msg), w)
            | inr new_crc =>
                match modify_file_crc32 arg0 offset new_crc true w with
                | (Ok _, w') => (Ok None, w')
                | (Raise (IOError msg), w') => (Ok (Some ("I/O error: " +:+ msg)), w')
                | (Raise (ValueError msg), w') => (Ok (Some ("Error: " +:+ msg)), w')
                | (Raise (AssertionError msg), w') =>
                    (Ok (Some ("Assertion error: " +:+ msg)), w')
                | (Raise e, w') => (Raise e, w')
                | (OutOfFuel, w') => (OutOfFuel, w')
                end
            end
      end
  | _ =>
      (Ok (Some "Usage: python crc32_modifier.py <FileName> <ByteOffset> <NewCrc32Value>"), w)
  end.

(** ** Polynomials over GF(2) as non-negative integers

    Bit [i] of a number is the coefficient of [X^i]; addition of
    polynomials is [Z.lxor]. *)

(** Unsigned 32-bit values: the polynomials of degree below 32. *)
Definition u32 (x : Z) : Prop := 0 <= x < 2 ^ 32.

(** Carry-less product, by the bits of the second factor. *)
Fixpoint clmul_pos (a : Z) (p : positive) : Z :=
  match p with
  | xH => a
  | xO p' => Z.shiftl (clmul_pos a p') 1
  | xI p' => Z.lxor a (Z.shiftl (clmul_pos a p') 1)
  end.

Definition clmul (a b : Z) : Z :=
  match b with
  | Zpos p => clmul_pos a p
  | _ => 0
  end.

Fixpoint clpow (a : Z) (n : nat) : Z :=
  match n with
  | O => 1
  | S n' => clmul a (clpow a n')
  end.

(** Congruence modulo the generator polynomial. *)
Definition pcong (a b : Z) : Prop :=
  exists k, 0 <= k /\ Z.lxor a b = clmul k POLYNOMIAL.

(** Divisibility of polynomials. *)
Definition pdivides (d x : Z) : Prop :=
  exists k, 0 <= k /\ x = clmul d k.

(** One reduction step: a polynomial of degree 32 loses its leading term
    against the generator. *)
Definition redc (t : Z) : Z :=
  if Z.testbit t 32 then Z.lxor t POLYNOMIAL else t.

(** The register of the digest seen as a polynomial, before any
    reduction: every byte is added, mirrored, to the top of the register,
    which then moves up by 8 degrees. *)
Definition crc_poly_step (R : Z) (b : byte) : Z :=
  Z.shiftl (Z.lxor R (reverse32 (Z_of_byte b))) 8.

Definition crc_poly (R : Z) (buffer : list byte) : Z :=
  fold_left crc_poly_step buffer R.

(** Trial division of the generator: [d] does not divide it. *)
Definition leaves_remainder (d : Z) : bool :=
  match divide_and_remainder POLYNOMIAL d with
  | Ok (_, r) => negb (r =? 0)
  | _ => false
  end.

(** None of the [n] polynomials from [d] on divides the generator. *)
Fixpoint no_divisor_from (n : nat) (d : Z) : bool :=
  match n with
  | O => true
  | S n' => if leaves_remainder d then no_divisor_from n' (d + 1) else false
  end.

(** How [reciprocal_mod] leaves its loop when the last non-zero remainder
    is [g] and the coefficient accumulated for it is [a]. *)
Definition reciprocal_outcome (g a : Z) : result Z :=
  if g =? 1 then Ok a else Raise (ValueError "Reciprocal does not exist").

(** A hexadecimal digit, and the number written by a string of them. *)
Definition is_hex_digit (c : ascii) : bool :=
  match digit_value c with
  | Some d => d <? 16
  | None => false
  end.

Fixpoint hex_number (acc : Z) (s : string) : Z :=
  match s with
  | EmptyString => acc
  | String c s' =>
      hex_number (acc * 16 + match digit_value c with Some d => d | None => 0 end) s'
  end.

Fixpoint all_hex_digits (s : string) : bool :=
  match s with
  | EmptyString => true
  | String c s' => is_hex_digit c && all_hex_digits s'
  end.

(** ** A small file system to run the programs on *)

Definition sample_bytes : list byte :=
  [x00; x01; x02; x03; x04; x05; x06; x07].

Definition sample_world : world :=
  mkWorld {[ "f" := sample_bytes ]} [].

(** * Verification *)

(** ** Bits of bounded numbers *)

Lemma testbit_1 (k : Z) : Z.testbit 1 k = (k =? 0).
Proof.
  destruct k as [|p|p]; reflexivity.
Qed.

Lemma bits_bounded (n x : Z) :
  0 <= n -> (forall k, n <= k -> Z.testbit x k = false) -> 0 <= x < 2 ^ n.
Proof.
  intros Hn Hb.
  assert (Hx : 0 <= x).
  { apply (Z.bits_iff_nonneg x (Z.max n (Z.log2 (Z.abs x) + 1))); [lia|].
    apply Hb; lia. }
  split; [exact Hx|].
  apply Z.bounded_iff_bits_nonneg; assumption.
Qed.

Lemma bounded_bits (n x k : Z) :
  0 <= x < 2 ^ n -> n <= k -> Z.testbit x k = false.
Proof.
  intros [Hx Hlt] Hk.
  destruct (Z.le_gt_cases 0 n) as [Hn|Hn].
  - revert k Hk. apply Z.bounded_iff_bits_nonneg; assumption.
  - rewrite Z.pow_neg_r in Hlt by lia. lia.
Qed.

Lemma lxor_bounded (n a b : Z) :
  0 <= n -> 0 <= a < 2 ^ n -> 0 <= b < 2 ^ n -> 0 <= Z.lxor a b < 2 ^ n.
Proof.
  intros Hn Ha Hb. apply bits_bounded; [exact Hn|]. intros k Hk.
  rewrite Z.lxor_spec, (bounded_bits n a), (bounded_bits n b); auto.
Qed.

Lemma land_bounded_r (n a b : Z) :
  0 <= n -> 0 <= b < 2 ^ n -> 0 <= Z.land a b < 2 ^ n.
Proof.
  intros Hn Hb. apply bits_bounded; [exact Hn|]. intros k Hk.
  rewrite Z.land_spec, (bounded_bits n b); auto using andb_false_r.
Qed.

Lemma shiftl_bounded (n m a : Z) :
  0 <= n -> 0 <= m -> 0 <= a < 2 ^ n -> 0 <= Z.shiftl a m < 2 ^ (n + m).
Proof.
  intros Hn Hm [Ha Hlt]. rewrite Z.shiftl_mul_pow2, Z.pow_add_r by lia.
  assert (0 < 2 ^ m) by (apply Z.pow_pos_nonneg; lia). nia.
Qed.

Lemma bounded_weaken (n m x : Z) :
  n <= m -> 0 <= x < 2 ^ n -> 0 <= x < 2 ^ m.
Proof.
  intros Hnm [Hx Hlt]. split; [exact Hx|].
  destruct (Z.le_gt_cases 0 n) as [Hn|Hn].
  - eapply Z.lt_le_trans; [exact Hlt|]. apply Z.pow_le_mono_r; lia.
  - rewrite Z.pow_neg_r in Hlt by lia. lia.
Qed.

(** Dropping a clear top bit, and cancelling two set top bits. *)
Lemma bounded_clear_top (n x : Z) :
  0 <= n -> 0 <= x < 2 ^ (n + 1) -> Z.testbit x n = false -> 0 <= x < 2 ^ n.
Proof.
  intros Hn Hx Hb. apply bits_bounded; [exact Hn|]. intros k Hk.
  destruct (Z.eq_dec k n) as [->|Hne]; [exact Hb|].
  apply (bounded_bits (n + 1)); [exact Hx|lia].
Qed.

Lemma lxor_cancel_top (n a b : Z) :
  0 <= n -> 0 <= a < 2 ^ (n + 1) -> 0 <= b < 2 ^ (n + 1) ->
  Z.testbit a n = true -> Z.testbit b n = true ->
  0 <= Z.lxor a b < 2 ^ n.
Proof.
  intros Hn Ha Hb Ta Tb. apply bounded_clear_top; [exact Hn| |].
  - apply lxor_bounded; [lia|assumption..].
  - rewrite Z.lxor_spec, Ta, Tb. reflexivity.
Qed.

(** The leading bit of a positive number. *)
Lemma log2_bounded (x : Z) : 0 < x -> 0 <= x < 2 ^ (Z.log2 x + 1).
Proof.
  intros Hx. split; [lia|].
  apply Z.log2_lt_pow2; lia.
Qed.

Lemma log2_lxor_lt (a b : Z) :
  0 <= a -> 0 < b -> Z.log2 a < Z.log2 b \/ a = 0 ->
  Z.log2 (Z.lxor a b) = Z.log2 b.
Proof.
  intros Ha Hb Hlt.
  assert (Hab : Z.log2 a < Z.log2 b \/ a = 0) by exact Hlt.
  assert (Ta : Z.testbit a (Z.log2 b) = false).
  { destruct Hab as [Hl| ->]; [|apply Z.bits_0].
    apply Z.bits_above_log2; lia. }
  assert (Tx : Z.testbit (Z.lxor a b) (Z.log2 b) = true).
  { rewrite Z.lxor_spec, Ta, Z.bit_log2 by lia. reflexivity. }
  assert (Hnn : 0 <= Z.lxor a b) by (apply Z.lxor_nonneg; lia).
  assert (Hpos : 0 < Z.lxor a b).
  { destruct (Z.eq_dec (Z.lxor a b) 0) as [E|]; [|lia].
    rewrite E, Z.bits_0 in Tx. discriminate. }
  apply Z.le_antisymm.
  - pose proof (Z.log2_lxor a b Ha ltac:(lia)) as Hmax.
    assert (Z.log2 a <= Z.log2 b).
    { destruct Hab as [?| ->]; [lia|]. simpl. apply Z.log2_nonneg. }
    lia.
  - destruct (Z.lt_ge_cases (Z.log2 (Z.lxor a b)) (Z.log2 b)) as [Hc|]; [|lia].
    rewrite Z.bits_above_log2 in Tx by lia. discriminate.
Qed.

(** ** [reverse32] *)

Lemma reverse32_iter_spec (n : nat) (x y k : Z) :
  0 <= k ->
  Z.testbit (snd (Nat.iter n reverse32_step (x, y))) k =
  if k <? Z.of_nat n then Z.testbit x (Z.of_nat n - 1 - k)
  else Z.testbit y (k - Z.of_nat n).
Proof.
  revert x y k. induction n as [|n IH]; intros x y k Hk.
  - simpl Nat.iter. simpl snd.
    destruct (Z.ltb_spec k (Z.of_nat 0)); [lia|].
    f_equal; lia.
  - rewrite Nat.iter_succ_r. unfold reverse32_step at 2.
    rewrite IH by exact Hk.
    destruct (Z.ltb_spec k (Z.of_nat n)), (Z.ltb_spec k (Z.of_nat (S n)));
      try lia.
    + rewrite Z.shiftr_spec by lia. f_equal; lia.
    + rewrite Z.lor_spec, Z.land_spec, testbit_1.
      assert (k = Z.of_nat n) as -> by lia.
      rewrite Z.sub_diag, Z.shiftl_spec, Z.testbit_neg_r by lia.
      rewrite Z.eqb_refl, andb_true_r, orb_false_l. f_equal; lia.
    + rewrite Z.lor_spec, Z.land_spec, testbit_1, Z.shiftl_spec by lia.
      destruct (Z.eqb_spec (k - Z.of_nat n) 0); [lia|].
      rewrite andb_false_r, orb_false_r. f_equal; lia.
Qed.

Lemma reverse32_spec (x k : Z) :
  Z.testbit (reverse32 x) k =
  (0 <=? k) && (k <? 32) && Z.testbit x (31 - k).
Proof.
  destruct (Z.leb_spec 0 k) as [Hk|Hk].
  - unfold reverse32. rewrite reverse32_iter_spec by exact Hk.
    change (Z.of_nat 32) with 32.
    destruct (Z.ltb_spec k 32); simpl.
    + f_equal; lia.
    + apply Z.bits_0.
  - rewrite Z.testbit_neg_r by lia. reflexivity.
Qed.

Lemma reverse32_u32 (x : Z) : u32 (reverse32 x).
Proof.
  apply bits_bounded; [lia|]. intros k Hk.
  rewrite reverse32_spec.
  destruct (Z.ltb_spec k 32); [lia|]. rewrite andb_false_r. reflexivity.
Qed.

Lemma reverse32_involutive (x : Z) : u32 x -> reverse32 (reverse32 x) = x.
Proof.
  intros Hx. apply Z.bits_inj'. intros k Hk.
  rewrite !reverse32_spec.
  destruct (Z.leb_spec 0 k); [|lia].
  destruct (Z.ltb_spec k 32); simpl.
  - destruct (Z.leb_spec 0 (31 - k)); [|lia].
    destruct (Z.ltb_spec (31 - k) 32); [|lia].
    simpl. f_equal; lia.
  - symmetry. apply (bounded_bits 32); [exact Hx|lia].
Qed.

Lemma reverse32_lxor (a b : Z) :
  reverse32 (Z.lxor a b) = Z.lxor (reverse32 a) (reverse32 b).
Proof.
  apply Z.bits_inj'. intros k Hk.
  rewrite Z.lxor_spec, !reverse32_spec, Z.lxor_spec.
  destruct ((0 <=? k) && (k <? 32)); simpl; [reflexivity|].
  reflexivity.
Qed.

Lemma reverse32_inj (a b : Z) :
  u32 a -> u32 b -> reverse32 a = reverse32 b -> a = b.
Proof.
  intros Ha Hb E.
  rewrite <- (reverse32_involutive a Ha), <- (reverse32_involutive b Hb).
  f_equal. exact E.
Qed.

(** ** Carry-less multiplication is a commutative ring product *)

Lemma clmul_pos_nonneg (a : Z) (p : positive) : 0 <= a -> 0 <= clmul_pos a p.
Proof.
  intros Ha. induction p as [p IH|p IH|]; simpl.
  - apply Z.lxor_nonneg. split; intros _; [|exact Ha].
    apply Z.shiftl_nonneg. exact IH.
  - apply Z.shiftl_nonneg. exact IH.
  - exact Ha.
Qed.

Lemma clmul_nonneg (a b : Z) : 0 <= a -> 0 <= clmul a b.
Proof.
  intros Ha. destruct b as [|p|p]; simpl; [lia| |lia].
  apply clmul_pos_nonneg. exact Ha.
Qed.

Lemma clmul_0_r (a : Z) : clmul a 0 = 0.
Proof. reflexivity. Qed.

Lemma clmul_1_r (a : Z) : clmul a 1 = a.
Proof. reflexivity. Qed.

Lemma clmul_0_l (b : Z) : clmul 0 b = 0.
Proof.
  destruct b as [|p|p]; simpl; try reflexivity.
  induction p as [p IH|p IH|]; simpl; rewrite ?IH; reflexivity.
Qed.

Lemma clmul_double_r (a b : Z) :
  0 <= b -> clmul a (Z.shiftl b 1) = Z.shiftl (clmul a b) 1.
Proof.
  intros Hb. destruct b as [|p|p]; [reflexivity|reflexivity|lia].
Qed.

Lemma clmul_succ_double_r (a b : Z) :
  0 <= b ->
  clmul a (Z.lxor (Z.shiftl b 1) 1) = Z.lxor a (Z.shiftl (clmul a b) 1).
Proof.
  intros Hb. destruct b as [|p|p]; [|reflexivity|lia].
  simpl. rewrite Z.lxor_0_r. reflexivity.
Qed.

Lemma clmul_lxor_l (a a' b : Z) :
  clmul (Z.lxor a a') b = Z.lxor (clmul a b) (clmul a' b).
Proof.
  destruct b as [|p|p]; simpl; try reflexivity.
  induction p as [p IH|p IH|]; simpl.
  - rewrite IH, Z.shiftl_lxor.
    rewrite !Z.lxor_assoc. f_equal.
    rewrite <- !Z.lxor_assoc. f_equal. apply Z.lxor_comm.
  - rewrite IH, Z.shiftl_lxor. reflexivity.
  - reflexivity.
Qed.

Lemma clmul_shiftl1_l (a b : Z) :
  clmul (Z.shiftl a 1) b = Z.shiftl (clmul a b) 1.
Proof.
  destruct b as [|p|p]; simpl; try reflexivity.
  induction p as [p IH|p IH|]; simpl.
  - rewrite IH, Z.shiftl_lxor. reflexivity.
  - rewrite IH. reflexivity.
  - reflexivity.
Qed.

Lemma clmul_1_l (b : Z) : 0 <= b -> clmul 1 b = b.
Proof.
  intros Hb. destruct b as [|p|p]; [reflexivity| |lia].
  clear Hb. simpl. induction p as [p IH|p IH|]; simpl.
  - rewrite IH. reflexivity.
  - rewrite IH. reflexivity.
  - reflexivity.
Qed.

Lemma clmul_comm (a b : Z) : 0 <= a -> 0 <= b -> clmul a b = clmul b a.
Proof.
  intros Ha Hb. destruct a as [|p|p]; [apply clmul_0_l| |lia].
  clear Ha. induction p as [p IH|p IH|].
  - change (Z.pos p~1) with (Z.lxor (Z.shiftl (Z.pos p) 1) 1).
    rewrite clmul_succ_double_r by lia.
    rewrite clmul_lxor_l, clmul_shiftl1_l, IH, clmul_1_l by exact Hb.
    apply Z.lxor_comm.
  - change (Z.pos p~0) with (Z.shiftl (Z.pos p) 1).
    rewrite clmul_double_r by lia.
    rewrite clmul_shiftl1_l, IH. reflexivity.
  - rewrite clmul_1_l by exact Hb. reflexivity.
Qed.

Lemma clmul_lxor_r (a b c : Z) :
  0 <= a -> 0 <= b -> 0 <= c ->
  clmul a (Z.lxor b c) = Z.lxor (clmul a b) (clmul a c).
Proof.
  intros Ha Hb Hc.
  assert (0 <= Z.lxor b c) by (apply Z.lxor_nonneg; lia).
  rewrite (clmul_comm a (Z.lxor b c)), clmul_lxor_l by assumption.
  rewrite (clmul_comm b a), (clmul_comm c a) by assumption.
  reflexivity.
Qed.

Lemma clmul_assoc (a b c : Z) :
  0 <= a -> 0 <= b -> 0 <= c ->
  clmul (clmul a b) c = clmul a (clmul b c).
Proof.
  intros Ha Hb Hc. destruct c as [|p|p]; [reflexivity| |lia].
  clear Hc. induction p as [p IH|p IH|].
  - change (Z.pos p~1) with (Z.lxor (Z.shiftl (Z.pos p) 1) 1).
    rewrite !clmul_succ_double_r by lia.
    rewrite clmul_lxor_r, IH; try assumption.
    + rewrite clmul_double_r; [reflexivity|]. apply clmul_nonneg; exact Hb.
    + apply Z.shiftl_nonneg, clmul_nonneg. exact Hb.
  - change (Z.pos p~0) with (Z.shiftl (Z.pos p) 1).
    rewrite !clmul_double_r by lia.
    rewrite IH, clmul_double_r; [reflexivity|].
    apply clmul_nonneg. exact Hb.
  - reflexivity.
Qed.

Lemma clmul_shiftl_r (a b : Z) (n : nat) :
  0 <= b ->
  clmul a (Z.shiftl b (Z.of_nat n)) = Z.shiftl (clmul a b) (Z.of_nat n).
Proof.
  intros Hb. induction n as [|n IH].
  - rewrite !Z.shiftl_0_r. reflexivity.
  - rewrite Nat2Z.inj_succ, <- Z.add_1_r.
    rewrite <- !Z.shiftl_shiftl by lia.
    rewrite clmul_double_r, IH; [reflexivity|].
    apply Z.shiftl_nonneg. exact Hb.
Qed.

Lemma clmul_shiftl_l (a b : Z) (n : nat) :
  clmul (Z.shiftl a (Z.of_nat n)) b = Z.shiftl (clmul a b) (Z.of_nat n).
Proof.
  induction n as [|n IH].
  - rewrite !Z.shiftl_0_r. reflexivity.
  - rewrite Nat2Z.inj_succ, <- Z.add_1_r.
    rewrite <- !Z.shiftl_shiftl by lia.
    rewrite clmul_shiftl1_l, IH. reflexivity.
Qed.

Lemma clmul_shiftl_l_Z (a b n : Z) :
  0 <= n -> clmul (Z.shiftl a n) b = Z.shiftl (clmul a b) n.
Proof.
  intros Hn. rewrite <- (Z2Nat.id n Hn). apply clmul_shiftl_l.
Qed.

Lemma clmul_pow2_l (b n : Z) :
  0 <= b -> 0 <= n -> clmul (Z.shiftl 1 n) b = Z.shiftl b n.
Proof.
  intros Hb Hn. rewrite clmul_shiftl_l_Z, clmul_1_l by assumption.
  reflexivity.
Qed.

(** Multiplying by [X^n] is shifting. *)
Lemma clmul_pow2_r (a n : Z) : 0 <= n -> clmul a (Z.shiftl 1 n) = Z.shiftl a n.
Proof.
  intros Hn. rewrite <- (Z2Nat.id n Hn).
  rewrite clmul_shiftl_r by lia. reflexivity.
Qed.

Lemma shiftl_positive (a n : Z) : 0 < a -> 0 <= n -> 0 < Z.shiftl a n.
Proof.
  intros Ha Hn. rewrite Z.shiftl_mul_pow2 by exact Hn.
  assert (0 < 2 ^ n) by (apply Z.pow_pos_nonneg; lia). nia.
Qed.

(** Degrees add up. *)
Lemma clmul_pos_log2 (a : Z) (p : positive) :
  0 < a ->
  0 < clmul_pos a p /\
  Z.log2 (clmul_pos a p) = Z.log2 a + Z.log2 (Z.pos p).
Proof.
  intros Ha. induction p as [p [IHp IHl]|p [IHp IHl]|].
  - assert (Hs : Z.log2 (Z.shiftl (clmul_pos a p) 1)
                 = Z.log2 a + Z.log2 (Z.pos p) + 1).
    { rewrite Z.log2_shiftl by lia. lia. }
    assert (Hl : Z.log2 (clmul_pos a p~1) = Z.log2 a + Z.log2 (Z.pos p~1)).
    { simpl clmul_pos. rewrite log2_lxor_lt.
      - rewrite Hs, Pos2Z.inj_xI, Z.log2_succ_double by lia. lia.
      - lia.
      - apply shiftl_positive; lia.
      - left. rewrite Hs. pose proof (Z.log2_nonneg (Z.pos p)). lia. }
    split; [|exact Hl].
    destruct (Z.lt_ge_cases 0 (clmul_pos a p~1)) as [|Hle]; [assumption|].
    rewrite (Z.log2_nonpos _ Hle) in Hl.
    rewrite Pos2Z.inj_xI, Z.log2_succ_double in Hl by lia.
    pose proof (Z.log2_nonneg a). pose proof (Z.log2_nonneg (Z.pos p)). lia.
  - simpl clmul_pos. split.
    + apply shiftl_positive; lia.
    + rewrite Z.log2_shiftl, Pos2Z.inj_xO, Z.log2_double by lia. lia.
  - simpl. split; [exact Ha|]. lia.
Qed.

Lemma clmul_log2 (a b : Z) :
  0 < a -> 0 < b -> Z.log2 (clmul a b) = Z.log2 a + Z.log2 b.
Proof.
  intros Ha Hb. destruct b as [|p|p]; try lia.
  apply clmul_pos_log2. exact Ha.
Qed.

Lemma clmul_pos_pos (a b : Z) : 0 < a -> 0 < b -> 0 < clmul a b.
Proof.
  intros Ha Hb. destruct b as [|p|p]; try lia.
  apply clmul_pos_log2. exact Ha.
Qed.


(** ** Congruence modulo the generator *)

Lemma POLYNOMIAL_pos : 0 < POLYNOMIAL.
Proof. reflexivity. Qed.

Lemma POLYNOMIAL_log2 : Z.log2 POLYNOMIAL = 32.
Proof. reflexivity. Qed.

Lemma pcong_refl (a : Z) : pcong a a.
Proof. exists 0. rewrite Z.lxor_nilpotent, clmul_0_l. split; [lia|reflexivity]. Qed.

Lemma pcong_sym (a b : Z) : pcong a b -> pcong b a.
Proof. intros [k [Hk E]]. exists k. rewrite Z.lxor_comm. auto. Qed.

Lemma lxor_swap_mid (a b c : Z) :
  Z.lxor (Z.lxor a b) (Z.lxor b c) = Z.lxor a c.
Proof.
  rewrite Z.lxor_assoc, <- (Z.lxor_assoc b b c), Z.lxor_nilpotent, Z.lxor_0_l.
  reflexivity.
Qed.

Lemma pcong_trans (a b c : Z) : pcong a b -> pcong b c -> pcong a c.
Proof.
  intros [k [Hk E]] [l [Hl F]]. exists (Z.lxor k l). split.
  - apply Z.lxor_nonneg; lia.
  - rewrite clmul_lxor_l, <- E, <- F, lxor_swap_mid. reflexivity.
Qed.

Lemma lxor_interchange (a b c d : Z) :
  Z.lxor (Z.lxor a c) (Z.lxor b d) = Z.lxor (Z.lxor a b) (Z.lxor c d).
Proof.
  rewrite !Z.lxor_assoc. f_equal.
  rewrite <- !Z.lxor_assoc. f_equal. apply Z.lxor_comm.
Qed.

Lemma pcong_lxor (a b c d : Z) :
  pcong a b -> pcong c d -> pcong (Z.lxor a c) (Z.lxor b d).
Proof.
  intros [k [Hk E]] [l [Hl F]]. exists (Z.lxor k l). split.
  - apply Z.lxor_nonneg; lia.
  - rewrite clmul_lxor_l, <- E, <- F. apply lxor_interchange.
Qed.

Lemma pcong_clmul_l (a b c : Z) :
  0 <= c -> pcong a b -> pcong (clmul a c) (clmul b c).
Proof.
  intros Hc [k [Hk E]]. exists (clmul k c). split.
  - apply clmul_nonneg. exact Hk.
  - rewrite <- clmul_lxor_l, E.
    pose proof POLYNOMIAL_pos.
    rewrite !clmul_assoc by lia.
    f_equal. apply clmul_comm; lia.
Qed.

Lemma pcong_clmul_r (a b c : Z) :
  0 <= a -> 0 <= b -> 0 <= c -> pcong a b -> pcong (clmul c a) (clmul c b).
Proof.
  intros Ha Hb Hc H.
  rewrite (clmul_comm c a), (clmul_comm c b) by assumption.
  apply pcong_clmul_l; assumption.
Qed.

Lemma pcong_clmul (a b c d : Z) :
  0 <= b -> 0 <= c -> 0 <= d ->
  pcong a b -> pcong c d -> pcong (clmul a c) (clmul b d).
Proof.
  intros Hb Hc Hd Hab Hcd.
  eapply pcong_trans.
  - apply pcong_clmul_l; [exact Hc|exact Hab].
  - apply pcong_clmul_r; assumption.
Qed.

(** Two polynomials of degree below 32 that are congruent are equal. *)
Lemma pcong_u32_eq (a b : Z) : u32 a -> u32 b -> pcong a b -> a = b.
Proof.
  intros Ha Hb [k [Hk E]].
  apply Z.lxor_eq.
  destruct (Z.eq_dec k 0) as [->|Nk].
  { rewrite E. apply clmul_0_l. }
  exfalso.
  assert (Hx : 0 <= Z.lxor a b < 2 ^ 32) by (apply lxor_bounded; [lia|assumption..]).
  pose proof POLYNOMIAL_pos.
  assert (Hp : 0 < clmul k POLYNOMIAL) by (apply clmul_pos_pos; lia).
  assert (Hl : Z.log2 (clmul k POLYNOMIAL) = Z.log2 k + 32).
  { rewrite clmul_log2, POLYNOMIAL_log2 by lia. reflexivity. }
  rewrite <- E in Hp, Hl.
  assert (Z.log2 (Z.lxor a b) < 32) by (apply Z.log2_lt_pow2; lia).
  pose proof (Z.log2_nonneg k). lia.
Qed.

Lemma pcong_POLYNOMIAL_l (t : Z) : pcong (Z.lxor t POLYNOMIAL) t.
Proof.
  exists 1. split; [lia|].
  rewrite (Z.lxor_comm t), Z.lxor_assoc, Z.lxor_nilpotent, Z.lxor_0_r.
  rewrite clmul_1_l; [reflexivity|]. pose proof POLYNOMIAL_pos. lia.
Qed.

Lemma redc_pcong (t : Z) : pcong (redc t) t.
Proof.
  unfold redc. destruct (Z.testbit t 32).
  - apply pcong_POLYNOMIAL_l.
  - apply pcong_refl.
Qed.

Lemma redc_nonneg (t : Z) : 0 <= t -> 0 <= redc t.
Proof.
  intros Ht. unfold redc. destruct (Z.testbit t 32); [|exact Ht].
  apply Z.lxor_nonneg. pose proof POLYNOMIAL_pos. lia.
Qed.

Lemma redc_u32 (t : Z) : 0 <= t < 2 ^ 33 -> u32 (redc t).
Proof.
  intros Ht. unfold redc. destruct (Z.testbit t 32) eqn:Tb.
  - apply (lxor_cancel_top 32); [lia|exact Ht| |exact Tb|reflexivity].
    unfold POLYNOMIAL. lia.
  - apply (bounded_clear_top 32); [lia|exact Ht|exact Tb].
Qed.

(** The reduction after doubling, as the sources write it. *)
Lemma land_1_low_bit (a : Z) : Z.land a 1 = if Z.odd a then 1 else 0.
Proof.
  apply Z.bits_inj'. intros k Hk.
  rewrite Z.land_spec, testbit_1.
  destruct (Z.eqb_spec k 0) as [->|Nk].
  - rewrite Z.bit0_odd, andb_true_r. destruct (Z.odd a); reflexivity.
  - rewrite andb_false_r. destruct (Z.odd a); [|symmetry; apply Z.bits_0].
    rewrite testbit_1. destruct (Z.eqb_spec k 0); [lia|reflexivity].
Qed.

Lemma land_1_odd (a : Z) : negb (Z.land a 1 =? 0) = Z.odd a.
Proof. rewrite land_1_low_bit. destruct (Z.odd a); reflexivity. Qed.

Lemma truthy_land_1 (a : Z) : truthy (Z.land a 1) = Z.odd a.
Proof. apply land_1_odd. Qed.

Lemma reduce_test (x : Z) :
  negb (Z.land (Z.shiftr x 32) 1 =? 0) = Z.testbit x 32.
Proof.
  rewrite land_1_odd, <- Z.bit0_odd, Z.shiftr_spec by lia. reflexivity.
Qed.

Lemma reduce_redc (x : Z) :
  (if negb (Z.land (Z.shiftr x 32) 1 =? 0) then Z.lxor x POLYNOMIAL else x)
  = redc x.
Proof. rewrite reduce_test. reflexivity. Qed.

(** Splitting off the low bit. *)
Lemma low_bit_split (y : Z) :
  y = Z.lxor (Z.shiftl (Z.shiftr y 1) 1) (if Z.odd y then 1 else 0).
Proof.
  apply Z.bits_inj'. intros k Hk.
  rewrite Z.lxor_spec.
  destruct (Z.eq_dec k 0) as [->|Nk].
  - rewrite Z.shiftl_spec_low by lia. rewrite Z.bit0_odd.
    destruct (Z.odd y); reflexivity.
  - rewrite Z.shiftl_spec, Z.shiftr_spec by lia.
    replace (k - 1 + 1) with k by lia.
    assert (Z.testbit (if Z.odd y then 1 else 0) k = false) as ->.
    { destruct (Z.odd y); [|apply Z.bits_0].
      rewrite testbit_1. destruct (Z.eqb_spec k 0); [lia|reflexivity]. }
    rewrite xorb_false_r. reflexivity.
Qed.

Lemma clmul_low_bit (x y : Z) :
  0 <= y ->
  clmul x y = Z.lxor (if Z.odd y then x else 0)
                     (clmul (Z.shiftl x 1) (Z.shiftr y 1)).
Proof.
  intros Hy.
  assert (Hh : 0 <= Z.shiftr y 1) by (apply Z.shiftr_nonneg; exact Hy).
  rewrite (low_bit_split y) at 1.
  rewrite clmul_shiftl1_l.
  destruct (Z.odd y).
  - apply clmul_succ_double_r. exact Hh.
  - rewrite Z.lxor_0_r, Z.lxor_0_l. apply clmul_double_r. exact Hh.
Qed.

Lemma shiftr1_bounded (y : Z) (n : nat) :
  0 <= y < 2 ^ Z.of_nat (S n) -> 0 <= Z.shiftr y 1 < 2 ^ Z.of_nat n.
Proof.
  intros [Hy Hlt]. rewrite Z.shiftr_div_pow2 by lia. change (2 ^ 1) with 2.
  rewrite Nat2Z.inj_succ, Z.pow_succ_r in Hlt by lia.
  split; [apply Z.div_pos; lia|].
  apply Z.div_lt_upper_bound; lia.
Qed.

Lemma bit_length_bounded (y : Z) : 0 <= y -> 0 <= y < 2 ^ bit_length y.
Proof.
  intros Hy. unfold bit_length.
  destruct (Z.eqb_spec y 0) as [->|Ny]; [simpl; lia|].
  rewrite Z.abs_eq by exact Hy. apply log2_bounded. lia.
Qed.

Lemma bit_length_nonneg (y : Z) : 0 <= bit_length y.
Proof.
  unfold bit_length. destruct (y =? 0); [lia|].
  pose proof (Z.log2_nonneg (Z.abs y)). lia.
Qed.

Lemma bit_length_fuel (y : Z) :
  0 <= y -> 0 <= y < 2 ^ Z.of_nat (Z.to_nat (bit_length y)).
Proof.
  intros Hy. rewrite Z2Nat.id by apply bit_length_nonneg.
  apply bit_length_bounded. exact Hy.
Qed.

(** ** [multiply_mod] multiplies modulo the generator *)

Lemma multiply_mod_loop_spec (fuel : nat) :
  forall x y z : Z,
    0 <= x -> 0 <= z -> 0 <= y < 2 ^ Z.of_nat fuel ->
    exists m,
      multiply_mod_loop fuel x y z = Ok m /\
      0 <= m /\
      pcong m (Z.lxor z (clmul x y)) /\
      (u32 x -> u32 z -> u32 m).
Proof.
  induction fuel as [|fuel IH]; intros x y z Hx Hz Hy.
  - assert (y = 0) as -> by (simpl in Hy; lia).
    exists z. simpl. rewrite Z.lxor_0_r.
    split; [reflexivity|]. split; [exact Hz|]. split; [apply pcong_refl|auto].
  - cbn [multiply_mod_loop].
    destruct (Z.eqb_spec y 0) as [->|Ny].
    { exists z. rewrite clmul_0_r, Z.lxor_0_r.
      split; [reflexivity|]. split; [exact Hz|].
      split; [apply pcong_refl|auto]. }
    rewrite reduce_redc, truthy_land_1.
    set (z' := if Z.odd y then Z.lxor z x else z).
    assert (Hz' : 0 <= z').
    { subst z'. destruct (Z.odd y); [|exact Hz]. apply Z.lxor_nonneg; lia. }
    assert (Hx2 : 0 <= Z.shiftl x 1) by (apply Z.shiftl_nonneg; exact Hx).
    destruct (IH (redc (Z.shiftl x 1)) (Z.shiftr y 1) z')
      as [m [Em [Hm [Cm Um]]]].
    { apply redc_nonneg. exact Hx2. }
    { exact Hz'. }
    { apply shiftr1_bounded. exact Hy. }
    exists m. split; [exact Em|]. split; [exact Hm|]. split.
    + eapply pcong_trans; [exact Cm|].
      rewrite (clmul_low_bit x y) by lia.
      assert (Hc : pcong (clmul (redc (Z.shiftl x 1)) (Z.shiftr y 1))
                         (clmul (Z.shiftl x 1) (Z.shiftr y 1))).
      { apply pcong_clmul_l; [|apply redc_pcong].
        apply Z.shiftr_nonneg. lia. }
      subst z'. destruct (Z.odd y).
      * rewrite <- Z.lxor_assoc. apply pcong_lxor; [apply pcong_refl|exact Hc].
      * rewrite Z.lxor_0_l. apply pcong_lxor; [apply pcong_refl|exact Hc].
    + intros Ux Uz. apply Um.
      * apply redc_u32. apply (shiftl_bounded 32 1); [lia|lia|exact Ux].
      * subst z'. destruct (Z.odd y); [|exact Uz].
        apply lxor_bounded; [lia|assumption..].
Qed.

Lemma multiply_mod_spec (x y : Z) :
  0 <= x -> 0 <= y ->
  exists m,
    multiply_mod x y = Ok m /\ 0 <= m /\ pcong m (clmul x y) /\
    (u32 x -> u32 m).
Proof.
  intros Hx Hy.
  destruct (multiply_mod_loop_spec (Z.to_nat (bit_length y)) x y 0)
    as [m [Em [Hm [Cm Um]]]]; [exact Hx|lia|apply bit_length_fuel; exact Hy|].
  exists m. rewrite Z.lxor_0_l in Cm.
  split; [exact Em|]. split; [exact Hm|]. split; [exact Cm|].
  intros Ux. apply Um; [exact Ux|]. unfold u32; lia.
Qed.

(** When the true product has degree below 32 nothing is reduced. *)
Lemma multiply_mod_exact (x y : Z) :
  u32 x -> 0 <= y -> u32 (clmul x y) -> multiply_mod x y = Ok (clmul x y).
Proof.
  intros Ux Hy Up.
  destruct (multiply_mod_spec x y) as [m [Em [Hm [Cm Um]]]];
    [unfold u32 in Ux; lia|exact Hy|].
  rewrite Em. f_equal. apply pcong_u32_eq; auto.
Qed.

(** ** [pow_mod] raises to a power modulo the generator *)

Lemma clpow_nonneg (a : Z) (n : nat) : 0 <= a -> 0 <= clpow a n.
Proof.
  intros Ha. destruct n as [|n]; simpl; [lia|].
  apply clmul_nonneg. exact Ha.
Qed.

Lemma clpow_add (a : Z) (n m : nat) :
  0 <= a -> clpow a (n + m) = clmul (clpow a n) (clpow a m).
Proof.
  intros Ha. induction n as [|n IH]; simpl.
  - rewrite clmul_1_l; [reflexivity|]. apply clpow_nonneg. exact Ha.
  - rewrite IH, clmul_assoc; auto using clpow_nonneg.
Qed.

Lemma clpow_pcong (a b : Z) (n : nat) :
  0 <= a -> 0 <= b -> pcong a b -> pcong (clpow a n) (clpow b n).
Proof.
  intros Ha Hb H. induction n as [|n IH]; simpl.
  - apply pcong_refl.
  - apply pcong_clmul; auto using clpow_nonneg.
Qed.

Lemma clpow_square (a : Z) (n : nat) :
  0 <= a -> clpow (clmul a a) n = clpow a (n + n).
Proof.
  intros Ha. induction n as [|n IH]; simpl; [reflexivity|].
  rewrite IH, <- plus_n_Sm. simpl.
  apply clmul_assoc; auto using clpow_nonneg.
Qed.

Lemma clpow_2 (n : nat) : clpow 2 n = Z.shiftl 1 (Z.of_nat n).
Proof.
  induction n as [|n IH]; [reflexivity|].
  cbn [clpow]. rewrite IH.
  change 2 with (Z.shiftl 1 1) at 1.
  rewrite clmul_shiftl1_l, clmul_1_l by (apply Z.shiftl_nonneg; lia).
  rewrite Z.shiftl_shiftl by lia. f_equal. lia.
Qed.

Lemma half_to_nat (y : Z) :
  0 <= y ->
  Z.to_nat y = (Z.to_nat (Z.shiftr y 1) + Z.to_nat (Z.shiftr y 1)
                + (if Z.odd y then 1 else 0))%nat.
Proof.
  intros Hy. rewrite <- Z.div2_spec.
  pose proof (Z.div2_odd y) as E.
  assert (0 <= Z.div2 y) by (apply Z.div2_nonneg; exact Hy).
  destruct (Z.odd y); simpl Z.b2z in E; lia.
Qed.

Lemma pow_mod_loop_spec (fuel : nat) :
  forall x y z : Z,
    u32 x -> u32 z -> 0 <= y < 2 ^ Z.of_nat fuel ->
    exists p,
      pow_mod_loop fuel x y z = Ok p /\ u32 p /\
      pcong p (clmul z (clpow x (Z.to_nat y))).
Proof.
  induction fuel as [|fuel IH]; intros x y z Ux Uz Hy.
  - assert (y = 0) as -> by (simpl in Hy; lia).
    exists z. simpl. split; [reflexivity|]. split; [exact Uz|apply pcong_refl].
  - cbn [pow_mod_loop].
    destruct (Z.eqb_spec y 0) as [->|Ny].
    { exists z. simpl. split; [reflexivity|]. split; [exact Uz|apply pcong_refl]. }
    assert (Hx : 0 <= x) by (unfold u32 in Ux; lia).
    assert (Hz : 0 <= z) by (unfold u32 in Uz; lia).
    rewrite land_1_odd.
    destruct (multiply_mod_spec x x Hx Hx) as [x2 [Ex2 [Hx2 [Cx2 Ux2]]]].
    assert (Hz1 : exists z1,
               (if Z.odd y then multiply_mod z x else Ok z) = Ok z1 /\
               u32 z1 /\
               pcong z1 (clmul z (if Z.odd y then x else 1))).
    { destruct (Z.odd y).
      - destruct (multiply_mod_spec z x Hz Hx) as [m [Em [Hm [Cm Um]]]].
        exists m. auto.
      - exists z. rewrite clmul_1_r. auto using pcong_refl. }
    destruct Hz1 as [z1 [Ez1 [Uz1 Cz1]]].
    rewrite Ez1, Ex2. cbn [mbind result_bind].
    destruct (IH x2 (Z.shiftr y 1) z1 (Ux2 Ux) Uz1) as [p [Ep [Up Cp]]].
    { apply shiftr1_bounded. exact Hy. }
    exists p. split; [exact Ep|]. split; [exact Up|].
    eapply pcong_trans; [exact Cp|].
    rewrite (half_to_nat y) by lia.
    set (h := Z.to_nat (Z.shiftr y 1)).
    rewrite (Nat.add_comm (h + h)), clpow_add by exact Hx.
    rewrite <- clmul_assoc; auto using clpow_nonneg.
    apply pcong_clmul.
    + apply clmul_nonneg. exact Hz.
    + apply clpow_nonneg. exact Hx2.
    + apply clpow_nonneg. exact Hx.
    + destruct (Z.odd y); exact Cz1.
    + rewrite <- clpow_square by exact Hx.
      apply clpow_pcong; auto. apply clmul_nonneg. exact Hx.
Qed.

(** [pow_mod 2 y] is [X^y] reduced. *)
Lemma pow_mod_2_spec (y : Z) :
  0 <= y ->
  exists p, pow_mod 2 y = Ok p /\ u32 p /\ pcong p (Z.shiftl 1 y).
Proof.
  intros Hy.
  destruct (pow_mod_loop_spec (Z.to_nat (bit_length y)) 2 y 1)
    as [p [Ep [Up Cp]]]; [unfold u32; lia..|apply bit_length_fuel; exact Hy|].
  exists p. split; [exact Ep|]. split; [exact Up|].
  rewrite clmul_1_l, clpow_2, Z2Nat.id in Cp; auto.
  apply clpow_nonneg. lia.
Qed.

(** ** [divide_and_remainder] is polynomial long division *)

Lemma range_down_neg (s : Z) : s < 0 -> range_down s = [].
Proof.
  intros Hs. unfold range_down.
  replace (Z.to_nat (s + 1)) with O by lia. reflexivity.
Qed.

Lemma range_down_cons (s : Z) :
  0 <= s -> range_down s = s :: range_down (s - 1).
Proof.
  intros Hs. unfold range_down.
  replace (Z.to_nat (s + 1)) with (S (Z.to_nat s)) by lia.
  replace (Z.to_nat (s - 1 + 1)) with (Z.to_nat s) by lia.
  cbn [seq map]. f_equal; [lia|].
  rewrite <- seq_shift, map_map.
  apply map_ext. intros k. lia.
Qed.

Lemma get_degree_log2 (x : Z) : 0 < x -> get_degree x = Z.log2 x.
Proof.
  intros Hx. unfold get_degree, bit_length.
  destruct (Z.eqb_spec x 0); [lia|].
  rewrite Z.abs_eq by lia. lia.
Qed.

Lemma bit_test (x n : Z) :
  0 <= n -> negb (Z.land (Z.shiftr x n) 1 =? 0) = Z.testbit x n.
Proof.
  intros Hn. rewrite land_1_odd, <- Z.bit0_odd, Z.shiftr_spec by lia.
  reflexivity.
Qed.

Lemma testbit_shiftl_1 (i k : Z) :
  0 <= i -> 0 <= k -> Z.testbit (Z.shiftl 1 i) k = (k =? i).
Proof.
  intros Hi Hk. rewrite Z.shiftl_spec, testbit_1 by exact Hk.
  destruct (Z.eqb_spec (k - i) 0), (Z.eqb_spec k i); lia || reflexivity.
Qed.

(** Setting a clear bit is adding the monomial. *)
Lemma lor_clear_bit (z i : Z) :
  0 <= i -> Z.testbit z i = false ->
  Z.lor z (Z.shiftl 1 i) = Z.lxor z (Z.shiftl 1 i).
Proof.
  intros Hi Hz. apply Z.bits_inj'. intros k Hk.
  rewrite Z.lor_spec, Z.lxor_spec, testbit_shiftl_1 by assumption.
  destruct (Z.eqb_spec k i) as [->|Nk].
  - rewrite Hz. reflexivity.
  - rewrite orb_false_r, xorb_false_r. reflexivity.
Qed.

Lemma lxor_cancel_r (a b s : Z) :
  Z.lxor (Z.lxor a s) (Z.lxor b s) = Z.lxor a b.
Proof.
  rewrite (Z.lxor_comm b s). apply lxor_swap_mid.
Qed.

Lemma divide_loop_spec (x0 y : Z) (n : nat) :
  0 < y ->
  forall i z x,
    Z.of_nat n = i + 1 ->
    0 <= z -> (forall k, 0 <= k <= i -> Z.testbit z k = false) ->
    0 <= x < 2 ^ (i + Z.log2 y + 1) ->
    x0 = Z.lxor (clmul z y) x ->
    exists q r,
      fold_left (divide_step y (Z.log2 y)) (range_down i) (z, x) = (q, r) /\
      0 <= q /\ 0 <= r < 2 ^ Z.log2 y /\ x0 = Z.lxor (clmul q y) r.
Proof.
  intros Hy. pose proof (Z.log2_nonneg y) as Hd.
  induction n as [|n IH]; intros i z x Hi Hz Hlow Hx E.
  - rewrite range_down_neg by lia. exists z, x. simpl.
    replace (i + Z.log2 y + 1) with (Z.log2 y) in Hx by lia. auto.
  - rewrite range_down_cons by lia. cbn [fold_left].
    unfold divide_step at 2. rewrite bit_test by lia.
    destruct (Z.testbit x (i + Z.log2 y)) eqn:Tb.
    + rewrite lor_clear_bit by (try apply Hlow; lia).
      apply IH.
      * lia.
      * apply Z.lxor_nonneg. split; intros _; [|exact Hz].
        apply Z.shiftl_nonneg. lia.
      * intros k Hk. rewrite Z.lxor_spec, testbit_shiftl_1, Hlow by lia.
        destruct (Z.eqb_spec k i); [lia|reflexivity].
      * replace (i - 1 + Z.log2 y + 1) with (i + Z.log2 y) by lia.
        apply lxor_cancel_top; [lia|exact Hx| |exact Tb|].
        -- replace (i + Z.log2 y + 1) with (Z.log2 y + 1 + i) by lia.
           apply shiftl_bounded; [lia|lia|]. apply log2_bounded. exact Hy.
        -- rewrite Z.shiftl_spec by lia.
           replace (i + Z.log2 y - i) with (Z.log2 y) by lia.
           apply Z.bit_log2. exact Hy.
      * rewrite clmul_lxor_l, clmul_pow2_l by lia.
        rewrite lxor_cancel_r. exact E.
    + apply IH.
      * lia.
      * exact Hz.
      * intros k Hk. apply Hlow. lia.
      * replace (i - 1 + Z.log2 y + 1) with (i + Z.log2 y) by lia.
        apply bounded_clear_top; [lia|exact Hx|exact Tb].
      * exact E.
Qed.

Lemma divide_and_remainder_spec (x y : Z) :
  0 <= x -> 0 < y ->
  exists q r,
    divide_and_remainder x y = Ok (q, r) /\
    0 <= q /\ 0 <= r < 2 ^ Z.log2 y /\ x = Z.lxor (clmul q y) r.
Proof.
  intros Hx Hy. pose proof (Z.log2_nonneg y) as Hd.
  unfold divide_and_remainder.
  destruct (Z.eqb_spec y 0); [lia|].
  destruct (Z.eqb_spec x 0) as [->|Nx].
  { exists 0, 0. rewrite clmul_0_l.
    assert (0 < 2 ^ Z.log2 y) by (apply Z.pow_pos_nonneg; lia).
    repeat split; lia || reflexivity. }
  cbv zeta. rewrite !get_degree_log2 by lia.
  destruct (Z.lt_ge_cases (Z.log2 x) (Z.log2 y)) as [Hlt|Hge].
  - rewrite range_down_neg by lia. exists 0, x. simpl.
    rewrite clmul_0_l, Z.lxor_0_l.
    split; [reflexivity|]. split; [lia|]. split; [|reflexivity].
    apply (bounded_weaken (Z.log2 x + 1)); [lia|]. apply log2_bounded. lia.
  - destruct (divide_loop_spec x y (Z.to_nat (Z.log2 x - Z.log2 y + 1)) Hy
                (Z.log2 x - Z.log2 y) 0 x) as [q [r [Ef H]]].
    + lia.
    + lia.
    + intros k _. apply Z.bits_0.
    + replace (Z.log2 x - Z.log2 y + Z.log2 y + 1) with (Z.log2 x + 1) by lia.
      apply log2_bounded. lia.
    + rewrite clmul_0_l, Z.lxor_0_l. reflexivity.
    + exists q, r. rewrite Ef. auto.
Qed.

(** The degree of the quotient. *)
Lemma quotient_bounded (x y q r n : Z) :
  0 < y -> 0 <= q -> 0 <= r < 2 ^ Z.log2 y ->
  x = Z.lxor (clmul q y) r -> 0 <= n -> 0 <= x < 2 ^ (n + Z.log2 y) ->
  0 <= q < 2 ^ n.
Proof.
  intros Hy Hq Hr E Hn Hx. split; [exact Hq|].
  destruct (Z.eq_dec q 0) as [->|Nq]; [apply Z.pow_pos_nonneg; lia|].
  apply Z.log2_lt_pow2; [lia|].
  pose proof (Z.log2_nonneg y) as Hd.
  assert (Hp : 0 < clmul q y) by (apply clmul_pos_pos; lia).
  assert (Hl : Z.log2 (clmul q y) = Z.log2 q + Z.log2 y)
    by (apply clmul_log2; lia).
  assert (Hxl : Z.log2 x = Z.log2 (clmul q y)).
  { rewrite E, Z.lxor_comm. apply log2_lxor_lt; [lia|exact Hp|].
    destruct (Z.eq_dec r 0) as [|Nr]; [right; assumption|left].
    assert (Z.log2 r < Z.log2 y) by (apply Z.log2_lt_pow2; lia).
    pose proof (Z.log2_nonneg q). lia. }
  assert (0 < x).
  { destruct (Z.eq_dec x 0) as [Zx|]; [|lia].
    rewrite Zx in Hxl. simpl in Hxl. pose proof (Z.log2_nonneg q). 
    assert (Z.log2 q = 0 /\ Z.log2 y = 0) as [Lq Ly] by lia.
    assert (q = 1).
    { pose proof (log2_bounded q ltac:(lia)) as B. rewrite Lq in B.
      simpl in B. lia. }
    assert (y = 1).
    { pose proof (log2_bounded y Hy) as B. rewrite Ly in B. simpl in B. lia. }
    subst q y. rewrite Ly in Hr. simpl in Hr.
    assert (r = 0) by lia. subst r. rewrite E in Zx. discriminate. }
  assert (Z.log2 x < n + Z.log2 y) by (apply Z.log2_lt_pow2; lia).
  lia.
Qed.

(** ** The generator is irreducible *)

Lemma pdivides_refl (x : Z) : pdivides x x.
Proof. exists 1. split; [lia|reflexivity]. Qed.

Lemma pdivides_0 (d : Z) : pdivides d 0.
Proof. exists 0. split; [lia|reflexivity]. Qed.

Lemma pdivides_combine (d q y r : Z) :
  0 <= d -> 0 <= q ->
  pdivides d y -> pdivides d r -> pdivides d (Z.lxor (clmul q y) r).
Proof.
  intros Hd Hq [k [Hk ->]] [l [Hl ->]].
  exists (Z.lxor (clmul q k) l). split.
  - apply Z.lxor_nonneg. split; intros _; [exact Hl|].
    apply clmul_nonneg. exact Hq.
  - assert (0 <= clmul q k) by (apply clmul_nonneg; exact Hq).
    rewrite clmul_lxor_r by assumption. f_equal.
    rewrite <- !clmul_assoc by assumption.
    f_equal. apply clmul_comm; assumption.
Qed.

(** A divisor leaves no remainder. *)
Lemma remainder_of_multiple (x d k q r : Z) :
  0 < d -> 0 <= k -> 0 <= q -> 0 <= r < 2 ^ Z.log2 d ->
  x = clmul d k -> x = Z.lxor (clmul q d) r -> r = 0.
Proof.
  intros Hd Hk Hq Hr Ek Eq.
  assert (Er : r = clmul (Z.lxor q k) d).
  { rewrite clmul_lxor_l, (clmul_comm k d) by lia.
    rewrite <- Ek, Eq.
    rewrite (Z.lxor_comm (clmul q d) (Z.lxor (clmul q d) r)).
    rewrite Z.lxor_assoc, (Z.lxor_comm r), <- Z.lxor_assoc.
    rewrite Z.lxor_nilpotent, Z.lxor_0_l. reflexivity. }
  assert (Hs : 0 <= Z.lxor q k) by (apply Z.lxor_nonneg; lia).
  destruct (Z.eq_dec (Z.lxor q k) 0) as [Zs|Ns].
  { rewrite Er, Zs. apply clmul_0_l. }
  exfalso.
  assert (Hp : 0 < r) by (rewrite Er; apply clmul_pos_pos; lia).
  assert (Hl : Z.log2 r = Z.log2 (Z.lxor q k) + Z.log2 d)
    by (rewrite Er; apply clmul_log2; lia).
  assert (Z.log2 r < Z.log2 d) by (apply Z.log2_lt_pow2; lia).
  pose proof (Z.log2_nonneg (Z.lxor q k)). lia.
Qed.

Lemma no_divisor_from_spec (n : nat) :
  forall d0 d,
    no_divisor_from n d0 = true -> d0 <= d < d0 + Z.of_nat n ->
    leaves_remainder d = true.
Proof.
  induction n as [|n IH]; intros d0 d Hc Hd; [lia|].
  cbn [no_divisor_from] in Hc.
  destruct (leaves_remainder d0) eqn:E; [|discriminate].
  destruct (Z.eq_dec d d0) as [->|Nd]; [exact E|].
  apply (IH (d0 + 1)); [exact Hc|lia].
Qed.

Lemma no_small_divisor : no_divisor_from (Z.to_nat 131070) 2 = true.
Proof. vm_cast_no_check (eq_refl true). Qed.

Lemma POLYNOMIAL_no_factor (d k : Z) :
  2 <= d < 2 ^ 17 -> 0 <= k -> POLYNOMIAL <> clmul d k.
Proof.
  intros Hd Hk E.
  assert (Hr : leaves_remainder d = true).
  { apply (no_divisor_from_spec _ 2 d no_small_divisor).
    rewrite Z2Nat.id by lia. lia. }
  unfold leaves_remainder in Hr.
  destruct (divide_and_remainder_spec POLYNOMIAL d)
    as [q [r [Ed [Hq [Hrb Eq]]]]]; [pose proof POLYNOMIAL_pos; lia|lia|].
  rewrite Ed in Hr.
  assert (r = 0) as ->.
  { apply (remainder_of_multiple POLYNOMIAL d k q r); auto. lia. }
  discriminate.
Qed.

Lemma log2_0_is_1 (g : Z) : 0 < g -> Z.log2 g = 0 -> g = 1.
Proof.
  intros Hg Hl. pose proof (log2_bounded g Hg) as B.
  rewrite Hl in B. simpl in B. lia.
Qed.

Theorem POLYNOMIAL_irreducible (g k : Z) :
  0 <= g -> 0 <= k -> POLYNOMIAL = clmul g k -> g = 1 \/ k = 1.
Proof.
  intros Hg Hk E.
  assert (Ng : g <> 0) by (intros ->; rewrite clmul_0_l in E; discriminate).
  assert (Nk : k <> 0) by (intros ->; rewrite clmul_0_r in E; discriminate).
  assert (Hl : Z.log2 g + Z.log2 k = 32).
  { rewrite <- clmul_log2, <- E by lia. reflexivity. }
  pose proof (Z.log2_nonneg g). pose proof (Z.log2_nonneg k).
  destruct (Z.eq_dec (Z.log2 g) 0) as [Lg|Lg].
  { left. apply log2_0_is_1; lia. }
  destruct (Z.eq_dec (Z.log2 k) 0) as [Lk|Lk].
  { right. apply log2_0_is_1; lia. }
  exfalso.
  assert (Bg : 2 ^ Z.log2 g <= g < 2 ^ (Z.log2 g + 1))
    by (split; [apply Z.log2_spec|apply log2_bounded]; lia).
  assert (Bk : 2 ^ Z.log2 k <= k < 2 ^ (Z.log2 k + 1))
    by (split; [apply Z.log2_spec|apply log2_bounded]; lia).
  assert (P1 : forall a, 1 <= a -> 2 <= 2 ^ a).
  { intros a Ha. change 2 with (2 ^ 1) at 1. apply Z.pow_le_mono_r; lia. }
  assert (P17 : forall a, a <= 16 -> 2 ^ (a + 1) <= 2 ^ 17).
  { intros a Ha. apply Z.pow_le_mono_r; lia. }
  destruct (Z.le_gt_cases (Z.log2 g) 16) as [Sg|Sg].
  - apply (POLYNOMIAL_no_factor g k); [|lia|exact E].
    pose proof (P1 (Z.log2 g) ltac:(lia)). pose proof (P17 (Z.log2 g) Sg). lia.
  - apply (POLYNOMIAL_no_factor k g); [|lia|].
    + pose proof (P1 (Z.log2 k) ltac:(lia)).
      pose proof (P17 (Z.log2 k) ltac:(lia)). lia.
    + rewrite E. apply clmul_comm; lia.
Qed.

(** ** [reciprocal_mod] inverts modulo the generator *)

Lemma pcong_0_POLYNOMIAL : pcong 0 POLYNOMIAL.
Proof.
  apply pcong_sym. rewrite <- (Z.lxor_0_l POLYNOMIAL) at 1.
  apply pcong_POLYNOMIAL_l.
Qed.

Lemma reciprocal_mod_loop_spec (v : Z) (fuel : nat) :
  0 <= v ->
  forall x y a b,
    0 < x < 2 ^ 33 -> 0 <= y < 2 ^ Z.of_nat fuel -> u32 y ->
    u32 a -> 0 <= b -> (u32 b \/ y = 0) ->
    pcong (clmul a v) x -> pcong (clmul b v) y ->
    exists g a',
      reciprocal_mod_loop fuel x y a b = reciprocal_outcome g a' /\
      0 < g /\ pdivides g x /\ pdivides g y /\
      u32 a' /\ pcong (clmul a' v) g.
Proof.
  intros Hv. induction fuel as [|fuel IH]; intros x y a b Hx Hy Uy Ua Hb Ub Ca Cb.
  - assert (y = 0) as -> by (simpl in Hy; lia).
    exists x, a. simpl.
    split; [reflexivity|]. split; [lia|].
    split; [apply pdivides_refl|]. split; [apply pdivides_0|]. auto.
  - cbn [reciprocal_mod_loop].
    destruct (Z.eqb_spec y 0) as [->|Ny].
    { exists x, a. split; [reflexivity|]. split; [lia|].
      split; [apply pdivides_refl|]. split; [apply pdivides_0|]. auto. }
    assert (Py : 0 < y) by lia.
    pose proof (Z.log2_nonneg y) as Hd.
    destruct (divide_and_remainder_spec x y ltac:(lia) Py)
      as [q [r [Ed [Hq [Hr Eq]]]]].
    rewrite Ed. cbn [mbind result_bind].
    destruct (multiply_mod_spec q b Hq Hb) as [m [Em [Hm [Cm Um]]]].
    rewrite Em. cbn [mbind result_bind].
    assert (Uyb : u32 b) by (destruct Ub; [assumption|lia]).
    assert (Ly : Z.log2 y < Z.of_nat (S fuel)) by (apply Z.log2_lt_pow2; lia).
    assert (Ur : u32 r).
    { apply (bounded_weaken (Z.log2 y)); [|exact Hr].
      assert (Z.log2 y < 32) by (apply Z.log2_lt_pow2; unfold u32 in Uy; lia).
      lia. }
    assert (Hc : 0 <= Z.lxor a m).
    { apply Z.lxor_nonneg. unfold u32 in Ua. lia. }
    destruct (IH y r b (Z.lxor a m)) as [g [a' [El [Pg [Dy [Dr [Ua' Ca']]]]]]].
    + unfold u32 in Uy. lia.
    + split; [lia|]. eapply Z.lt_le_trans; [apply Hr|].
      apply Z.pow_le_mono_r; lia.
    + exact Ur.
    + exact Uyb.
    + exact Hc.
    + destruct (Z.eq_dec (Z.log2 y) 0) as [L0|L0].
      * right. rewrite L0 in Hr. simpl in Hr. lia.
      * left. apply lxor_bounded; [lia|exact Ua|]. apply Um.
        apply (quotient_bounded x y q r 32); auto; [lia|].
        split; [lia|]. eapply Z.lt_le_trans; [apply Hx|].
        apply Z.pow_le_mono_r; lia.
    + exact Cb.
    + rewrite clmul_lxor_l.
      assert (Cq : pcong (clmul m v) (clmul q y)).
      { eapply pcong_trans.
        - apply pcong_clmul_l; [exact Hv|exact Cm].
        - rewrite clmul_assoc by assumption.
          apply pcong_clmul_r; auto; [apply clmul_nonneg; exact Hb|lia]. }
      assert (Er : r = Z.lxor x (clmul q y)).
      { rewrite Eq, Z.lxor_comm, <- Z.lxor_assoc, Z.lxor_nilpotent.
        apply Z.lxor_0_l. }
      rewrite Er. apply pcong_lxor; assumption.
    + exists g, a'. split; [exact El|]. split; [exact Pg|].
      split; [|auto].
      rewrite Eq. apply pdivides_combine; auto. lia.
Qed.

Lemma pdivides_log2 (g v : Z) :
  0 < g -> 0 < v -> pdivides g v -> Z.log2 g <= Z.log2 v.
Proof.
  intros Hg Hv [k [Hk E]].
  assert (k <> 0) by (intros ->; rewrite clmul_0_r in E; lia).
  rewrite E, clmul_log2 by lia.
  pose proof (Z.log2_nonneg k). lia.
Qed.

(** Every non-zero polynomial of degree below 32 has an inverse, and
    [reciprocal_mod] finds it. *)
Lemma reciprocal_mod_spec (v : Z) :
  0 < v < 2 ^ 32 ->
  exists a, reciprocal_mod v = Ok a /\ u32 a /\ pcong (clmul a v) 1.
Proof.
  intros Hv. unfold reciprocal_mod.
  destruct (reciprocal_mod_loop_spec v (Z.to_nat (bit_length v)) ltac:(lia)
              POLYNOMIAL v 0 1)
    as [g [a [El [Pg [Dp [Dv [Ua Ca]]]]]]].
  - unfold POLYNOMIAL. lia.
  - apply bit_length_fuel. lia.
  - unfold u32. lia.
  - unfold u32. lia.
  - lia.
  - left. unfold u32. lia.
  - rewrite clmul_0_l. apply pcong_0_POLYNOMIAL.
  - rewrite clmul_1_l by lia. apply pcong_refl.
  - assert (g = 1) as ->.
    { destruct Dp as [k [Hk E]].
      destruct (POLYNOMIAL_irreducible g k ltac:(lia) Hk E) as [|K1];
        [assumption|].
      subst k. rewrite clmul_1_r in E. subst g.
      pose proof (pdivides_log2 POLYNOMIAL v Pg ltac:(lia) Dv) as L.
      rewrite POLYNOMIAL_log2 in L.
      assert (Z.log2 v < 32) by (apply Z.log2_lt_pow2; lia). lia. }
    exists a. auto.
Qed.

Lemma reciprocal_mod_inverse (v a : Z) :
  0 < v < 2 ^ 32 -> reciprocal_mod v = Ok a -> multiply_mod a v = Ok 1.
Proof.
  intros Hv E.
  destruct (reciprocal_mod_spec v Hv) as [a' [E' [Ua Ca]]].
  rewrite E in E'. injection E' as <-.
  destruct (multiply_mod_spec a v) as [m [Em [Hm [Cm Um]]]];
    [unfold u32 in Ua; lia|lia|].
  rewrite Em. f_equal.
  apply pcong_u32_eq; [auto|unfold u32; lia|].
  eapply pcong_trans; eassumption.
Qed.

(** ** The digest register as a polynomial *)

Lemma shiftr_spec_all (a n m : Z) :
  Z.testbit (Z.shiftr a n) m = (0 <=? m) && Z.testbit a (m + n).
Proof.
  destruct (Z.leb_spec 0 m).
  - apply Z.shiftr_spec. assumption.
  - apply Z.testbit_neg_r. assumption.
Qed.

Lemma shiftl_spec_all (a n m : Z) :
  Z.testbit (Z.shiftl a n) m = (0 <=? m) && Z.testbit a (m - n).
Proof.
  destruct (Z.leb_spec 0 m).
  - apply Z.shiftl_spec. assumption.
  - apply Z.testbit_neg_r. assumption.
Qed.

Lemma testbit_255 (m : Z) : Z.testbit 255 m = (0 <=? m) && (m <? 8).
Proof. change 255 with (Z.ones 8). apply Z.testbit_ones. lia. Qed.

(** Bitwise equalities: rewrite every bit to a bit of a variable, then
    split on the position. *)
Ltac bit_rewrite :=
  repeat first
    [ rewrite Z.lxor_spec | rewrite Z.land_spec | rewrite Z.lor_spec
    | rewrite reverse32_spec | rewrite shiftr_spec_all
    | rewrite shiftl_spec_all | rewrite testbit_255 | rewrite testbit_1
    | rewrite Z.bits_0 ].

Ltac split_positions :=
  repeat match goal with
    | |- context [?a <=? ?b] => destruct (Z.leb_spec a b)
    | |- context [?a <? ?b] => destruct (Z.ltb_spec a b)
    | |- context [?a =? ?b] => destruct (Z.eqb_spec a b)
    end.

Ltac bit_finish :=
  cbn [andb orb xorb negb];
  rewrite ?andb_false_r, ?andb_true_r, ?xorb_false_r, ?xorb_false_l,
    ?orb_false_r;
  try reflexivity; try lia; try (f_equal; lia).

Lemma reverse32_polynomial : reverse32 polynomial = 0x04C11DB7.
Proof. reflexivity. Qed.

Lemma POLYNOMIAL_split : POLYNOMIAL = Z.lxor 0x04C11DB7 (Z.shiftl 1 32).
Proof. reflexivity. Qed.

Lemma reverse32_shiftr1 (c : Z) :
  u32 c ->
  Z.shiftl (reverse32 c) 1 =
  Z.lxor (reverse32 (Z.shiftr c 1)) (if Z.odd c then Z.shiftl 1 32 else 0).
Proof.
  intros Uc. rewrite <- Z.bit0_odd.
  apply Z.bits_inj'; intros k Hk.
  destruct (Z.testbit c 0) eqn:T0; bit_rewrite; split_positions; bit_finish.
  all: try (replace (31 - (k - 1)) with 0 by lia; exact T0).
  all: symmetry; apply (bounded_bits 32 c); [exact Uc|lia].
Qed.

Lemma crc32_bit_step_u32 (c : Z) : u32 c -> u32 (crc32_bit_step c).
Proof.
  intros Uc. unfold crc32_bit_step.
  assert (Hs : u32 (Z.shiftr c 1)).
  { unfold u32 in *. rewrite Z.shiftr_div_pow2 by lia. change (2 ^ 1) with 2.
    split; [apply Z.div_pos; lia|]. apply Z.div_lt_upper_bound; lia. }
  destruct (truthy (Z.land c 1)); [|exact Hs].
  apply lxor_bounded; [lia|exact Hs|]. unfold polynomial. lia.
Qed.

Lemma reverse32_bit_step (c : Z) :
  u32 c -> reverse32 (crc32_bit_step c) = redc (Z.shiftl (reverse32 c) 1).
Proof.
  intros Uc. unfold crc32_bit_step, redc.
  rewrite truthy_land_1.
  assert (T : Z.testbit (Z.shiftl (reverse32 c) 1) 32 = Z.odd c).
  { rewrite Z.shiftl_spec, reverse32_spec by lia. simpl.
    apply Z.bit0_odd. }
  rewrite T, (reverse32_shiftr1 c Uc).
  destruct (Z.odd c).
  - rewrite reverse32_lxor, reverse32_polynomial, POLYNOMIAL_split.
    rewrite (Z.lxor_comm 0x04C11DB7), <- Z.lxor_assoc.
    f_equal. rewrite Z.lxor_assoc, Z.lxor_nilpotent, Z.lxor_0_r. reflexivity.
  - rewrite Z.lxor_0_r. reflexivity.
Qed.

Lemma pcong_shiftl (a b n : Z) :
  0 <= n -> pcong a b -> pcong (Z.shiftl a n) (Z.shiftl b n).
Proof.
  intros Hn H.
  rewrite <- (clmul_pow2_r a n Hn), <- (clmul_pow2_r b n Hn).
  apply pcong_clmul_l; [|exact H]. apply Z.shiftl_nonneg. lia.
Qed.

Lemma reverse32_bit_steps (n : nat) (c : Z) :
  u32 c ->
  u32 (Nat.iter n crc32_bit_step c) /\
  pcong (reverse32 (Nat.iter n crc32_bit_step c))
        (Z.shiftl (reverse32 c) (Z.of_nat n)).
Proof.
  intros Uc. induction n as [|n [IHu IHc]].
  - simpl Nat.iter. rewrite Z.shiftl_0_r. split; [exact Uc|apply pcong_refl].
  - change (Nat.iter (S n) crc32_bit_step c)
      with (crc32_bit_step (Nat.iter n crc32_bit_step c)).
    split; [apply crc32_bit_step_u32; exact IHu|].
    rewrite reverse32_bit_step by exact IHu.
    eapply pcong_trans; [apply redc_pcong|].
    rewrite Nat2Z.inj_succ, <- Z.add_1_r, <- Z.shiftl_shiftl by lia.
    apply pcong_shiftl; [lia|exact IHc].
Qed.

Lemma Z_of_byte_bounded (b : byte) : 0 <= Z_of_byte b < 2 ^ 8.
Proof.
  unfold Z_of_byte. pose proof (Byte.to_N_bounded b). change (2 ^ 8) with 256.
  lia.
Qed.

Lemma reverse32_byte_step (c : Z) (b : byte) :
  u32 c ->
  u32 (crc32_byte_step c b) /\
  pcong (reverse32 (crc32_byte_step c b)) (crc_poly_step (reverse32 c) b).
Proof.
  intros Uc. unfold crc32_byte_step, crc_poly_step.
  rewrite <- reverse32_lxor.
  apply (reverse32_bit_steps 8).
  apply lxor_bounded; [lia|exact Uc|].
  apply (bounded_weaken 8); [lia|apply Z_of_byte_bounded].
Qed.

Lemma crc_poly_step_nonneg (R : Z) (b : byte) :
  0 <= R -> 0 <= crc_poly_step R b.
Proof.
  intros HR. unfold crc_poly_step. apply Z.shiftl_nonneg.
  apply Z.lxor_nonneg. pose proof (reverse32_u32 (Z_of_byte b)).
  unfold u32 in *. lia.
Qed.

Lemma crc_poly_pcong (buffer : list byte) (R R' : Z) :
  pcong R R' -> pcong (crc_poly R buffer) (crc_poly R' buffer).
Proof.
  revert R R'. induction buffer as [|b bs IH]; intros R R' H; [exact H|].
  apply (IH (crc_poly_step R b) (crc_poly_step R' b)). unfold crc_poly_step.
  apply pcong_shiftl; [lia|]. apply pcong_lxor; [exact H|apply pcong_refl].
Qed.

Lemma crc_poly_cons (R : Z) (b : byte) (buffer : list byte) :
  crc_poly R (b :: buffer) = crc_poly (crc_poly_step R b) buffer.
Proof. reflexivity. Qed.

Lemma fold_left_cons {A B : Type} (f : A -> B -> A) (b : B) (l : list B) (a : A) :
  fold_left f (b :: l) a = fold_left f l (f a b).
Proof. reflexivity. Qed.

Lemma crc_poly_nil (R : Z) : crc_poly R [] = R.
Proof. reflexivity. Qed.

Lemma fold_left_nil {A B : Type} (f : A -> B -> A) (a : A) :
  fold_left f [] a = a.
Proof. reflexivity. Qed.

Lemma crc_poly_app (R : Z) (l1 l2 : list byte) :
  crc_poly R (l1 ++ l2) = crc_poly (crc_poly R l1) l2.
Proof. apply fold_left_app. Qed.

(** The register is an affine function of its initial value. *)
Lemma crc_poly_lxor (buffer : list byte) (R D : Z) :
  crc_poly (Z.lxor R D) buffer =
  Z.lxor (crc_poly R buffer) (Z.shiftl D (8 * Z.of_nat (length buffer))).
Proof.
  revert R D. induction buffer as [|b bs IH]; intros R D.
  - rewrite !crc_poly_nil. change (8 * Z.of_nat (length [])) with 0.
    rewrite Z.shiftl_0_r. reflexivity.
  - rewrite !crc_poly_cons, length_cons, Nat2Z.inj_succ.
    assert (E : crc_poly_step (Z.lxor R D) b
                = Z.lxor (crc_poly_step R b) (Z.shiftl D 8)).
    { unfold crc_poly_step. rewrite <- Z.shiftl_lxor. f_equal.
      rewrite !Z.lxor_assoc. f_equal. apply Z.lxor_comm. }
    rewrite E, IH, Z.shiftl_shiftl by lia.
    do 2 f_equal. lia.
Qed.

(** The digest loop computes the polynomial, reduced. *)
Lemma reverse32_crc_fold (buffer : list byte) (c : Z) :
  u32 c ->
  u32 (fold_left crc32_byte_step buffer c) /\
  pcong (reverse32 (fold_left crc32_byte_step buffer c))
        (crc_poly (reverse32 c) buffer).
Proof.
  revert c. induction buffer as [|b bs IH]; intros c Uc.
  - rewrite fold_left_nil, crc_poly_nil. split; [exact Uc|apply pcong_refl].
  - rewrite fold_left_cons, crc_poly_cons.
    destruct (reverse32_byte_step c b Uc) as [Us Cs].
    destruct (IH _ Us) as [Uf Cf].
    split; [exact Uf|].
    eapply pcong_trans; [exact Cf|].
    apply crc_poly_pcong. exact Cs.
Qed.

(** ** The digest primitive and the loop of [calculate_crc32] agree *)

Lemma hdlc_bits_iter (n : nat) (reg : Z) :
  hdlc_bits n reg = Nat.iter n crc32_bit_step reg.
Proof.
  revert reg. induction n as [|n IH]; intros reg; [reflexivity|].
  rewrite Nat.iter_succ_r, <- IH. cbn [hdlc_bits]. f_equal.
  unfold crc32_bit_step. rewrite truthy_land_1, Z.div2_spec. reflexivity.
Qed.

Lemma hdlc_bytes_fold (buffer : list byte) (reg : Z) :
  hdlc_bytes reg buffer = fold_left crc32_byte_step buffer reg.
Proof.
  revert reg. induction buffer as [|b bs IH]; intros reg; [reflexivity|].
  cbn [hdlc_bytes]. rewrite fold_left_cons, IH, hdlc_bits_iter. reflexivity.
Qed.

Lemma u32_mask : u32 0xFFFFFFFF.
Proof. unfold u32. lia. Qed.

Lemma land_mask_u32 (x : Z) : u32 x -> Z.land x 0xFFFFFFFF = x.
Proof.
  intros Ux. change 0xFFFFFFFF with (Z.ones 32).
  rewrite Z.land_ones by lia. apply Z.mod_small. exact Ux.
Qed.

Lemma land_mask_bounded (x : Z) : u32 (Z.land x 0xFFFFFFFF).
Proof. apply land_bounded_r; [lia|apply u32_mask]. Qed.

Lemma lxor_lxor_cancel (x m : Z) : Z.lxor (Z.lxor x m) m = x.
Proof. rewrite Z.lxor_assoc, Z.lxor_nilpotent. apply Z.lxor_0_r. Qed.

Lemma zlib_crc32_fold (buffer : list byte) (value : Z) :
  zlib_crc32 buffer value =
  Z.lxor (fold_left crc32_byte_step buffer
            (Z.lxor (Z.land value 0xFFFFFFFF) 0xFFFFFFFF)) 0xFFFFFFFF.
Proof. unfold zlib_crc32. rewrite hdlc_bytes_fold. reflexivity. Qed.

Lemma crc_fold_u32 (buffer : list byte) (c : Z) :
  u32 c -> u32 (fold_left crc32_byte_step buffer c).
Proof. intros Uc. apply reverse32_crc_fold. exact Uc. Qed.

Lemma zlib_crc32_u32 (buffer : list byte) (value : Z) :
  u32 (zlib_crc32 buffer value).
Proof.
  rewrite zlib_crc32_fold.
  apply lxor_bounded; [lia| |apply u32_mask].
  apply crc_fold_u32.
  apply lxor_bounded; [lia|apply land_mask_bounded|apply u32_mask].
Qed.

Lemma zlib_crc32_nil (value : Z) : u32 value -> zlib_crc32 [] value = value.
Proof.
  intros Uv. rewrite zlib_crc32_fold, fold_left_nil, lxor_lxor_cancel.
  apply land_mask_u32. exact Uv.
Qed.

(** Feeding a buffer in two pieces, carrying the partial result over. *)
Lemma zlib_crc32_app (l1 l2 : list byte) (value : Z) :
  zlib_crc32 (l1 ++ l2) value = zlib_crc32 l2 (zlib_crc32 l1 value).
Proof.
  rewrite (zlib_crc32_fold l2), (zlib_crc32_fold (l1 ++ l2)), fold_left_app.
  rewrite (land_mask_u32 (zlib_crc32 l1 value)) by apply zlib_crc32_u32.
  rewrite (zlib_crc32_fold l1), lxor_lxor_cancel. reflexivity.
Qed.

Lemma crc32_of_bytes_zlib (buffer : list byte) :
  crc32_of_bytes buffer = zlib_crc32 buffer 0.
Proof. rewrite zlib_crc32_fold. reflexivity. Qed.

Lemma zlib_crc32_chunks (chunks : list (list byte)) (value : Z) :
  u32 value ->
  fold_left (fun crc buffer => zlib_crc32 buffer crc) chunks value =
  zlib_crc32 (concat chunks) value.
Proof.
  revert value. induction chunks as [|c cs IH]; intros value Uv.
  - rewrite fold_left_nil. cbn [concat]. symmetry. apply zlib_crc32_nil.
    exact Uv.
  - rewrite fold_left_cons. cbn [concat].
    rewrite zlib_crc32_app. apply IH. apply zlib_crc32_u32.
Qed.

(** ** The four patched bytes add [delta * X^32] to the register *)

Lemma patch_byte_bounded (delta i : Z) : 0 <= patch_byte delta i < 2 ^ 8.
Proof.
  unfold patch_byte. apply land_bounded_r; lia.
Qed.

Ltac split_positions_pruned :=
  repeat match goal with
    | |- context [?a <=? ?b] => destruct (Z.leb_spec a b); try lia
    | |- context [?a <? ?b] => destruct (Z.ltb_spec a b); try lia
    | |- context [?a =? ?b] => destruct (Z.eqb_spec a b); try lia
    end.

Lemma reverse32_patch_byte (delta i : Z) :
  0 <= i <= 3 ->
  Z.shiftl (reverse32 (patch_byte delta i)) (32 - 8 * i) =
  Z.shiftl (Z.land (Z.shiftr delta (24 - 8 * i)) 255) (56 - 8 * i).
Proof.
  intros Hi. unfold patch_byte.
  apply Z.bits_inj'; intros k Hk. bit_rewrite.
  split_positions_pruned; bit_finish.
Qed.

Lemma patch_sum (delta : Z) :
  u32 delta ->
  Z.lxor (Z.lxor (Z.lxor (Z.shiftl (reverse32 (patch_byte delta 0)) 32)
                         (Z.shiftl (reverse32 (patch_byte delta 1)) 24))
                 (Z.shiftl (reverse32 (patch_byte delta 2)) 16))
         (Z.shiftl (reverse32 (patch_byte delta 3)) 8)
  = Z.shiftl delta 32.
Proof.
  intros Ud.
  pose proof (reverse32_patch_byte delta 0 ltac:(lia)) as E0.
  pose proof (reverse32_patch_byte delta 1 ltac:(lia)) as E1.
  pose proof (reverse32_patch_byte delta 2 ltac:(lia)) as E2.
  pose proof (reverse32_patch_byte delta 3 ltac:(lia)) as E3.
  change (32 - 8 * 0) with 32 in E0. change (32 - 8 * 1) with 24 in E1.
  change (32 - 8 * 2) with 16 in E2. change (32 - 8 * 3) with 8 in E3.
  rewrite E0, E1, E2, E3. clear E0 E1 E2 E3.
  apply Z.bits_inj'; intros k Hk. bit_rewrite.
  split_positions_pruned; bit_finish.
  all: symmetry;
    first [ apply Z.testbit_neg_r; lia
          | apply (bounded_bits 32 delta); [exact Ud|lia] ].
Qed.

(** ** Patching the four bytes *)

Lemma byte_of_Z_spec (v : Z) :
  0 <= v < 2 ^ 8 -> exists b, byte_of_Z v = Some b /\ Z_of_byte b = v.
Proof.
  intros Hv. unfold byte_of_Z, Z_of_byte.
  destruct (Z.ltb_spec v 0); [lia|].
  destruct (Byte.of_N (Z.to_N v)) as [b|] eqn:E.
  - exists b. split; [reflexivity|].
    apply Byte.to_of_N in E. rewrite E. lia.
  - apply Byte.of_N_None_iff in E. change (2 ^ 8) with 256 in Hv. lia.
Qed.

Lemma Z_of_byte_inj (b c : byte) : Z_of_byte b = Z_of_byte c -> b = c.
Proof.
  unfold Z_of_byte. intros E. apply N2Z.inj in E.
  pose proof (Byte.of_to_N b) as Hb. rewrite E, Byte.of_to_N in Hb.
  congruence.
Qed.

Lemma bytearray_ixor_spec (l : list byte) (i : nat) (b : byte) (v : Z) :
  l !! i = Some b -> 0 <= v < 2 ^ 8 ->
  exists c, bytearray_ixor l i v = Ok (<[i := c]> l) /\
            Z_of_byte c = Z.lxor (Z_of_byte b) v.
Proof.
  intros Hl Hv. unfold bytearray_ixor. rewrite Hl.
  destruct (byte_of_Z_spec (Z.lxor (Z_of_byte b) v)) as [c [Ec Hc]].
  { apply lxor_bounded; [lia|apply Z_of_byte_bounded|exact Hv]. }
  rewrite Ec. exists c. split; [reflexivity|exact Hc].
Qed.

Lemma patch_bytes4 (delta : Z) (b0 b1 b2 b3 : byte) :
  exists c0 c1 c2 c3,
    fold_left (patch_step delta) (seq 0 4) (Ok [b0; b1; b2; b3])
    = Ok [c0; c1; c2; c3] /\
    Z_of_byte c0 = Z.lxor (Z_of_byte b0) (patch_byte delta 0) /\
    Z_of_byte c1 = Z.lxor (Z_of_byte b1) (patch_byte delta 1) /\
    Z_of_byte c2 = Z.lxor (Z_of_byte b2) (patch_byte delta 2) /\
    Z_of_byte c3 = Z.lxor (Z_of_byte b3) (patch_byte delta 3).
Proof.
  destruct (bytearray_ixor_spec [b0; b1; b2; b3] 0 b0 (patch_byte delta 0)
              eq_refl (patch_byte_bounded _ _)) as [c0 [E0 H0]].
  destruct (bytearray_ixor_spec [c0; b1; b2; b3] 1 b1 (patch_byte delta 1)
              eq_refl (patch_byte_bounded _ _)) as [c1 [E1 H1]].
  destruct (bytearray_ixor_spec [c0; c1; b2; b3] 2 b2 (patch_byte delta 2)
              eq_refl (patch_byte_bounded _ _)) as [c2 [E2 H2]].
  destruct (bytearray_ixor_spec [c0; c1; c2; b3] 3 b3 (patch_byte delta 3)
              eq_refl (patch_byte_bounded _ _)) as [c3 [E3 H3]].
  exists c0, c1, c2, c3.
  split; [|auto].
  cbn [seq fold_left]. unfold patch_step.
  change (Z.of_nat 0) with 0. change (Z.of_nat 1) with 1.
  change (Z.of_nat 2) with 2. change (Z.of_nat 3) with 3.
  cbn [mbind result_bind].
  rewrite E0. cbn [mbind result_bind insert list_insert].
  rewrite E1. cbn [mbind result_bind insert list_insert].
  rewrite E2. cbn [mbind result_bind insert list_insert].
  rewrite E3. reflexivity.
Qed.

Lemma crc_poly_step_patch (R d : Z) (b c : byte) :
  Z_of_byte c = Z.lxor (Z_of_byte b) d ->
  crc_poly_step R c = Z.lxor (crc_poly_step R b) (Z.shiftl (reverse32 d) 8).
Proof.
  intros E. unfold crc_poly_step.
  rewrite E, reverse32_lxor, <- Z.shiftl_lxor, Z.lxor_assoc. reflexivity.
Qed.

Lemma crc_poly_patch4 (R delta : Z) (b0 b1 b2 b3 c0 c1 c2 c3 : byte) :
  u32 delta ->
  Z_of_byte c0 = Z.lxor (Z_of_byte b0) (patch_byte delta 0) ->
  Z_of_byte c1 = Z.lxor (Z_of_byte b1) (patch_byte delta 1) ->
  Z_of_byte c2 = Z.lxor (Z_of_byte b2) (patch_byte delta 2) ->
  Z_of_byte c3 = Z.lxor (Z_of_byte b3) (patch_byte delta 3) ->
  crc_poly R [c0; c1; c2; c3]
  = Z.lxor (crc_poly R [b0; b1; b2; b3]) (Z.shiftl delta 32).
Proof.
  intros Ud H0 H1 H2 H3.
  rewrite <- (patch_sum delta Ud).
  rewrite !crc_poly_cons, !crc_poly_nil.
  rewrite (crc_poly_step_patch R _ b0 c0 H0).
  set (S0 := crc_poly_step R b0).
  assert (A1 : crc_poly_step (Z.lxor S0 (Z.shiftl (reverse32 (patch_byte delta 0)) 8)) c1
               = Z.lxor (Z.lxor (crc_poly_step S0 b1)
                                (Z.shiftl (reverse32 (patch_byte delta 0)) 16))
                        (Z.shiftl (reverse32 (patch_byte delta 1)) 8)).
  { rewrite (crc_poly_step_patch _ _ b1 c1 H1). f_equal.
    unfold crc_poly_step.
    rewrite (Z.lxor_comm S0), Z.lxor_assoc, Z.shiftl_lxor, Z.shiftl_shiftl by lia.
    rewrite Z.lxor_comm. reflexivity. }
  rewrite A1. clear A1. set (S1 := crc_poly_step S0 b1).
  set (E0 := reverse32 (patch_byte delta 0)).
  set (E1 := reverse32 (patch_byte delta 1)).
  set (E2 := reverse32 (patch_byte delta 2)).
  set (E3 := reverse32 (patch_byte delta 3)).
  assert (A2 : forall T D, crc_poly_step (Z.lxor T D) b2
                           = Z.lxor (crc_poly_step T b2) (Z.shiftl D 8)).
  { intros T D. unfold crc_poly_step.
    rewrite (Z.lxor_comm T D), Z.lxor_assoc, Z.shiftl_lxor.
    apply Z.lxor_comm. }
  assert (A3 : forall T D, crc_poly_step (Z.lxor T D) b3
                           = Z.lxor (crc_poly_step T b3) (Z.shiftl D 8)).
  { intros T D. unfold crc_poly_step.
    rewrite (Z.lxor_comm T D), Z.lxor_assoc, Z.shiftl_lxor.
    apply Z.lxor_comm. }
  rewrite (crc_poly_step_patch _ _ b2 c2 H2). fold E2.
  rewrite !A2. set (S2 := crc_poly_step S1 b2).
  rewrite (crc_poly_step_patch _ _ b3 c3 H3). fold E3.
  rewrite !A3. set (S3 := crc_poly_step S2 b3).
  rewrite !Z.shiftl_shiftl by lia.
  change (8 + 8) with 16. change (16 + 8) with 24. change (24 + 8) with 32.
  rewrite !Z.lxor_assoc. reflexivity.
Qed.

(** ** [X] is invertible, hence [pow_mod 2 s] is not zero *)

Lemma clmul_interchange (a b c d : Z) :
  0 <= a -> 0 <= b -> 0 <= c -> 0 <= d ->
  clmul (clmul a b) (clmul c d) = clmul (clmul a c) (clmul b d).
Proof.
  intros Ha Hb Hc Hd.
  assert (0 <= clmul c d) by (apply clmul_nonneg; assumption).
  assert (0 <= clmul b d) by (apply clmul_nonneg; assumption).
  rewrite (clmul_assoc a b), (clmul_assoc a c) by assumption. f_equal.
  rewrite <- !clmul_assoc by assumption. f_equal.
  apply clmul_comm; assumption.
Qed.

Lemma X_invertible : pcong (clmul 2 0x82608EDB) 1.
Proof.
  exists 1. split; [lia|]. reflexivity.
Qed.

Lemma clpow_2_invertible (n : nat) :
  exists u, 0 <= u /\ pcong (clmul (clpow 2 n) u) 1.
Proof.
  induction n as [|n [u [Hu Cu]]].
  - exists 1. split; [lia|]. apply pcong_refl.
  - exists (clmul 0x82608EDB u). split; [apply clmul_nonneg; lia|].
    cbn [clpow]. rewrite clmul_interchange; try lia.
    2:{ apply clpow_nonneg. lia. }
    apply (pcong_clmul (clmul 2 0x82608EDB) 1 (clmul (clpow 2 n) u) 1);
      try lia; [|exact X_invertible|exact Cu].
    apply clmul_nonneg, clpow_nonneg. lia.
Qed.

Lemma pcong_0_1_absurd : ~ pcong 0 1.
Proof.
  intros H. apply pcong_u32_eq in H; [discriminate| |]; unfold u32; lia.
Qed.

Lemma pow_mod_2_nonzero (y p : Z) :
  0 <= y -> pow_mod 2 y = Ok p -> 0 < p < 2 ^ 32.
Proof.
  intros Hy E.
  destruct (pow_mod_2_spec y Hy) as [p' [E' [Up Cp]]].
  rewrite E in E'. injection E' as <-.
  destruct (Z.eq_dec p 0) as [->|Np]; [|unfold u32 in Up; lia].
  exfalso. apply pcong_0_1_absurd.
  rewrite <- (Z2Nat.id y Hy), <- clpow_2 in Cp.
  destruct (clpow_2_invertible (Z.to_nat y)) as [u [Hu Cu]].
  eapply pcong_trans; [|exact Cu].
  rewrite <- (clmul_0_l u). apply pcong_clmul_l; assumption.
Qed.

(** The three arithmetic steps of the forger: the computed [delta],
    moved up by [s] degrees, is the wanted change of the register. *)
Lemma forge_delta (s d : Z) :
  0 <= s -> u32 d ->
  exists p r delta,
    pow_mod 2 s = Ok p /\ reciprocal_mod p = Ok r /\
    multiply_mod r d = Ok delta /\
    u32 delta /\ pcong (Z.shiftl delta s) d.
Proof.
  intros Hs Ud.
  destruct (pow_mod_2_spec s Hs) as [p [Ep [Up Cp]]].
  pose proof (pow_mod_2_nonzero s p Hs Ep) as Pp.
  destruct (reciprocal_mod_spec p Pp) as [r [Er [Ur Cr]]].
  assert (Hr : 0 <= r) by (unfold u32 in Ur; lia).
  assert (Hd : 0 <= d) by (unfold u32 in Ud; lia).
  destruct (multiply_mod_spec r d Hr Hd) as [delta [Em [Hm [Cm Um]]]].
  exists p, r, delta.
  split; [exact Ep|]. split; [exact Er|]. split; [exact Em|].
  split; [apply Um; exact Ur|].
  rewrite <- clmul_pow2_r by exact Hs.
  eapply pcong_trans.
  - apply (pcong_clmul delta (clmul r d) (Z.shiftl 1 s) p);
      [| |lia| exact Cm | apply pcong_sym; exact Cp].
    + apply clmul_nonneg. exact Hr.
    + apply Z.shiftl_nonneg. lia.
  - rewrite (clmul_comm r d), clmul_assoc by lia.
    rewrite <- (clmul_1_r d) at 2.
    apply pcong_clmul_r; try lia; [apply clmul_nonneg; lia|exact Cr].
Qed.

(** ** The forged file has the wanted digest *)

Lemma reverse32_mask : reverse32 0xFFFFFFFF = 0xFFFFFFFF.
Proof. reflexivity. Qed.

(** What [get_crc32] returns, in terms of the register. *)
Lemma digest_register (l : list byte) :
  reverse32 (zlib_crc32 l 0) =
  Z.lxor (reverse32 (fold_left crc32_byte_step l 0xFFFFFFFF)) 0xFFFFFFFF.
Proof.
  rewrite zlib_crc32_fold.
  change (Z.lxor (Z.land 0 0xFFFFFFFF) 0xFFFFFFFF) with 0xFFFFFFFF.
  rewrite reverse32_lxor, reverse32_mask. reflexivity.
Qed.

Lemma register_poly (l : list byte) :
  u32 (reverse32 (fold_left crc32_byte_step l 0xFFFFFFFF)) /\
  pcong (reverse32 (fold_left crc32_byte_step l 0xFFFFFFFF))
        (crc_poly 0xFFFFFFFF l).
Proof.
  split; [apply reverse32_u32|].
  rewrite <- reverse32_mask at 2.
  apply reverse32_crc_fold. apply u32_mask.
Qed.

Lemma crc_poly_patched (R delta : Z) (pre post : list byte)
    (b0 b1 b2 b3 c0 c1 c2 c3 : byte) :
  u32 delta ->
  Z_of_byte c0 = Z.lxor (Z_of_byte b0) (patch_byte delta 0) ->
  Z_of_byte c1 = Z.lxor (Z_of_byte b1) (patch_byte delta 1) ->
  Z_of_byte c2 = Z.lxor (Z_of_byte b2) (patch_byte delta 2) ->
  Z_of_byte c3 = Z.lxor (Z_of_byte b3) (patch_byte delta 3) ->
  crc_poly R (pre ++ [c0; c1; c2; c3] ++ post) =
  Z.lxor (crc_poly R (pre ++ [b0; b1; b2; b3] ++ post))
         (Z.shiftl delta (8 * (4 + Z.of_nat (length post)))).
Proof.
  intros Ud H0 H1 H2 H3.
  rewrite !crc_poly_app.
  rewrite (crc_poly_patch4 _ delta b0 b1 b2 b3 c0 c1 c2 c3 Ud H0 H1 H2 H3).
  rewrite crc_poly_lxor, Z.shiftl_shiftl by lia.
  do 2 f_equal. lia.
Qed.

Lemma forged_digest (pre post : list byte) (b0 b1 b2 b3 c0 c1 c2 c3 : byte)
    (newcrc delta : Z) :
  u32 newcrc -> u32 delta ->
  pcong (Z.shiftl delta (8 * (4 + Z.of_nat (length post))))
        (Z.lxor (reverse32 (zlib_crc32 (pre ++ [b0; b1; b2; b3] ++ post) 0))
                newcrc) ->
  Z_of_byte c0 = Z.lxor (Z_of_byte b0) (patch_byte delta 0) ->
  Z_of_byte c1 = Z.lxor (Z_of_byte b1) (patch_byte delta 1) ->
  Z_of_byte c2 = Z.lxor (Z_of_byte b2) (patch_byte delta 2) ->
  Z_of_byte c3 = Z.lxor (Z_of_byte b3) (patch_byte delta 3) ->
  reverse32 (zlib_crc32 (pre ++ [c0; c1; c2; c3] ++ post) 0) = newcrc.
Proof.
  intros Un Ud Cd H0 H1 H2 H3.
  rewrite digest_register in Cd. rewrite digest_register.
  set (old := pre ++ [b0; b1; b2; b3] ++ post) in *.
  set (new := pre ++ [c0; c1; c2; c3] ++ post).
  destruct (register_poly old) as [Uo Co].
  destruct (register_poly new) as [Uw Cw].
  set (A := reverse32 (fold_left crc32_byte_step old 0xFFFFFFFF)) in *.
  set (A' := reverse32 (fold_left crc32_byte_step new 0xFFFFFFFF)) in *.
  assert (E : A' = Z.lxor 0xFFFFFFFF newcrc).
  { apply pcong_u32_eq; [exact Uw| |].
    { apply lxor_bounded; [lia|apply u32_mask|exact Un]. }
    eapply pcong_trans; [exact Cw|].
    subst new.
    rewrite (crc_poly_patched _ delta pre post b0 b1 b2 b3 c0 c1 c2 c3
               Ud H0 H1 H2 H3).
    fold old.
    replace (Z.lxor 0xFFFFFFFF newcrc)
      with (Z.lxor A (Z.lxor (Z.lxor A 0xFFFFFFFF) newcrc)).
    - apply pcong_lxor; [apply pcong_sym; exact Co|exact Cd].
    - rewrite <- !Z.lxor_assoc, Z.lxor_nilpotent, Z.lxor_0_l. reflexivity. }
  rewrite E, (Z.lxor_comm 0xFFFFFFFF), lxor_lxor_cancel. reflexivity.
Qed.

(** ** Running the commands *)

Lemma io_bind_eq {A B : Type} (m : io A) (f : A -> io B) (s : state) :
  (m ≫= f) s =
  match m s with
  | (Ok a, s') => f a s'
  | (Raise e, s') => (Raise e, s')
  | (OutOfFuel, s') => (OutOfFuel, s')
  end.
Proof. reflexivity. Qed.

Lemma take_nil_inv {A : Type} (n : nat) (l : list A) :
  (0 < n)%nat -> take n l = [] -> l = [].
Proof.
  intros Hn E. destruct l as [|a l]; [reflexivity|].
  destruct n; [lia|discriminate].
Qed.

Lemma get_crc32_loop_spec (fuel : nat) :
  forall (crc : Z) (s : state),
    u32 crc ->
    0 <= position s <= Z.of_nat (length (content s)) ->
    (length (content s) - Z.to_nat (position s) <= fuel)%nat ->
    get_crc32_loop fuel crc s =
    (Ok (reverse32 (zlib_crc32 (drop (Z.to_nat (position s)) (content s)) crc)),
     mkState (content s) (Z.of_nat (length (content s))) (stdout s)).
Proof.
  induction fuel as [|fuel IH]; intros crc [bytes pos out] Uc Hp Hf;
    cbn [content position stdout] in *.
  all: set (rest := drop (Z.to_nat pos) bytes).
  all: assert (Hrest : length rest = (length bytes - Z.to_nat pos)%nat)
         by (subst rest; apply length_drop).
  all: set (buffer := take (Z.to_nat (128 * 1024)) rest).
  all: assert (Hsplit : rest = buffer ++ drop (length buffer) rest).
  all: try (subst buffer; rewrite length_take;
            destruct (Nat.le_gt_cases (length rest) (Z.to_nat (128 * 1024)));
            [ rewrite Nat.min_r by lia; rewrite take_ge, drop_ge, app_nil_r by lia;
              reflexivity
            | rewrite Nat.min_l by lia; symmetry; apply take_drop ]).
  - assert (rest = []) as Hnil by (apply nil_length_inv; lia).
    cbn [get_crc32_loop]. rewrite io_bind_eq. unfold raf_read.
    cbn [content position stdout]. fold rest. fold buffer.
    assert (buffer = []) as -> by (subst buffer; rewrite Hnil; apply take_nil).
    cbn [length Z.of_nat Z.eqb]. unfold mret, io_ret.
    rewrite Hnil, zlib_crc32_nil by exact Uc.
    f_equal. f_equal. lia.
  - cbn [get_crc32_loop]. rewrite io_bind_eq. unfold raf_read.
    cbn [content position stdout]. fold rest. fold buffer.
    destruct (Z.eqb_spec (Z.of_nat (length buffer)) 0) as [Z0|N0].
    + assert (buffer = []) as Eb by (apply nil_length_inv; lia).
      assert (rest = []) as Hnil.
      { apply (take_nil_inv (Z.to_nat (128 * 1024))); [lia|exact Eb]. }
      rewrite Eb. unfold mret, io_ret.
      rewrite Hnil, zlib_crc32_nil by exact Uc.
      rewrite Hnil in Hrest. cbn [length] in *.
      f_equal. f_equal. lia.
    + assert (Hlen : (length buffer <= length rest)%nat).
      { subst buffer. rewrite length_take. lia. }
      rewrite IH; cbn [content position stdout].
      * f_equal. f_equal.
        replace (Z.to_nat (pos + Z.of_nat (length buffer)))
          with (Z.to_nat pos + length buffer)%nat by lia.
        rewrite <- drop_drop. fold rest.
        rewrite <- zlib_crc32_app, <- Hsplit. reflexivity.
      * apply zlib_crc32_u32.
      * lia.
      * lia.
Qed.

Lemma get_crc32_run (s : state) :
  get_crc32 s =
  (Ok (reverse32 (zlib_crc32 (content s) 0)),
   mkState (content s) (Z.of_nat (length (content s))) (stdout s)).
Proof.
  unfold get_crc32. rewrite io_bind_eq. unfold raf_seek.
  change (0 <? 0) with false. cbv iota.
  rewrite get_crc32_loop_spec; cbn [content position stdout].
  - reflexivity.
  - unfold u32. lia.
  - lia.
  - lia.
Qed.

Lemma when_print_run (b : bool) (line : string) (s : state) :
  when b (print line) s =
  (Ok tt, mkState (content s) (position s)
            (if b then stdout s ++ [line] else stdout s)).
Proof. destruct s, b; reflexivity. Qed.

Lemma multiply_mod_loop_no_raise (fuel : nat) (x y z : Z) (e : exn) :
  multiply_mod_loop fuel x y z <> Raise e.
Proof.
  revert x y z. induction fuel as [|fuel IH]; intros x y z;
    cbn [multiply_mod_loop]; destruct (y =? 0); try discriminate.
  apply IH.
Qed.

Lemma multiply_mod_no_raise (x y : Z) (e : exn) : multiply_mod x y <> Raise e.
Proof. apply multiply_mod_loop_no_raise. Qed.

Lemma take4_drop (bytes : list byte) (n : nat) :
  (n + 4 <= length bytes)%nat ->
  exists b0 b1 b2 b3, take 4 (drop n bytes) = [b0; b1; b2; b3].
Proof.
  intros Hn.
  assert (Hl : length (take 4 (drop n bytes)) = 4%nat).
  { rewrite length_take, length_drop. lia. }
  destruct (take 4 (drop n bytes)) as [|b0 [|b1 [|b2 [|b3 [|b4 l]]]]];
    try discriminate.
  exists b0, b1, b2, b3. reflexivity.
Qed.

Lemma raf_seek_end_run (s : state) :
  raf_seek_end s =
  (Ok tt, mkState (content s) (Z.of_nat (length (content s))) (stdout s)).
Proof. reflexivity. Qed.

Lemma raf_tell_run (s : state) : raf_tell s = (Ok (position s), s).
Proof. reflexivity. Qed.

Lemma raf_seek_run (offset : Z) (s : state) :
  raf_seek offset s =
  if offset <? 0 then (Raise (seek_error offset), s)
  else (Ok tt, mkState (content s) offset (stdout s)).
Proof. reflexivity. Qed.

Lemma raf_read_run (n : Z) (s : state) :
  raf_read n s =
  (Ok (take (Z.to_nat n) (drop (Z.to_nat (position s)) (content s))),
   mkState (content s)
     (position s + Z.of_nat
        (length (take (Z.to_nat n) (drop (Z.to_nat (position s)) (content s)))))
     (stdout s)).
Proof. reflexivity. Qed.

Lemma raf_write_run (buffer : list byte) (s : state) :
  raf_write buffer s =
  (Ok tt,
   mkState (take (Z.to_nat (position s)) (content s)
            ++ replicate (Z.to_nat (position s) - length (content s)) x00
            ++ buffer
            ++ drop (Z.to_nat (position s) + length buffer) (content s))
     (position s + Z.of_nat (length buffer)) (stdout s)).
Proof. reflexivity. Qed.

Lemma lift_run {A : Type} (r : result A) (s : state) : lift r s = (r, s).
Proof. reflexivity. Qed.

(** One step of a run: the first command of a sequence is known. *)
Ltac io_step :=
  cbv beta iota;
  rewrite io_bind_eq;
  first [ rewrite get_crc32_run | rewrite when_print_run
        | rewrite raf_seek_end_run | rewrite raf_tell_run
        | rewrite raf_seek_run | rewrite raf_read_run
        | rewrite raf_write_run | rewrite lift_run ];
  cbn [content position stdout].

(** The run of the forger once the range check has passed. *)
Lemma modify_raf_outcome (bytes : list byte) (out : list string)
    (offset newcrc : Z) (printstatus : bool) :
  offset + 4 <= Z.of_nat (length bytes) ->
  let run := modify_raf_crc32 offset newcrc printstatus (mkState bytes 0 out) in
  let crc := reverse32 (zlib_crc32 bytes 0) in
  exists p r,
    pow_mod 2 ((Z.of_nat (length bytes) - offset) * 8) = Ok p /\
    reciprocal_mod p = Ok r /\
    match multiply_mod r (Z.lxor crc newcrc) with
    | Ok delta =>
        if offset <? 0 then
          fst run = Raise (seek_error offset) /\
          content (snd run) = bytes
        else
          exists patched,
            fold_left (patch_step delta) (seq 0 4)
              (Ok (take 4 (drop (Z.to_nat offset) bytes))) = Ok patched /\
            length patched = 4%nat /\
            let bytes' := take (Z.to_nat offset) bytes ++ patched
                          ++ drop (Z.to_nat offset + 4) bytes in
            content (snd run) = bytes' /\
            fst run =
              if reverse32 (zlib_crc32 bytes' 0) =? newcrc then Ok tt
              else Raise (AssertionError "Failed to update CRC-32 to desired value")
    | Raise e => False
    | OutOfFuel => fst run = OutOfFuel /\ content (snd run) = bytes
    end.
Proof.
  intros Hrange run crc.
  set (len := Z.of_nat (length bytes)) in *.
  destruct (pow_mod_2_spec ((len - offset) * 8) ltac:(lia)) as [p [Ep [Up Cp]]].
  pose proof (pow_mod_2_nonzero ((len - offset) * 8) p ltac:(lia) Ep) as Pp.
  destruct (reciprocal_mod_spec p Pp) as [r [Er [Ur Cr]]].
  exists p, r. split; [exact Ep|]. split; [exact Er|].
  assert (Hrun : run =
    match multiply_mod r (Z.lxor crc newcrc) with
    | Ok delta =>
        (raf_seek offset;;
         bytes4 ← raf_read 4;
         if negb (Z.of_nat (length bytes4) =? 4)
         then raise (IOError "Cannot read 4 bytes at offset")
         else
           bytes4 ← lift (fold_left (patch_step delta) (seq 0 4) (Ok bytes4));
           raf_seek offset;;
           raf_write bytes4;;
           when printstatus (print "Computed and wrote patch");;
           crc' ← get_crc32;
           if negb (crc' =? newcrc)
           then raise (AssertionError "Failed to update CRC-32 to desired value")
           else when printstatus (print "New CRC-32 successfully verified"))
          (mkState bytes len
             (if printstatus
              then out ++ ["Original CRC-32: " +:+ format_08X (reverse32 crc)]
              else out))
    | Raise e =>
        (Raise e, mkState bytes len
             (if printstatus
              then out ++ ["Original CRC-32: " +:+ format_08X (reverse32 crc)]
              else out))
    | OutOfFuel =>
        (OutOfFuel, mkState bytes len
             (if printstatus
              then out ++ ["Original CRC-32: " +:+ format_08X (reverse32 crc)]
              else out))
    end).
  { subst run. unfold modify_raf_crc32.
    io_step. io_step. fold len.
    destruct (Z.gtb_spec (offset + 4) len) as [|_]; [lia|].
    io_step. fold crc. io_step. io_step. rewrite Ep.
    io_step. rewrite Er. io_step.
    destruct (multiply_mod r (Z.lxor crc newcrc)); reflexivity. }
  rewrite Hrun. clear Hrun.
  destruct (multiply_mod r (Z.lxor crc newcrc)) as [delta|e|] eqn:Em.
  - set (out1 := if printstatus then _ else out).
    io_step.
    destruct (Z.ltb_spec offset 0) as [Hneg|Hpos]; [split; reflexivity|].
    io_step.
    destruct (take4_drop bytes (Z.to_nat offset) ltac:(lia))
      as [b0 [b1 [b2 [b3 E4]]]].
    change (Z.to_nat 4) with 4%nat. rewrite E4.
    destruct (patch_bytes4 delta b0 b1 b2 b3)
      as [c0 [c1 [c2 [c3 [Ef _]]]]].
    exists [c0; c1; c2; c3].
    split; [exact Ef|]. split; [reflexivity|].
    change (negb (Z.of_nat (length [b0; b1; b2; b3]) =? 4)) with false.
    io_step. rewrite Ef.
    io_step. destruct (Z.ltb_spec offset 0) as [|_]; [lia|].
    io_step. io_step. io_step.
    replace (Z.to_nat offset - length bytes)%nat with 0%nat by lia.
    cbn [replicate app length].
    set (bytes' := take (Z.to_nat offset) bytes ++
                   c0 :: c1 :: c2 :: c3 :: drop (Z.to_nat offset + 4) bytes).
    destruct (Z.eqb_spec (reverse32 (zlib_crc32 bytes' 0)) newcrc) as [E|N];
      cbn [negb].
    + rewrite when_print_run. split; reflexivity.
    + split; reflexivity.
  - exact (multiply_mod_no_raise _ _ _ Em).
  - split; reflexivity.
Qed.

(** ** The forger: range check, success, frame *)

Lemma modify_raf_range_error (bytes : list byte) (out : list string)
    (offset newcrc : Z) (printstatus : bool) :
  offset + 4 > Z.of_nat (length bytes) ->
  modify_raf_crc32 offset newcrc printstatus (mkState bytes 0 out) =
  (Raise (ValueError "Byte offset plus 4 exceeds file length"),
   mkState bytes (Z.of_nat (length bytes)) out).
Proof.
  intros Hr. unfold modify_raf_crc32. io_step. io_step.
  destruct (Z.gtb_spec (offset + 4) (Z.of_nat (length bytes))); [|lia].
  reflexivity.
Qed.

(** The file cut at the window of the patch. *)
Lemma window_split (bytes : list byte) (n : nat) (b0 b1 b2 b3 : byte) :
  take 4 (drop n bytes) = [b0; b1; b2; b3] ->
  bytes = take n bytes ++ [b0; b1; b2; b3] ++ drop (n + 4) bytes.
Proof.
  intros E. rewrite <- E, <- drop_drop, take_drop, take_drop. reflexivity.
Qed.

(** What a successful run does: the outcome, the new content, its digest. *)
Lemma modify_raf_success (bytes : list byte) (out : list string)
    (offset newcrc : Z) (printstatus : bool) :
  0 <= offset -> offset + 4 <= Z.of_nat (length bytes) -> u32 newcrc ->
  let run := modify_raf_crc32 offset newcrc printstatus (mkState bytes 0 out) in
  exists (delta : Z) (b0 b1 b2 b3 c0 c1 c2 c3 : byte),
    fst run = Ok tt /\
    bytes = take (Z.to_nat offset) bytes ++ [b0; b1; b2; b3]
            ++ drop (Z.to_nat offset + 4) bytes /\
    content (snd run) = take (Z.to_nat offset) bytes ++ [c0; c1; c2; c3]
                        ++ drop (Z.to_nat offset + 4) bytes /\
    (exists p r,
        pow_mod 2 ((Z.of_nat (length bytes) - offset) * 8) = Ok p /\
        reciprocal_mod p = Ok r /\
        multiply_mod r (Z.lxor (reverse32 (zlib_crc32 bytes 0)) newcrc)
        = Ok delta) /\
    Z_of_byte c0 = Z.lxor (Z_of_byte b0) (patch_byte delta 0) /\
    Z_of_byte c1 = Z.lxor (Z_of_byte b1) (patch_byte delta 1) /\
    Z_of_byte c2 = Z.lxor (Z_of_byte b2) (patch_byte delta 2) /\
    Z_of_byte c3 = Z.lxor (Z_of_byte b3) (patch_byte delta 3) /\
    reverse32 (zlib_crc32 (content (snd run)) 0) = newcrc.
Proof.
  intros Hoff Hrange Un run.
  set (len := Z.of_nat (length bytes)) in *.
  set (crc := reverse32 (zlib_crc32 bytes 0)).
  assert (Ud : u32 (Z.lxor crc newcrc)).
  { apply lxor_bounded; [lia|apply reverse32_u32|exact Un]. }
  destruct (forge_delta ((len - offset) * 8) (Z.lxor crc newcrc) ltac:(lia) Ud)
    as [p [r [delta [Ep [Er [Em [Udl Cd]]]]]]].
  destruct (modify_raf_outcome bytes out offset newcrc printstatus Hrange)
    as [p' [r' [Ep' [Er' H]]]].
  fold len in Ep'. rewrite Ep in Ep'. injection Ep' as <-.
  rewrite Er in Er'. injection Er' as <-.
  fold crc in H. rewrite Em in H.
  destruct (Z.ltb_spec offset 0) as [|_]; [lia|].
  destruct H as [patched [Ef [_ [Hc Hfst]]]].
  fold run in Hc, Hfst.
  destruct (take4_drop bytes (Z.to_nat offset) ltac:(lia))
    as [b0 [b1 [b2 [b3 E4]]]].
  destruct (patch_bytes4 delta b0 b1 b2 b3)
    as [c0 [c1 [c2 [c3 [Ef' [H0 [H1 [H2 H3]]]]]]]].
  rewrite E4, Ef' in Ef. injection Ef as <-.
  pose proof (window_split bytes _ b0 b1 b2 b3 E4) as Hsplit.
  assert (Hd : reverse32 (zlib_crc32 (content (snd run)) 0) = newcrc).
  { rewrite Hc.
    apply (forged_digest _ _ b0 b1 b2 b3 c0 c1 c2 c3 newcrc delta);
      try assumption.
    rewrite <- Hsplit. fold crc.
    replace (8 * (4 + Z.of_nat (length (drop (Z.to_nat offset + 4) bytes))))
      with ((len - offset) * 8); [exact Cd|].
    rewrite length_drop. subst len. lia. }
  exists delta, b0, b1, b2, b3, c0, c1, c2, c3.
  split.
  { rewrite Hfst. rewrite <- Hc, Hd, Z.eqb_refl. reflexivity. }
  split; [exact Hsplit|]. split; [exact Hc|].
  split; [exists p, r; auto|]. auto.
Qed.

(** After the range check no outcome is the range error or the short
    read. *)
Lemma modify_raf_outcomes (bytes : list byte) (out : list string)
    (offset newcrc : Z) (printstatus : bool) :
  offset + 4 <= Z.of_nat (length bytes) ->
  let run := modify_raf_crc32 offset newcrc printstatus (mkState bytes 0 out) in
  fst run = Ok tt \/
  fst run = OutOfFuel \/
  fst run = Raise (seek_error offset) \/
  fst run = Raise (AssertionError "Failed to update CRC-32 to desired value").
Proof.
  intros Hrange run.
  destruct (modify_raf_outcome bytes out offset newcrc printstatus Hrange)
    as [p [r [_ [_ H]]]].
  fold run in H.
  destruct (multiply_mod r _) as [delta|e|]; [|contradiction|tauto].
  destruct (offset <? 0); [tauto|].
  destruct H as [patched [_ [_ [_ Hfst]]]].
  rewrite Hfst. destruct (_ =? newcrc); tauto.
Qed.

(** ** The file system around the forger *)

Lemma modify_file_crc32_run (w : world) (path : string) (bytes : list byte)
    (offset newcrc : Z) (printstatus : bool) :
  files w !! path = Some bytes ->
  let run := modify_raf_crc32 offset newcrc printstatus
               (mkState bytes 0 (console w)) in
  modify_file_crc32 path offset newcrc printstatus w =
  (fst run, mkWorld (<[path := content (snd run)]> (files w)) (stdout (snd run))).
Proof.
  intros Hl run. unfold modify_file_crc32. rewrite Hl.
  fold run. destruct run as [res s]. reflexivity.
Qed.

Lemma files_after_run (w : world) (path : string) (new : list byte)
    (out : list string) :
  files (mkWorld (<[path := new]> (files w)) out) !! path = Some new.
Proof. cbn [files]. apply lookup_insert_eq. Qed.

Lemma other_files_after_run (w : world) (path path' : string)
    (new : list byte) (out : list string) :
  path' <> path ->
  files (mkWorld (<[path := new]> (files w)) out) !! path' = files w !! path'.
Proof. intros Hne. cbn [files]. apply lookup_insert_ne. congruence. Qed.

(** ** The check of the new CRC-32 value in [main] *)

Lemma hex_digit_facts (c : ascii) :
  is_hex_digit c = true ->
  is_space c = false /\ Ascii.eqb c "_" = false /\
  Ascii.eqb c "+" = false /\ Ascii.eqb c "-" = false /\
  Ascii.eqb c "x" = false /\ Ascii.eqb c "X" = false /\
  exists d, digit_value c = Some d /\ 0 <= d < 16.
Proof.
  destruct c as [[|] [|] [|] [|] [|] [|] [|] [|]];
    intros H; vm_compute in H; try discriminate H;
    (repeat (split; [reflexivity|]));
    eexists; (split; [reflexivity|]);
    vm_compute; (split; [intros E; discriminate E|reflexivity]).
Qed.

Lemma scan_hex_digits (s : string) :
  forall (acc : Z) (c0 : ascii),
    all_hex_digits s = true -> is_hex_digit c0 = true ->
    scan_digits 16 s acc (Some c0) = Some (hex_number acc s, EmptyString).
Proof.
  induction s as [|c s IH]; intros acc c0 Hs Hc0.
  - destruct (hex_digit_facts c0 Hc0) as (_ & Hu & _).
    cbn [scan_digits digits_end hex_number]. rewrite Hu. reflexivity.
  - cbn [all_hex_digits] in Hs. apply andb_true_iff in Hs as [Hc Hs].
    destruct (hex_digit_facts c Hc) as (_ & Hu & _ & _ & _ & _ & d & Hd & Hr).
    cbn [scan_digits hex_number]. rewrite Hu, Hd.
    destruct (Z.ltb_spec d 16); [|lia].
    apply IH; assumption.
Qed.

Lemma hex_number_bounded (s : string) :
  forall acc : Z,
    0 <= acc -> all_hex_digits s = true ->
    0 <= hex_number acc s < (acc + 1) * 16 ^ Z.of_nat (String.length s).
Proof.
  induction s as [|c s IH]; intros acc Hacc Hs.
  - cbn [hex_number String.length]. change (16 ^ Z.of_nat 0) with 1. lia.
  - cbn [all_hex_digits] in Hs. apply andb_true_iff in Hs as [Hc Hs].
    destruct (hex_digit_facts c Hc) as (_ & _ & _ & _ & _ & _ & d & Hd & Hr).
    cbn [hex_number String.length]. rewrite Hd.
    destruct (IH (acc * 16 + d) ltac:(lia) Hs) as [Lo Hi].
    split; [exact Lo|].
    rewrite Nat2Z.inj_succ, Z.pow_succ_r by lia.
    assert (0 < 16 ^ Z.of_nat (String.length s))
      by (apply Z.pow_pos_nonneg; lia).
    nia.
Qed.

Lemma py_int_hex_digits (s : string) :
  s <> EmptyString -> all_hex_digits s = true ->
  py_int s 16 = Some (hex_number 0 s).
Proof.
  intros Hne Hs. destruct s as [|c s]; [contradiction|].
  pose proof Hs as Hall.
  cbn [all_hex_digits] in Hs. apply andb_true_iff in Hs as [Hc Hs].
  destruct (hex_digit_facts c Hc)
    as (Hsp & Hu & Hplus & Hminus & _ & _ & d & Hd & Hr).
  unfold py_int. cbn [skip_spaces]. rewrite Hsp.
  unfold split_sign. rewrite Hplus, Hminus.
  assert (Hp : skip_prefix 16 (String c s) = String c s).
  { destruct s as [|x s']; [reflexivity|].
    cbn [all_hex_digits] in Hs. apply andb_true_iff in Hs as [Hx _].
    destruct (hex_digit_facts x Hx) as (_ & _ & _ & _ & Hlx & Hux & _).
    cbn [skip_prefix]. rewrite Hlx, Hux, andb_false_r. reflexivity. }
  rewrite Hp. cbn [scan_digits]. rewrite Hu, Hd.
  destruct (Z.ltb_spec d 16); [|lia].
  rewrite (scan_hex_digits s _ c Hs Hc).
  change (negb (16 =? 16)) with false. cbn [andb].
  cbn [skip_spaces hex_number]. rewrite Hd, Z.mul_1_l. reflexivity.
Qed.

(** Eight hexadecimal digits are accepted, and their value is
    bit-reversed. *)
Lemma parse_new_crc_hex_digits (arg : string) :
  String.length arg = 8%nat -> all_hex_digits arg = true ->
  parse_new_crc arg = inr (reverse32 (hex_number 0 arg)).
Proof.
  intros Hlen Hs. unfold parse_new_crc.
  rewrite Hlen. change (negb (Z.of_nat 8 =? 8)) with false.
  assert (Hne : arg <> EmptyString) by (intros ->; discriminate Hlen).
  assert (Hsign : starts_with_sign arg = false).
  { destruct arg as [|c s]; [reflexivity|].
    cbn [all_hex_digits] in Hs. apply andb_true_iff in Hs as [Hc _].
    destruct (hex_digit_facts c Hc) as (_ & _ & Hplus & Hminus & _).
    cbn [starts_with_sign]. rewrite Hplus, Hminus. reflexivity. }
  rewrite Hsign, (py_int_hex_digits arg Hne Hs). cbn [orb].
  pose proof (hex_number_bounded arg 0 ltac:(lia) Hs) as Hb.
  rewrite Hlen in Hb. change ((0 + 1) * 16 ^ Z.of_nat 8) with (2 ^ 32) in Hb.
  change MASK with 0xFFFFFFFF.
  rewrite land_mask_u32 by exact Hb.
  rewrite Z.eqb_refl. reflexivity.
Qed.

Lemma modify_raf_ok_offset (bytes : list byte) (out : list string)
    (offset newcrc : Z) (printstatus : bool) :
  offset + 4 <= Z.of_nat (length bytes) ->
  fst (modify_raf_crc32 offset newcrc printstatus (mkState bytes 0 out)) = Ok tt ->
  0 <= offset.
Proof.
  intros Hrange Hok.
  destruct (modify_raf_outcome bytes out offset newcrc printstatus Hrange)
    as [p [r [_ [_ H]]]].
  destruct (multiply_mod r _) as [delta|e|]; [|contradiction|].
  - destruct (Z.ltb_spec offset 0) as [Hneg|]; [|assumption].
    destruct H as [H _]. rewrite Hok in H. discriminate.
  - destruct H as [H _]. rewrite Hok in H. discriminate.
Qed.

Lemma patch_byte_0 (i : Z) : patch_byte 0 i = 0.
Proof.
  unfold patch_byte. change (reverse32 0) with 0.
  rewrite Z.shiftr_0_l. reflexivity.
Qed.

Lemma multiply_mod_0_r (x : Z) : multiply_mod x 0 = Ok 0.
Proof. reflexivity. Qed.

(** ** The claims of the specification *)

(** C1 (round trip).  For every file, every offset with
    [offset + 4 <= length] and every 32-bit target [T]: if
    [modify_file_crc32 path offset (reverse32 T)] returns without raising,
    the whole-file CRC-32 of the patched file is [T], both as the digest
    primitive computes it and as [get_crc32] and [calculate_crc32]'s loop
    do; and for a non-negative offset the call does return, so its
    verification step never raises. *)
Theorem forge_round_trip (w : world) (path : string) (bytes : list byte)
    (offset T : Z) (printstatus : bool) :
  files w !! path = Some bytes ->
  offset + 4 <= Z.of_nat (length bytes) ->
  0 <= T < 2 ^ 32 ->
  let result := modify_file_crc32 path offset (reverse32 T) printstatus w in
  (0 <= offset -> fst result = Ok tt) /\
  (fst result = Ok tt ->
   exists bytes',
     files (snd result) !! path = Some bytes' /\
     crc32_iso_hdlc bytes' = T /\
     crc32_of_bytes bytes' = T /\
     fst (get_crc32 (mkState bytes' 0 [])) = Ok (reverse32 T)).
Proof.
  intros Hl Hrange HT result. subst result.
  rewrite (modify_file_crc32_run w path bytes _ _ _ Hl).
  cbn [fst snd].
  assert (Hs : 0 <= offset ->
               fst (modify_raf_crc32 offset (reverse32 T) printstatus
                      (mkState bytes 0 (console w))) = Ok tt /\
               reverse32 (zlib_crc32
                 (content (snd (modify_raf_crc32 offset (reverse32 T) printstatus
                                  (mkState bytes 0 (console w))))) 0)
               = reverse32 T).
  { intros Hoff.
    destruct (modify_raf_success bytes (console w) offset (reverse32 T)
                printstatus Hoff Hrange (reverse32_u32 T))
      as (delta & b0 & b1 & b2 & b3 & c0 & c1 & c2 & c3
          & Hok & _ & _ & _ & _ & _ & _ & _ & Hd).
    split; assumption. }
  split; [intros Hoff; apply Hs; exact Hoff|].
  intros Hok.
  pose proof (modify_raf_ok_offset _ _ _ _ _ Hrange Hok) as Hoff.
  destruct (Hs Hoff) as [_ Hd].
  eexists. split; [apply files_after_run|].
  apply reverse32_inj in Hd; [|apply zlib_crc32_u32|exact HT].
  split; [exact Hd|]. split.
  - rewrite crc32_of_bytes_zlib. exact Hd.
  - rewrite get_crc32_run. cbn [fst content]. rewrite Hd. reflexivity.
Qed.

Lemma forge_round_trip_witness :
  files sample_world !! "f" = Some sample_bytes /\
  fst (modify_file_crc32 "f" 2 (reverse32 0xDEADBEEF) false sample_world) = Ok tt /\
  exists bytes',
    files (snd (modify_file_crc32 "f" 2 (reverse32 0xDEADBEEF) false
                  sample_world)) !! "f" = Some bytes' /\
    crc32_iso_hdlc bytes' = 0xDEADBEEF /\
    crc32_of_bytes bytes' = 0xDEADBEEF /\
    fst (get_crc32 (mkState bytes' 0 [])) = Ok (reverse32 0xDEADBEEF).
Proof.
  pose proof (forge_round_trip sample_world "f" sample_bytes 2 0xDEADBEEF false
                eq_refl ltac:(simpl; lia) ltac:(lia)) as [Hok Hd].
  split; [reflexivity|]. split; [apply Hok; lia|].
  apply Hd, Hok. lia.
Defined.

(** C2, as amended (frame).  For every file, every valid offset and every
    32-bit target, [modify_file_crc32] completes, the file keeps its
    length, every byte outside [offset, offset+4) is identical to its
    pre-patch value, and the byte at [offset + i] is the old byte xor
    [(reverse32(delta) >> (i * 8)) & 0xFF], where [delta] is the number the
    code computes:
    [multiply_mod(reciprocal_mod(pow_mod(2, (length - offset) * 8)),
    crc ^ newcrc)] with [crc] the bit-reversed CRC-32 of the file as
    [get_crc32] returns it.  Such a byte of the patch may be zero, so at
    most those 4 bytes differ.  No other file changes. *)
Theorem forge_frame (w : world) (path : string) (bytes : list byte)
    (offset newcrc : Z) (printstatus : bool) :
  files w !! path = Some bytes ->
  0 <= offset -> offset + 4 <= Z.of_nat (length bytes) ->
  0 <= newcrc < 2 ^ 32 ->
  let result := modify_file_crc32 path offset newcrc printstatus w in
  fst result = Ok tt /\
  (forall path', path' <> path ->
                 files (snd result) !! path' = files w !! path') /\
  exists (bytes' : list byte) (p r delta : Z),
    pow_mod 2 ((Z.of_nat (length bytes) - offset) * 8) = Ok p /\
    reciprocal_mod p = Ok r /\
    multiply_mod r (Z.lxor (reverse32 (crc32_iso_hdlc bytes)) newcrc)
    = Ok delta /\
    files (snd result) !! path = Some bytes' /\
    length bytes' = length bytes /\
    (forall i : nat,
        (Z.of_nat i < offset \/ offset + 4 <= Z.of_nat i) ->
        bytes' !! i = bytes !! i) /\
    (forall (i : nat) (b : byte),
        (i < 4)%nat -> bytes !! (Z.to_nat offset + i)%nat = Some b ->
        exists c, bytes' !! (Z.to_nat offset + i)%nat = Some c /\
                  Z_of_byte c = Z.lxor (Z_of_byte b)
                                       (patch_byte delta (Z.of_nat i))).
Proof.
  intros Hl Hoff Hrange Hn result. subst result.
  rewrite (modify_file_crc32_run w path bytes _ _ _ Hl).
  cbn [fst snd].
  destruct (modify_raf_success bytes (console w) offset newcrc
              printstatus Hoff Hrange Hn)
    as (delta & b0 & b1 & b2 & b3 & c0 & c1 & c2 & c3
        & Hok & Hb & Hc & (p & r & Ep & Er & Em) & H0 & H1 & H2 & H3 & _).
  split; [exact Hok|].
  split; [intros path' Hne; apply other_files_after_run; exact Hne|].
  eexists. exists p, r, delta.
  split; [exact Ep|]. split; [exact Er|]. split; [exact Em|].
  split; [apply files_after_run|].
  set (n := Z.to_nat offset) in *.
  assert (Hn4 : (n + 4 <= length bytes)%nat) by lia.
  assert (Htake : length (take n bytes) = n) by (rewrite length_take; lia).
  rewrite Hc. split; [|split].
  - rewrite !length_app, length_take, length_drop. cbn [length]. lia.
  - intros i Hi.
    destruct (Nat.lt_ge_cases i n) as [Hlt|Hge].
    + rewrite lookup_app_l by lia. apply lookup_take_lt. exact Hlt.
    + assert (n + 4 <= i)%nat by lia.
      rewrite lookup_app_r by lia.
      rewrite lookup_app_r by (cbn [length]; lia).
      rewrite lookup_drop, Htake. cbn [length]. f_equal. lia.
  - intros i b Hi Hlk. rewrite Hb in Hlk.
    rewrite lookup_app_r in Hlk by lia. rewrite lookup_app_r by lia.
    rewrite Htake in *. replace (n + i - n)%nat with i in * by lia.
    destruct i as [|[|[|[|i]]]]; [| | | |lia];
      cbn in Hlk; injection Hlk as <-; eexists; (split; [reflexivity|]);
      assumption.
Qed.

Lemma forge_frame_witness :
  fst (modify_file_crc32 "f" 2 0x12345678 false sample_world) = Ok tt /\
  exists bytes' : list byte,
    files (snd (modify_file_crc32 "f" 2 0x12345678 false sample_world)) !! "f"
    = Some bytes' /\
    length bytes' = length sample_bytes /\
    forall i : nat,
      (Z.of_nat i < 2 \/ 2 + 4 <= Z.of_nat i) ->
      bytes' !! i = sample_bytes !! i.
Proof.
  pose proof (forge_frame sample_world "f" sample_bytes 2 0x12345678 false
                eq_refl ltac:(lia) ltac:(simpl; lia) ltac:(lia))
    as [Hok [_ [bytes' [p [r [delta [_ [_ [_ [Hl [Hlen [Hout _]]]]]]]]]]]].
  split; [exact Hok|]. exists bytes'. auto.
Defined.

(** C2, as stated, fails: forging the sample file to the checksum it
    already has completes and leaves the bytes at positions 2 to 5 as they
    were, so it is not true that exactly the 4 bytes of the window
    differ. *)
Lemma forge_may_change_no_byte :
  fst (modify_file_crc32 "f" 2 (reverse32 0x88AA689F) false sample_world) = Ok tt /\
  ~ (forall new : list byte,
        files (snd (modify_file_crc32 "f" 2 (reverse32 0x88AA689F) false
                      sample_world)) !! "f" = Some new ->
        forall i : nat, (2 <= i < 6)%nat <-> new !! i <> sample_bytes !! i).
Proof.
  split; [vm_compute; reflexivity|].
  intros H.
  assert (E : files (snd (modify_file_crc32 "f" 2 (reverse32 0x88AA689F) false
                            sample_world)) !! "f" = Some sample_bytes)
    by (vm_compute; reflexivity).
  destruct (H sample_bytes E 2%nat) as [Hd _].
  apply Hd; [lia|reflexivity].
Qed.

(** C3, as amended.  For every byte sequence the loop of [calculate_crc32]
    returns the canonical CRC-32/ISO-HDLC checksum (initial register
    [0xFFFFFFFF], generator [0xEDB88320], 8 shift-and-xor steps per byte,
    final xor [0xFFFFFFFF]), an unsigned 32-bit number; [calculate_crc32]
    is that digest of the UTF-8 encoding of its argument; in particular
    [calculate_crc32("george")] equals [0xD6B555A0]. *)
Theorem calculate_crc32_canonical (data : pystr) (byte_data : list byte) :
  crc32_of_bytes byte_data = crc32_iso_hdlc byte_data /\
  0 <= crc32_of_bytes byte_data < 2 ^ 32 /\
  calculate_crc32 data = (bs ← utf8_encode data; Ok (crc32_iso_hdlc bs)) /\
  calculate_crc32 (pystr_of_string "george") = Ok 0xD6B555A0.
Proof.
  split; [apply crc32_of_bytes_zlib|].
  split; [rewrite crc32_of_bytes_zlib; apply zlib_crc32_u32|].
  split; [|vm_compute; reflexivity].
  unfold calculate_crc32. destruct (utf8_encode data) as [bs|e|];
    cbn [mbind result_bind]; [|reflexivity..].
  rewrite crc32_of_bytes_zlib. reflexivity.
Qed.

(** C3, as stated, fails on its example: the digest of ["george"] is not
    [0x4C7F5E35]. *)
Lemma calculate_crc32_george :
  calculate_crc32 (pystr_of_string "george") <> Ok 0x4C7F5E35.
Proof. vm_compute. discriminate. Qed.

(** C4 (streaming).  Folding [zlib.crc32] over any partition of a byte
    sequence into successive chunks, starting from 0, gives the one-buffer
    CRC-32/ISO-HDLC digest of the whole sequence, which is also what the
    loop of [calculate_crc32] computes; and [get_crc32], which reads the
    file in chunks of 128 KB, returns the bit-reversed digest of the whole
    content. *)
Theorem chunked_digest (chunks : list (list byte)) (s : state) :
  fold_left (fun crc buffer => zlib_crc32 buffer crc) chunks 0
  = crc32_iso_hdlc (concat chunks) /\
  fold_left (fun crc buffer => zlib_crc32 buffer crc) chunks 0
  = crc32_of_bytes (concat chunks) /\
  exists v, fst (get_crc32 s) = Ok v /\
            reverse32 v = crc32_of_bytes (content s).
Proof.
  assert (U0 : u32 0) by (unfold u32; lia).
  split; [apply zlib_crc32_chunks; exact U0|].
  split; [rewrite crc32_of_bytes_zlib; apply zlib_crc32_chunks; exact U0|].
  rewrite get_crc32_run. eexists. split; [reflexivity|].
  rewrite reverse32_involutive by apply zlib_crc32_u32.
  symmetry. apply crc32_of_bytes_zlib.
Qed.

(** C5, as amended.  For every [x] of degree below 32 ([0 <= x < 2^32])
    and every [y > 0], [divide_and_remainder(x, y)] returns a pair
    [(quotient, remainder)] with
    [multiply_mod(quotient, y) xor remainder == x]. *)
Theorem divide_multiply_back (x y : Z) :
  0 <= x < 2 ^ 32 -> 0 < y ->
  exists q r m,
    divide_and_remainder x y = Ok (q, r) /\
    multiply_mod q y = Ok m /\
    Z.lxor m r = x.
Proof.
  intros Hx Hy.
  destruct (divide_and_remainder_spec x y ltac:(lia) Hy)
    as [q [r [Ed [Hq [Hr Eq]]]]].
  pose proof (Z.log2_nonneg y) as Hd.
  assert (Hqy : u32 q /\ u32 (clmul q y)).
  { destruct (Z.le_gt_cases 32 (Z.log2 y)) as [Big|Small].
    - assert (0 <= q < 2 ^ 0).
      { apply (quotient_bounded x y q r 0); auto; [lia|].
        split; [lia|]. eapply Z.lt_le_trans; [apply Hx|].
        apply Z.pow_le_mono_r; lia. }
      assert (q = 0) as -> by (simpl in *; lia).
      rewrite clmul_0_l. unfold u32. lia.
    - assert (Bq : 0 <= q < 2 ^ (32 - Z.log2 y)).
      { apply (quotient_bounded x y q r (32 - Z.log2 y)); auto; [lia|].
        replace (32 - Z.log2 y + Z.log2 y) with 32 by lia. exact Hx. }
      split.
      + apply (bounded_weaken (32 - Z.log2 y)); [lia|exact Bq].
      + destruct (Z.eq_dec q 0) as [->|Nq].
        { rewrite clmul_0_l. unfold u32. lia. }
        split; [apply clmul_nonneg; lia|].
        apply Z.log2_lt_pow2; [apply clmul_pos_pos; lia|].
        rewrite clmul_log2 by lia.
        assert (Z.log2 q < 32 - Z.log2 y) by (apply Z.log2_lt_pow2; lia).
        lia. }
  destruct Hqy as [Uq Up].
  exists q, r, (clmul q y).
  split; [exact Ed|]. split; [apply multiply_mod_exact; auto; lia|].
  symmetry. exact Eq.
Qed.

Lemma divide_multiply_back_witness :
  exists q r m,
    divide_and_remainder 0xDEADBEEF 0x1D = Ok (q, r) /\
    multiply_mod q 0x1D = Ok m /\
    Z.lxor m r = 0xDEADBEEF.
Proof.
  apply (divide_multiply_back 0xDEADBEEF 0x1D); lia.
Defined.

(** C5, as stated, fails for a dividend of degree 32: dividing the
    generator itself by [X], as [reciprocal_mod(2)] does, gives quotient
    [0x82608EDB] and remainder 1, and [multiply_mod] of that quotient and
    [X] is 1, reduced modulo the generator, so the xor with the remainder
    is 0 and not the dividend. *)
Lemma divide_multiply_back_degree_32 :
  divide_and_remainder POLYNOMIAL 2 = Ok (0x82608EDB, 1) /\
  multiply_mod 0x82608EDB 2 = Ok 1 /\
  Z.lxor 1 1 <> POLYNOMIAL.
Proof.
  split; [vm_compute; reflexivity|].
  split; [vm_compute; reflexivity|].
  vm_compute. discriminate.
Qed.

(** C6.  For every non-zero [x] of degree below 32, [reciprocal_mod(x)]
    succeeds, and
    [reciprocal_mod(multiply_mod(reciprocal_mod(x), x)) == 1]. *)
Theorem reciprocal_of_product (x : Z) :
  0 < x < 2 ^ 32 ->
  exists a,
    reciprocal_mod x = Ok a /\
    (m ← multiply_mod a x; reciprocal_mod m) = Ok 1.
Proof.
  intros Hx.
  destruct (reciprocal_mod_spec x Hx) as [a [Ea _]].
  exists a. split; [exact Ea|].
  rewrite (reciprocal_mod_inverse x a Hx Ea).
  reflexivity.
Qed.

Lemma reciprocal_of_product_witness :
  exists a,
    reciprocal_mod 12345 = Ok a /\
    (m ← multiply_mod a 12345; reciprocal_mod m) = Ok 1.
Proof.
  apply (reciprocal_of_product 12345). lia.
Defined.

(** C7 (range check).  [modify_file_crc32] raises the range error if and
    only if [offset + 4 > length]: on every file a call with a valid offset
    such that [offset + 4 == length] passes the check and succeeds, while a
    call with [offset + 4 == length + 1] fails with
    [ValueError "Byte offset plus 4 exceeds file length"] and leaves every
    file as it was. *)
Theorem range_check_boundary (w : world) (path : string) (bytes : list byte)
    (offset_ok offset_bad newcrc : Z) (printstatus : bool) :
  files w !! path = Some bytes ->
  0 <= offset_ok ->
  offset_ok + 4 = Z.of_nat (length bytes) ->
  offset_bad + 4 = Z.of_nat (length bytes) + 1 ->
  0 <= newcrc < 2 ^ 32 ->
  fst (modify_file_crc32 path offset_ok newcrc printstatus w) = Ok tt /\
  (fst (modify_file_crc32 path offset_bad newcrc printstatus w)
   = Raise (ValueError "Byte offset plus 4 exceeds file length") /\
   files (snd (modify_file_crc32 path offset_bad newcrc printstatus w))
   = files w) /\
  (forall offset crc,
      fst (modify_file_crc32 path offset crc printstatus w)
      = Raise (ValueError "Byte offset plus 4 exceeds file length")
      <-> offset + 4 > Z.of_nat (length bytes)).
Proof.
  intros Hl Hok Eok Ebad Hn.
  split; [|split].
  - rewrite (modify_file_crc32_run w path bytes _ _ _ Hl). cbn [fst].
    destruct (modify_raf_success bytes (console w) offset_ok newcrc
                printstatus Hok ltac:(lia) Hn)
      as (delta & b0 & b1 & b2 & b3 & c0 & c1 & c2 & c3 & H & _).
    exact H.
  - rewrite (modify_file_crc32_run w path bytes _ _ _ Hl).
    rewrite modify_raf_range_error by lia. cbn [fst snd content files].
    split; [reflexivity|]. apply insert_id. exact Hl.
  - intros offset crc.
    rewrite (modify_file_crc32_run w path bytes _ _ _ Hl). cbn [fst].
    split.
    + intros Hr.
      destruct (Z.le_gt_cases (offset + 4) (Z.of_nat (length bytes)))
        as [Hle|Hgt]; [|lia].
      exfalso.
      destruct (modify_raf_outcomes bytes (console w) offset crc
                  printstatus Hle) as [H|[H|[H|H]]];
        rewrite H in Hr; try discriminate.
      unfold seek_error in Hr. destruct (offset <? - 2 ^ 63); discriminate.
    + intros Hgt. rewrite modify_raf_range_error by exact Hgt. reflexivity.
Qed.

Lemma range_check_boundary_witness :
  fst (modify_file_crc32 "f" 4 0x12345678 false sample_world) = Ok tt /\
  (fst (modify_file_crc32 "f" 5 0x12345678 false sample_world)
   = Raise (ValueError "Byte offset plus 4 exceeds file length") /\
   files (snd (modify_file_crc32 "f" 5 0x12345678 false sample_world))
   = files sample_world) /\
  (forall offset crc,
      fst (modify_file_crc32 "f" offset crc false sample_world)
      = Raise (ValueError "Byte offset plus 4 exceeds file length")
      <-> offset + 4 > Z.of_nat (length sample_bytes)).
Proof.
  apply (range_check_boundary sample_world "f" sample_bytes 4 5 0x12345678 false);
    [reflexivity|lia|reflexivity|reflexivity|lia].
Defined.

(** C8, where the code departs from the claim.  [main] does not reject
    the 8-character argument ["0x123456"], which is not made of 8
    hexadecimal digits: [int(s, 16)] reads it as [0x123456], the value is
    bit-reversed and the file is forged to the checksum [0x00123456].
    Leading white space and an underscore between digits pass the check
    in the same way. *)
Theorem main_accepts_prefixed_value :
  all_hex_digits "0x123456" = false /\
  parse_new_crc "0x123456" = inr (reverse32 0x123456) /\
  fst (main ["f"; "4"; "0x123456"] sample_world) = Ok None /\
  option_map crc32_iso_hdlc
    (files (snd (main ["f"; "4"; "0x123456"] sample_world)) !! "f")
  = Some 0x00123456 /\
  parse_new_crc " 1234567" = inr (reverse32 0x1234567) /\
  parse_new_crc "12_34_56" = inr (reverse32 0x123456).
Proof.
  repeat split; vm_compute; reflexivity.
Qed.

(** C9 (forging to the current checksum).  For every file and valid
    offset, when the desired value is the file's current CRC-32 in
    internal form, as [get_crc32] returns it, the computed delta is zero,
    the call completes, and every file is byte for byte what it was. *)
Theorem forge_to_current_checksum (w : world) (path : string)
    (bytes : list byte) (offset current : Z) (printstatus : bool) :
  files w !! path = Some bytes ->
  0 <= offset -> offset + 4 <= Z.of_nat (length bytes) ->
  fst (get_crc32 (mkState bytes 0 (console w))) = Ok current ->
  (exists p r,
      pow_mod 2 ((Z.of_nat (length bytes) - offset) * 8) = Ok p /\
      reciprocal_mod p = Ok r /\
      multiply_mod r (Z.lxor current current) = Ok 0) /\
  fst (modify_file_crc32 path offset current printstatus w) = Ok tt /\
  files (snd (modify_file_crc32 path offset current printstatus w)) = files w.
Proof.
  intros Hl Hoff Hrange Hc.
  rewrite get_crc32_run in Hc. cbn [fst content] in Hc.
  injection Hc as <-.
  set (crc := reverse32 (zlib_crc32 bytes 0)).
  rewrite (modify_file_crc32_run w path bytes _ _ _ Hl). cbn [fst snd files].
  destruct (modify_raf_success bytes (console w) offset crc
              printstatus Hoff Hrange (reverse32_u32 _))
    as (delta & b0 & b1 & b2 & b3 & c0 & c1 & c2 & c3
        & Hok & Hb & Hcont & (p & r & Ep & Er & Em) & H0 & H1 & H2 & H3 & _).
  fold crc in Em. rewrite Z.lxor_nilpotent in Em |- *.
  rewrite multiply_mod_0_r in Em. injection Em as <-.
  split; [exists p, r; auto using multiply_mod_0_r|].
  split; [exact Hok|].
  rewrite patch_byte_0, Z.lxor_0_r in H0, H1, H2, H3.
  apply Z_of_byte_inj in H0, H1, H2, H3. subst c0 c1 c2 c3.
  rewrite Hcont, <- Hb. apply insert_id. exact Hl.
Qed.

Lemma forge_to_current_checksum_witness :
  (exists p r,
      pow_mod 2 ((Z.of_nat (length sample_bytes) - 2) * 8) = Ok p /\
      reciprocal_mod p = Ok r /\
      multiply_mod r (Z.lxor (reverse32 0x88AA689F) (reverse32 0x88AA689F))
      = Ok 0) /\
  fst (modify_file_crc32 "f" 2 (reverse32 0x88AA689F) true sample_world)
  = Ok tt /\
  files (snd (modify_file_crc32 "f" 2 (reverse32 0x88AA689F) true
                sample_world)) = files sample_world.
Proof.
  apply (forge_to_current_checksum sample_world "f" sample_bytes 2
           (reverse32 0x88AA689F) true);
    [reflexivity|lia|simpl; lia|vm_compute; reflexivity].
Defined.

(** C10 (no short read).  Once the range check has passed
    ([offset + 4 <= length]), [modify_file_crc32] never raises
    [IOError "Cannot read 4 bytes at offset"]: for a non-negative offset,
    seeking to it and reading 4 bytes yields exactly 4 bytes. *)
Theorem short_read_unreachable (w : world) (path : string)
    (bytes : list byte) (offset newcrc : Z) (printstatus : bool) :
  files w !! path = Some bytes ->
  offset + 4 <= Z.of_nat (length bytes) ->
  fst (modify_file_crc32 path offset newcrc printstatus w)
  <> Raise (IOError "Cannot read 4 bytes at offset") /\
  (0 <= offset ->
   forall pos out, exists bytes4,
     fst ((raf_seek offset;; raf_read 4) (mkState bytes pos out)) = Ok bytes4 /\
     length bytes4 = 4%nat).
Proof.
  intros Hl Hrange. split.
  - rewrite (modify_file_crc32_run w path bytes _ _ _ Hl). cbn [fst].
    destruct (modify_raf_outcomes bytes (console w) offset newcrc
                printstatus Hrange) as [H|[H|[H|H]]];
      rewrite H; try discriminate.
    unfold seek_error. destruct (offset <? - 2 ^ 63); discriminate.
  - intros Hoff pos out.
    rewrite io_bind_eq, raf_seek_run.
    destruct (Z.ltb_spec offset 0) as [|_]; [lia|].
    rewrite raf_read_run. cbn [fst content position].
    eexists. split; [reflexivity|].
    rewrite length_take, length_drop. lia.
Qed.

Lemma short_read_unreachable_witness :
  fst (modify_file_crc32 "f" 3 0x12345678 false sample_world)
  <> Raise (IOError "Cannot read 4 bytes at offset") /\
  (0 <= 3 ->
   forall pos out, exists bytes4,
     fst ((raf_seek 3;; raf_read 4) (mkState sample_bytes pos out)) = Ok bytes4 /\
     length bytes4 = 4%nat).
Proof.
  apply (short_read_unreachable sample_world "f" sample_bytes 3 0x12345678 false);
    [reflexivity|simpl; lia].
Defined.

(** * Further properties of the code *)

(** ** The arithmetic engine *)

Lemma result_bind_ok {A B : Type} (a : A) (f : A -> result B) :
  (Ok a ≫= f) = f a.
Proof. reflexivity. Qed.

Lemma multiply_mod_u32 (x y : Z) :
  u32 x -> 0 <= y ->
  exists m, multiply_mod x y = Ok m /\ u32 m /\ pcong m (clmul x y).
Proof.
  intros Ux Hy.
  destruct (multiply_mod_spec x y (proj1 Ux) Hy) as [m [E [_ [C U]]]].
  exists m. split; [exact E|]. split; [exact (U Ux)|exact C].
Qed.

Lemma pow_mod_u32 (x y : Z) :
  u32 x -> 0 <= y ->
  exists p, pow_mod x y = Ok p /\ u32 p /\ pcong p (clpow x (Z.to_nat y)).
Proof.
  intros Ux Hy.
  assert (U1 : u32 1) by (unfold u32; lia).
  destruct (pow_mod_loop_spec (Z.to_nat (bit_length y)) x y 1 Ux U1
              (bit_length_fuel y Hy)) as [p [E [U C]]].
  exists p. split; [exact E|]. split; [exact U|].
  rewrite clmul_1_l in C by (apply clpow_nonneg, Ux). exact C.
Qed.

Lemma degree_below (r y : Z) :
  0 <= r -> 0 < y -> (r < 2 ^ Z.log2 y <-> get_degree r < get_degree y).
Proof.
  intros Hr Hy. rewrite (get_degree_log2 y Hy).
  pose proof (Z.log2_nonneg y) as Hl.
  destruct (Z.eq_dec r 0) as [->|Hn].
  - change (get_degree 0) with (-1). split; intros _; [lia|].
    apply Z.pow_pos_nonneg; lia.
  - rewrite (get_degree_log2 r) by lia.
    apply Z.log2_lt_pow2. lia.
Qed.

Lemma division_unique (y q q' r r' : Z) :
  0 < y -> 0 <= q -> 0 <= q' ->
  0 <= r < 2 ^ Z.log2 y -> 0 <= r' < 2 ^ Z.log2 y ->
  Z.lxor (clmul q y) r = Z.lxor (clmul q' y) r' ->
  q = q' /\ r = r'.
Proof.
  intros Hy Hq Hq' Hr Hr' E.
  assert (Ed : clmul (Z.lxor q q') y = Z.lxor r r').
  { rewrite clmul_lxor_l.
    apply Z.bits_inj'; intros n _.
    pose proof (f_equal (fun v => Z.testbit v n) E) as En. cbv beta in En.
    rewrite !Z.lxor_spec in En |- *.
    destruct (Z.testbit (clmul q y) n), (Z.testbit (clmul q' y) n),
      (Z.testbit r n), (Z.testbit r' n); cbn in *; congruence. }
  assert (Hd : 0 <= Z.lxor q q') by (apply Z.lxor_nonneg; lia).
  assert (Hb : 0 <= Z.lxor r r' < 2 ^ Z.log2 y).
  { apply lxor_bounded; [apply Z.log2_nonneg|exact Hr|exact Hr']. }
  destruct (Z.eq_dec (Z.lxor q q') 0) as [E0|N0].
  - rewrite E0, clmul_0_l in Ed. symmetry in Ed.
    apply Z.lxor_eq in E0. apply Z.lxor_eq in Ed. split; assumption.
  - exfalso.
    assert (Hp : 0 < Z.lxor q q') by lia.
    pose proof (clmul_log2 _ _ Hp Hy) as Hl.
    pose proof (clmul_pos_pos _ _ Hp Hy) as Hc.
    rewrite Ed in Hl, Hc.
    assert (Z.log2 (Z.lxor r r') < Z.log2 y)
      by (apply Z.log2_lt_pow2; lia).
    pose proof (Z.log2_nonneg (Z.lxor q q')). lia.
Qed.

(** X1 (double reversal).  [reverse32] only looks at the low 32 bits of
    its argument and returns a 32-bit value: reversing twice gives back
    [x & MASK], so on 32-bit values [reverse32] is its own inverse. *)
Theorem reverse32_twice (x : Z) :
  reverse32 (reverse32 x) = Z.land x MASK /\ 0 <= reverse32 x < 2 ^ 32.
Proof.
  split; [|apply reverse32_u32].
  apply Z.bits_inj'; intros k Hk.
  change MASK with (Z.ones 32).
  rewrite Z.land_spec, Z.testbit_ones by lia.
  rewrite !reverse32_spec.
  destruct (Z.leb_spec 0 k); [|lia].
  destruct (Z.ltb_spec k 32); cbn [andb].
  - destruct (Z.leb_spec 0 (31 - k)); [|lia].
    destruct (Z.ltb_spec (31 - k) 32); [|lia].
    cbn [andb]. rewrite andb_true_r. f_equal. lia.
  - rewrite andb_false_r. reflexivity.
Qed.

(** X2 (mirrored bits).  For [0 <= k < 32], bit [k] of [reverse32(x)] is
    bit [31 - k] of [x]. *)
Theorem reverse32_mirrors_bits (x k : Z) :
  0 <= k < 32 -> Z.testbit (reverse32 x) k = Z.testbit x (31 - k).
Proof.
  intros Hk. rewrite reverse32_spec.
  destruct (Z.leb_spec 0 k); [|lia].
  destruct (Z.ltb_spec k 32); [|lia].
  reflexivity.
Qed.

Lemma reverse32_mirrors_bits_witness :
  0 <= 3 < 32 /\ Z.testbit (reverse32 8) 3 = Z.testbit 8 (31 - 3).
Proof. split; [lia|apply (reverse32_mirrors_bits 8 3); lia]. Defined.

(** X3 (product is commutative).  On 32-bit operands [multiply_mod]
    returns, and [multiply_mod(x, y)] equals [multiply_mod(y, x)]. *)
Theorem multiply_mod_commutative (x y : Z) :
  u32 x -> u32 y ->
  exists m, multiply_mod x y = Ok m /\ multiply_mod y x = Ok m /\ u32 m.
Proof.
  intros Ux Uy.
  destruct (multiply_mod_u32 x y Ux (proj1 Uy)) as [m [E [U C]]].
  destruct (multiply_mod_u32 y x Uy (proj1 Ux)) as [m' [E' [U' C']]].
  exists m. split; [exact E|]. split; [|exact U].
  rewrite E'. f_equal.
  apply pcong_u32_eq; [exact U'|exact U|].
  apply (pcong_trans _ _ _ C').
  rewrite (clmul_comm y x (proj1 Uy) (proj1 Ux)).
  apply pcong_sym, C.
Qed.

Lemma multiply_mod_commutative_witness :
  exists m, multiply_mod 0xDEADBEEF 0x12345678 = Ok m /\
            multiply_mod 0x12345678 0xDEADBEEF = Ok m /\ u32 m.
Proof.
  apply (multiply_mod_commutative 0xDEADBEEF 0x12345678); unfold u32; lia.
Defined.

(** X4 (product is associative).  On 32-bit operands,
    [multiply_mod(multiply_mod(x, y), z)] equals
    [multiply_mod(x, multiply_mod(y, z))], and both return. *)
Theorem multiply_mod_associative (x y z : Z) :
  u32 x -> u32 y -> u32 z ->
  exists m,
    (xy ← multiply_mod x y; multiply_mod xy z) = Ok m /\
    (yz ← multiply_mod y z; multiply_mod x yz) = Ok m.
Proof.
  intros Ux Uy Uz.
  destruct (multiply_mod_u32 x y Ux (proj1 Uy)) as [a [Ea [Ua Ca]]].
  destruct (multiply_mod_u32 a z Ua (proj1 Uz)) as [m [Em [Um Cm]]].
  destruct (multiply_mod_u32 y z Uy (proj1 Uz)) as [b [Eb [Ub Cb]]].
  destruct (multiply_mod_u32 x b Ux (proj1 Ub)) as [m' [Em' [Um' Cm']]].
  exists m. rewrite Ea, Eb, !result_bind_ok.
  split; [exact Em|]. rewrite Em'. f_equal.
  apply pcong_u32_eq; [exact Um'|exact Um|].
  pose proof (clmul_nonneg x y (proj1 Ux)) as Hxy.
  pose proof (clmul_nonneg y z (proj1 Uy)) as Hyz.
  apply (pcong_trans _ _ _ Cm').
  apply (pcong_trans _ (clmul x (clmul y z))).
  { apply pcong_clmul_r; [apply Ub|exact Hyz|apply Ux|exact Cb]. }
  rewrite <- clmul_assoc by (apply Ux || apply Uy || apply Uz).
  apply pcong_sym. apply (pcong_trans _ _ _ Cm).
  apply pcong_clmul_l; [apply Uz|exact Ca].
Qed.

Lemma multiply_mod_associative_witness :
  exists m,
    (xy ← multiply_mod 0xDEADBEEF 0x12345678; multiply_mod xy 0xCAFEBABE)
    = Ok m /\
    (yz ← multiply_mod 0x12345678 0xCAFEBABE; multiply_mod 0xDEADBEEF yz)
    = Ok m.
Proof.
  apply (multiply_mod_associative 0xDEADBEEF 0x12345678 0xCAFEBABE);
    unfold u32; lia.
Defined.

(** X5 (product distributes over xor).  For a 32-bit [x] and non-negative
    [y], [z], [multiply_mod(x, y ^ z)] is
    [multiply_mod(x, y) ^ multiply_mod(x, z)]. *)
Theorem multiply_mod_distributive (x y z : Z) :
  u32 x -> 0 <= y -> 0 <= z ->
  exists m1 m2,
    multiply_mod x y = Ok m1 /\ multiply_mod x z = Ok m2 /\
    multiply_mod x (Z.lxor y z) = Ok (Z.lxor m1 m2).
Proof.
  intros Ux Hy Hz.
  destruct (multiply_mod_u32 x y Ux Hy) as [m1 [E1 [U1 C1]]].
  destruct (multiply_mod_u32 x z Ux Hz) as [m2 [E2 [U2 C2]]].
  assert (Hyz : 0 <= Z.lxor y z) by (apply Z.lxor_nonneg; lia).
  destruct (multiply_mod_u32 x (Z.lxor y z) Ux Hyz) as [m [E [U C]]].
  exists m1, m2. split; [exact E1|]. split; [exact E2|].
  rewrite E. f_equal.
  apply pcong_u32_eq; [exact U| |].
  { apply lxor_bounded; [lia|exact U1|exact U2]. }
  apply (pcong_trans _ _ _ C).
  rewrite clmul_lxor_r by (apply Ux || assumption).
  apply pcong_sym, pcong_lxor; assumption.
Qed.

Lemma multiply_mod_distributive_witness :
  exists m1 m2,
    multiply_mod 0xDEADBEEF 5 = Ok m1 /\ multiply_mod 0xDEADBEEF 9 = Ok m2 /\
    multiply_mod 0xDEADBEEF (Z.lxor 5 9) = Ok (Z.lxor m1 m2).
Proof.
  apply (multiply_mod_distributive 0xDEADBEEF 5 9); unfold u32; lia.
Defined.

(** X6 (one and zero).  For a 32-bit [x], multiplying by 1 on either side
    returns [x] unchanged and multiplying by 0 on either side returns 0. *)
Theorem multiply_mod_one_zero (x : Z) :
  u32 x ->
  multiply_mod x 1 = Ok x /\ multiply_mod 1 x = Ok x /\
  multiply_mod x 0 = Ok 0 /\ multiply_mod 0 x = Ok 0.
Proof.
  intros Ux.
  assert (U1 : u32 1) by (unfold u32; lia).
  assert (U0 : u32 0) by (unfold u32; lia).
  split; [|split; [|split]].
  - rewrite <- (clmul_1_r x) at 2.
    apply multiply_mod_exact; [exact Ux|lia|rewrite clmul_1_r; exact Ux].
  - rewrite <- (clmul_1_l x (proj1 Ux)) at 2.
    apply multiply_mod_exact;
      [exact U1|apply Ux|rewrite clmul_1_l by apply Ux; exact Ux].
  - apply multiply_mod_0_r.
  - rewrite <- (clmul_0_l x) at 2.
    apply multiply_mod_exact; [exact U0|apply Ux|rewrite clmul_0_l; exact U0].
Qed.

Lemma multiply_mod_one_zero_witness :
  multiply_mod 0xDEADBEEF 1 = Ok 0xDEADBEEF /\
  multiply_mod 1 0xDEADBEEF = Ok 0xDEADBEEF /\
  multiply_mod 0xDEADBEEF 0 = Ok 0 /\ multiply_mod 0 0xDEADBEEF = Ok 0.
Proof. apply (multiply_mod_one_zero 0xDEADBEEF); unfold u32; lia. Defined.

(** X7 (no zero divisors).  On 32-bit operands [multiply_mod] returns 0
    only when one of the operands is 0. *)
Theorem multiply_mod_no_zero_divisors (x y : Z) :
  u32 x -> u32 y -> multiply_mod x y = Ok 0 -> x = 0 \/ y = 0.
Proof.
  intros Ux Uy E.
  destruct (Z.eq_dec x 0) as [E0|N0]; [left; exact E0|right].
  assert (Px : 0 < x < 2 ^ 32) by (unfold u32 in Ux; lia).
  destruct (reciprocal_mod_spec x Px) as [a [_ [Ua Ca]]].
  destruct (multiply_mod_u32 x y Ux (proj1 Uy)) as [m [Em [_ Cm]]].
  rewrite E in Em. injection Em as <-.
  apply pcong_u32_eq; [exact Uy|unfold u32; lia|].
  pose proof (pcong_clmul_l _ _ y (proj1 Uy) Ca) as H1.
  rewrite clmul_1_l in H1 by apply Uy.
  rewrite clmul_assoc in H1 by (apply Ua || apply Ux || apply Uy).
  apply pcong_sym in H1. apply (pcong_trans _ _ _ H1).
  rewrite <- (clmul_0_r a).
  apply pcong_clmul_r;
    [apply clmul_nonneg, Ux|lia|apply Ua|apply pcong_sym, Cm].
Qed.

Lemma multiply_mod_no_zero_divisors_witness :
  0xDEADBEEF = 0 \/ 0 = 0.
Proof.
  apply (multiply_mod_no_zero_divisors 0xDEADBEEF 0);
    [unfold u32; lia|unfold u32; lia|reflexivity].
Defined.

(** X8 (negative multiplier).  With [y < 0] the loop [while y != 0] of
    [multiply_mod] never exits: [y >>= 1] keeps [y] negative, so whatever
    the number of iterations allowed, no result is produced. *)
Theorem multiply_mod_negative_diverges (fuel : nat) (x y z : Z) :
  y < 0 -> multiply_mod_loop fuel x y z = OutOfFuel.
Proof.
  revert x y z. induction fuel as [|fuel IH]; intros x y z Hy;
    cbn [multiply_mod_loop];
    destruct (Z.eqb_spec y 0) as [|_]; try lia; [reflexivity|].
  apply IH. apply Z.shiftr_neg. exact Hy.
Qed.

Lemma multiply_mod_negative_diverges_witness :
  multiply_mod_loop 100 3 (-5) 0 = OutOfFuel.
Proof. apply (multiply_mod_negative_diverges 100 3 (-5) 0). lia. Defined.

(** X9 (negative exponent).  With [y < 0] the loop [while y != 0] of
    [pow_mod] never exits either, whatever [x] is: no result and no
    exception is produced. *)
Theorem pow_mod_negative_diverges (fuel : nat) (x y z : Z) :
  y < 0 -> pow_mod_loop fuel x y z = OutOfFuel.
Proof.
  revert x y z. induction fuel as [|fuel IH]; intros x y z Hy;
    cbn [pow_mod_loop];
    destruct (Z.eqb_spec y 0) as [|_]; try lia; [reflexivity|].
  assert (Hz : forall (B : Type) (k : Z -> result B),
             (forall v, k v = OutOfFuel) ->
             forall m : result Z, (forall e, m <> Raise e) ->
             (m ≫= k) = OutOfFuel).
  { intros B k Hk [v|e|] Hm; [apply Hk|destruct (Hm e eq_refl)|reflexivity]. }
  apply Hz.
  - intros z'. apply Hz.
    + intros x'. apply IH. apply Z.shiftr_neg. exact Hy.
    + intros e. apply multiply_mod_no_raise.
  - intros e. destruct (negb (Z.land y 1 =? 0)); [|discriminate].
    apply multiply_mod_no_raise.
Qed.

Lemma pow_mod_negative_diverges_witness :
  pow_mod_loop 100 2 (-8) 1 = OutOfFuel.
Proof. apply (pow_mod_negative_diverges 100 2 (-8) 1). lia. Defined.

(** X10 (small exponents).  For a 32-bit [x], [pow_mod(x, 0)] is 1 and
    [pow_mod(x, 1)] is [x]. *)
Theorem pow_mod_zero_one (x : Z) :
  u32 x -> pow_mod x 0 = Ok 1 /\ pow_mod x 1 = Ok x.
Proof.
  intros Ux. split; [reflexivity|].
  destruct (pow_mod_u32 x 1 Ux ltac:(lia)) as [p [E [U C]]].
  rewrite E. f_equal.
  apply pcong_u32_eq; [exact U|exact Ux|].
  change (Z.to_nat 1) with 1%nat in C. cbn [clpow] in C.
  rewrite clmul_1_r in C. exact C.
Qed.

Lemma pow_mod_zero_one_witness :
  pow_mod 0xDEADBEEF 0 = Ok 1 /\ pow_mod 0xDEADBEEF 1 = Ok 0xDEADBEEF.
Proof. apply (pow_mod_zero_one 0xDEADBEEF); unfold u32; lia. Defined.

(** X11 (law of exponents).  For a 32-bit [x] and non-negative [a], [b],
    [pow_mod(x, a + b)] equals
    [multiply_mod(pow_mod(x, a), pow_mod(x, b))]. *)
Theorem pow_mod_add (x a b : Z) :
  u32 x -> 0 <= a -> 0 <= b ->
  exists p q r,
    pow_mod x a = Ok p /\ pow_mod x b = Ok q /\
    multiply_mod p q = Ok r /\ pow_mod x (a + b) = Ok r.
Proof.
  intros Ux Ha Hb.
  destruct (pow_mod_u32 x a Ux Ha) as [p [Ep [Up Cp]]].
  destruct (pow_mod_u32 x b Ux Hb) as [q [Eq [Uq Cq]]].
  destruct (pow_mod_u32 x (a + b) Ux ltac:(lia)) as [s [Es [Us Cs]]].
  destruct (multiply_mod_u32 p q Up (proj1 Uq)) as [r [Er [Ur Cr]]].
  exists p, q, r. split; [exact Ep|]. split; [exact Eq|]. split; [exact Er|].
  rewrite Es. f_equal.
  apply pcong_u32_eq; [exact Us|exact Ur|].
  apply (pcong_trans _ _ _ Cs).
  rewrite Z2Nat.inj_add by lia.
  rewrite clpow_add by apply Ux.
  apply pcong_sym. apply (pcong_trans _ _ _ Cr).
  apply pcong_clmul;
    [apply clpow_nonneg, Ux|apply Uq|apply clpow_nonneg, Ux|exact Cp|exact Cq].
Qed.

Lemma pow_mod_add_witness :
  exists p q r,
    pow_mod 2 40 = Ok p /\ pow_mod 2 24 = Ok q /\
    multiply_mod p q = Ok r /\ pow_mod 2 (40 + 24) = Ok r.
Proof. apply (pow_mod_add 2 40 24); unfold u32; lia. Defined.

(** X12 (polynomial division).  For [0 <= x] and [0 < y],
    [divide_and_remainder(x, y)] returns exactly the quotient and the
    remainder of the division of polynomials over GF(2): the one pair
    [(q, r)] of non-negative numbers with [x = q * y ^ r] (carry-less
    product) and [get_degree(r) < get_degree(y)]. *)
Theorem divide_and_remainder_characterised (x y q r : Z) :
  0 <= x -> 0 < y ->
  (divide_and_remainder x y = Ok (q, r) <->
   0 <= q /\ 0 <= r /\ get_degree r < get_degree y /\
   x = Z.lxor (clmul q y) r).
Proof.
  intros Hx Hy.
  destruct (divide_and_remainder_spec x y Hx Hy)
    as [q0 [r0 [E [Hq0 [Hr0 Ex]]]]].
  rewrite E. split.
  - intros H. injection H as <- <-.
    split; [exact Hq0|]. split; [apply Hr0|]. split; [|exact Ex].
    apply degree_below; lia.
  - intros [Hq [Hr [Hd Ex']]].
    assert (Hr' : 0 <= r < 2 ^ Z.log2 y).
    { split; [exact Hr|]. apply degree_below; assumption. }
    destruct (division_unique y q0 q r0 r Hy Hq0 Hq Hr0 Hr') as [-> ->];
      [congruence|reflexivity].
Qed.

Lemma divide_and_remainder_characterised_witness :
  divide_and_remainder 0x104C11DB7 2 = Ok (0x82608EDB, 1) <->
  0 <= 0x82608EDB /\ 0 <= 1 /\ get_degree 1 < get_degree 2 /\
  0x104C11DB7 = Z.lxor (clmul 0x82608EDB 2) 1.
Proof.
  apply (divide_and_remainder_characterised 0x104C11DB7 2 0x82608EDB 1); lia.
Defined.

(** X14 (zero has no reciprocal).  Among the 32-bit values,
    [reciprocal_mod] raises [ValueError "Reciprocal does not exist"] for
    0 only; for every other value it returns a non-zero 32-bit number. *)
Theorem reciprocal_mod_zero (x : Z) :
  u32 x ->
  (x = 0 /\ reciprocal_mod x = Raise (ValueError "Reciprocal does not exist"))
  \/ (x <> 0 /\ exists a, reciprocal_mod x = Ok a /\ 0 < a < 2 ^ 32).
Proof.
  intros Ux.
  destruct (Z.eq_dec x 0) as [->|N]; [left; split; reflexivity|right].
  split; [exact N|].
  assert (Px : 0 < x < 2 ^ 32) by (unfold u32 in Ux; lia).
  destruct (reciprocal_mod_spec x Px) as [a [Ea [Ua Ca]]].
  exists a. split; [exact Ea|].
  destruct (Z.eq_dec a 0) as [->|Na]; [|unfold u32 in Ua; lia].
  rewrite clmul_0_l in Ca. destruct (pcong_0_1_absurd Ca).
Qed.

Lemma reciprocal_mod_zero_witness :
  (2 = 0 /\ reciprocal_mod 2 = Raise (ValueError "Reciprocal does not exist"))
  \/ (2 <> 0 /\ exists a, reciprocal_mod 2 = Ok a /\ 0 < a < 2 ^ 32).
Proof. apply (reciprocal_mod_zero 2). unfold u32. lia. Defined.

Lemma inverse_unique (x a b : Z) :
  u32 x -> u32 a -> u32 b ->
  pcong (clmul a x) 1 -> pcong (clmul b x) 1 -> a = b.
Proof.
  intros Ux Ua Ub Ca Cb.
  apply pcong_u32_eq; [exact Ua|exact Ub|].
  (* a = a * 1 = a * (b * x) = b * (a * x) = b * 1 = b *)
  assert (H01 : 0 <= 1) by lia.
  pose proof (pcong_clmul_r (clmul b x) 1 a (clmul_nonneg b x (proj1 Ub))
                H01 (proj1 Ua) Cb) as H1.
  pose proof (pcong_clmul_r (clmul a x) 1 b (clmul_nonneg a x (proj1 Ua))
                H01 (proj1 Ub) Ca) as H2.
  rewrite clmul_1_r in H1, H2.
  apply pcong_sym in H1. apply (pcong_trans _ _ _ H1).
  apply (fun H => pcong_trans _ _ _ H H2).
  rewrite <- !clmul_assoc by (apply Ux || apply Ua || apply Ub).
  rewrite (clmul_comm a b (proj1 Ua) (proj1 Ub)).
  apply pcong_refl.
Qed.

(** X15 (the reciprocal is the only inverse).  For a non-zero 32-bit [x],
    every 32-bit [a] with [multiply_mod(a, x) == 1] is the value that
    [reciprocal_mod(x)] returns. *)
Theorem reciprocal_mod_unique (x a : Z) :
  0 < x < 2 ^ 32 -> u32 a -> multiply_mod a x = Ok 1 ->
  reciprocal_mod x = Ok a.
Proof.
  intros Px Ua E.
  assert (Ux : u32 x) by (unfold u32; lia).
  destruct (reciprocal_mod_spec x Px) as [b [Eb [Ub Cb]]].
  rewrite Eb. f_equal.
  destruct (multiply_mod_u32 a x Ua (proj1 Ux)) as [m [Em [_ Cm]]].
  rewrite E in Em. injection Em as <-.
  apply (inverse_unique x b a Ux Ub Ua Cb). apply pcong_sym, Cm.
Qed.

Lemma reciprocal_mod_unique_witness :
  reciprocal_mod 2 = Ok 0x82608EDB.
Proof.
  apply (reciprocal_mod_unique 2 0x82608EDB);
    [lia|unfold u32; lia|reflexivity].
Defined.

(** X16 (reciprocal of the reciprocal).  For a non-zero 32-bit [x],
    [reciprocal_mod(reciprocal_mod(x))] is [x]. *)
Theorem reciprocal_mod_involutive (x : Z) :
  0 < x < 2 ^ 32 ->
  exists a, reciprocal_mod x = Ok a /\ reciprocal_mod a = Ok x.
Proof.
  intros Px.
  assert (Ux : u32 x) by (unfold u32; lia).
  destruct (reciprocal_mod_spec x Px) as [a [Ea [Ua Ca]]].
  exists a. split; [exact Ea|].
  assert (Pa : 0 < a < 2 ^ 32).
  { destruct (Z.eq_dec a 0) as [->|Na]; [|unfold u32 in Ua; lia].
    rewrite clmul_0_l in Ca. destruct (pcong_0_1_absurd Ca). }
  destruct (reciprocal_mod_spec a Pa) as [b [Eb [Ub Cb]]].
  rewrite Eb. f_equal.
  apply (inverse_unique a b x Ua Ub Ux Cb).
  rewrite (clmul_comm x a (proj1 Ux) (proj1 Ua)). exact Ca.
Qed.

Lemma reciprocal_mod_involutive_witness :
  exists a, reciprocal_mod 0xDEADBEEF = Ok a /\ reciprocal_mod a = Ok 0xDEADBEEF.
Proof. apply (reciprocal_mod_involutive 0xDEADBEEF). lia. Defined.

(** ** The digest and the forger *)

Lemma packed_u32 (d0 d1 d2 d3 : Z) :
  0 <= d0 < 2 ^ 8 -> 0 <= d1 < 2 ^ 8 -> 0 <= d2 < 2 ^ 8 -> 0 <= d3 < 2 ^ 8 ->
  u32 (Z.lor (Z.lor (Z.lor d0 (Z.shiftl d1 8)) (Z.shiftl d2 16))
             (Z.shiftl d3 24)).
Proof.
  intros H0 H1 H2 H3. apply bits_bounded; [lia|]. intros k Hk.
  rewrite !Z.lor_spec, !shiftl_spec_all.
  rewrite (bounded_bits 8 d0 k H0), (bounded_bits 8 d1 (k - 8) H1),
    (bounded_bits 8 d2 (k - 16) H2), (bounded_bits 8 d3 (k - 24) H3) by lia.
  rewrite !andb_false_r. reflexivity.
Qed.

Ltac clear_byte_bit :=
  match goal with
  | H : 0 <= ?d < 2 ^ 8 |- context [Z.testbit ?d ?m] =>
      first [ rewrite (bounded_bits 8 d m H) by lia
            | rewrite (Z.testbit_neg_r d m) by lia ]
  end.

Lemma packed_byte (d0 d1 d2 d3 i : Z) :
  0 <= d0 < 2 ^ 8 -> 0 <= d1 < 2 ^ 8 -> 0 <= d2 < 2 ^ 8 -> 0 <= d3 < 2 ^ 8 ->
  0 <= i <= 3 ->
  Z.land (Z.shiftr (Z.lor (Z.lor (Z.lor d0 (Z.shiftl d1 8)) (Z.shiftl d2 16))
                          (Z.shiftl d3 24)) (i * 8)) 0xFF
  = if i =? 0 then d0 else if i =? 1 then d1 else if i =? 2 then d2 else d3.
Proof.
  intros H0 H1 H2 H3 Hi.
  apply Z.bits_inj'; intros k Hk.
  rewrite Z.land_spec, testbit_255, shiftr_spec_all, !Z.lor_spec,
    !shiftl_spec_all.
  destruct (Z.leb_spec 0 k) as [_|]; [|lia].
  destruct (Z.leb_spec 0 (k + i * 8)) as [_|]; [|lia].
  cbn [andb].
  assert (Ei : i = 0 \/ i = 1 \/ i = 2 \/ i = 3) by lia.
  destruct (Z.ltb_spec k 8) as [Hlt|Hge].
  - destruct Ei as [-> | [-> | [-> | ->]]]; cbn [Z.eqb Z.mul Pos.mul];
      repeat clear_byte_bit;
      rewrite ?orb_false_r, ?orb_false_l, ?andb_true_r;
      f_equal; lia.
  - rewrite andb_false_r.
    destruct Ei as [-> | [-> | [-> | ->]]]; cbn [Z.eqb];
      symmetry; apply (bounded_bits 8); assumption || lia.
Qed.

Lemma lxor_byte_bounded (a b : byte) :
  0 <= Z.lxor (Z_of_byte a) (Z_of_byte b) < 2 ^ 8.
Proof. apply lxor_bounded; [lia|apply Z_of_byte_bounded..]. Qed.

(** Any two windows of 4 bytes differ by the patch of some 32-bit
    [delta]. *)
Lemma window_delta (a0 a1 a2 a3 b0 b1 b2 b3 : byte) :
  exists delta,
    u32 delta /\
    Z_of_byte a0 = Z.lxor (Z_of_byte b0) (patch_byte delta 0) /\
    Z_of_byte a1 = Z.lxor (Z_of_byte b1) (patch_byte delta 1) /\
    Z_of_byte a2 = Z.lxor (Z_of_byte b2) (patch_byte delta 2) /\
    Z_of_byte a3 = Z.lxor (Z_of_byte b3) (patch_byte delta 3).
Proof.
  set (d0 := Z.lxor (Z_of_byte a0) (Z_of_byte b0)).
  set (d1 := Z.lxor (Z_of_byte a1) (Z_of_byte b1)).
  set (d2 := Z.lxor (Z_of_byte a2) (Z_of_byte b2)).
  set (d3 := Z.lxor (Z_of_byte a3) (Z_of_byte b3)).
  pose proof (lxor_byte_bounded a0 b0) as H0. fold d0 in H0.
  pose proof (lxor_byte_bounded a1 b1) as H1. fold d1 in H1.
  pose proof (lxor_byte_bounded a2 b2) as H2. fold d2 in H2.
  pose proof (lxor_byte_bounded a3 b3) as H3. fold d3 in H3.
  set (W := Z.lor (Z.lor (Z.lor d0 (Z.shiftl d1 8)) (Z.shiftl d2 16))
                  (Z.shiftl d3 24)).
  pose proof (packed_u32 d0 d1 d2 d3 H0 H1 H2 H3) as UW. fold W in UW.
  exists (reverse32 W). split; [apply reverse32_u32|].
  assert (P : forall i, 0 <= i <= 3 ->
            patch_byte (reverse32 W) i =
            if i =? 0 then d0 else if i =? 1 then d1
            else if i =? 2 then d2 else d3).
  { intros i Hi. unfold patch_byte.
    rewrite (reverse32_involutive W UW).
    apply packed_byte; assumption. }
  assert (X : forall a b : Z, a = Z.lxor b (Z.lxor a b)).
  { intros a b. rewrite (Z.lxor_comm a b), <- Z.lxor_assoc,
      Z.lxor_nilpotent, Z.lxor_0_l. reflexivity. }
  rewrite (P 0), (P 1), (P 2), (P 3) by lia. cbn [Z.eqb Pos.eqb].
  subst d0 d1 d2 d3. repeat split; apply X.
Qed.

Lemma pcong_lxor_0 (X D : Z) : pcong (Z.lxor X D) X -> pcong D 0.
Proof.
  intros [k [Hk Ek]]. exists k. split; [exact Hk|].
  rewrite Z.lxor_0_r, <- Ek.
  rewrite (Z.lxor_comm X D), Z.lxor_assoc, Z.lxor_nilpotent, Z.lxor_0_r.
  reflexivity.
Qed.

(** A 32-bit polynomial that vanishes modulo the generator after
    multiplication by a power of [X] is zero. *)
Lemma shifted_zero (delta s : Z) :
  u32 delta -> 0 <= s -> pcong (Z.shiftl delta s) 0 -> delta = 0.
Proof.
  intros Ud Hs C.
  apply pcong_u32_eq; [exact Ud|unfold u32; lia|].
  destruct (clpow_2_invertible (Z.to_nat s)) as [u [Hu Cu]].
  rewrite clpow_2, Z2Nat.id in Cu by exact Hs.
  rewrite <- (clmul_pow2_r delta s Hs) in C.
  assert (Hp : 0 <= Z.shiftl 1 s) by (apply Z.shiftl_nonneg; lia).
  assert (H01 : 0 <= 1) by lia.
  pose proof (pcong_clmul_r (clmul (Z.shiftl 1 s) u) 1 delta
                (clmul_nonneg _ u Hp) H01 (proj1 Ud) Cu) as H1.
  rewrite clmul_1_r in H1.
  rewrite <- clmul_assoc in H1 by (apply Ud || assumption).
  apply pcong_sym in H1. apply (pcong_trans _ _ _ H1).
  rewrite <- (clmul_0_l u).
  apply pcong_clmul_l; [exact Hu|exact C].
Qed.

(** The digest tells apart any two contents that differ only inside a
    window of 4 bytes. *)
Lemma crc_window_inj (pre post : list byte) (a0 a1 a2 a3 b0 b1 b2 b3 : byte) :
  zlib_crc32 (pre ++ [a0; a1; a2; a3] ++ post) 0
  = zlib_crc32 (pre ++ [b0; b1; b2; b3] ++ post) 0 ->
  [a0; a1; a2; a3] = [b0; b1; b2; b3].
Proof.
  intros E.
  apply (f_equal reverse32) in E. rewrite !digest_register in E.
  apply (f_equal (fun v => Z.lxor v 0xFFFFFFFF)) in E.
  rewrite !lxor_lxor_cancel in E.
  destruct (register_poly (pre ++ [a0; a1; a2; a3] ++ post)) as [_ Ca].
  destruct (register_poly (pre ++ [b0; b1; b2; b3] ++ post)) as [_ Cb].
  rewrite E in Ca.
  pose proof (pcong_trans _ _ _ (pcong_sym _ _ Ca) Cb) as C.
  destruct (window_delta a0 a1 a2 a3 b0 b1 b2 b3)
    as [delta [Ud [H0 [H1 [H2 H3]]]]].
  rewrite (crc_poly_patched 0xFFFFFFFF delta pre post b0 b1 b2 b3
             a0 a1 a2 a3 Ud H0 H1 H2 H3) in C.
  apply pcong_lxor_0 in C.
  apply shifted_zero in C; [|exact Ud|lia].
  subst delta. rewrite !patch_byte_0, !Z.lxor_0_r in *.
  apply Z_of_byte_inj in H0, H1, H2, H3. congruence.
Qed.

Lemma list4 {A : Type} (l : list A) :
  length l = 4%nat -> exists a0 a1 a2 a3, l = [a0; a1; a2; a3].
Proof.
  destruct l as [|a0 [|a1 [|a2 [|a3 [|a4 l]]]]]; try discriminate.
  intros _. exists a0, a1, a2, a3. reflexivity.
Qed.

(** The run of the forger, console included, when the checks pass. *)
Lemma modify_raf_success_stdout (bytes : list byte) (out : list string)
    (offset newcrc : Z) (printstatus : bool) :
  0 <= offset -> offset + 4 <= Z.of_nat (length bytes) -> u32 newcrc ->
  stdout (snd (modify_raf_crc32 offset newcrc printstatus
                 (mkState bytes 0 out)))
  = if printstatus
    then out ++ ["Original CRC-32: " +:+ format_08X (zlib_crc32 bytes 0);
                 "Computed and wrote patch";
                 "New CRC-32 successfully verified"]
    else out.
Proof.
  intros Hoff Hrange Un.
  destruct (modify_raf_success bytes out offset newcrc printstatus
              Hoff Hrange Un)
    as (delta & b0 & b1 & b2 & b3 & c0 & c1 & c2 & c3 & _ & Hsplit & Hc
        & (p & r & Ep & Er & Em) & H0 & H1 & H2 & H3 & Hd).
  rewrite Hc in Hd. clear Hc.
  set (len := Z.of_nat (length bytes)) in *.
  set (crc := reverse32 (zlib_crc32 bytes 0)) in *.
  destruct (take4_drop bytes (Z.to_nat offset) ltac:(lia))
    as [b0' [b1' [b2' [b3' E4]]]].
  pose proof (window_split bytes _ b0' b1' b2' b3' E4) as Hsplit'.
  rewrite Hsplit' in Hsplit at 1.
  apply app_inv_head in Hsplit. injection Hsplit as -> -> -> ->.
  destruct (patch_bytes4 delta b0 b1 b2 b3)
    as [c0' [c1' [c2' [c3' [Ef [H0' [H1' [H2' H3']]]]]]]].
  rewrite <- H0 in H0'. rewrite <- H1 in H1'.
  rewrite <- H2 in H2'. rewrite <- H3 in H3'.
  apply Z_of_byte_inj in H0', H1', H2', H3'. subst c0' c1' c2' c3'.
  unfold modify_raf_crc32.
  io_step. io_step. fold len.
  destruct (Z.gtb_spec (offset + 4) len) as [|_]; [lia|].
  io_step. fold crc. io_step. io_step. rewrite Ep.
  io_step. rewrite Er. io_step. rewrite Em.
  io_step.
  destruct (Z.ltb_spec offset 0) as [|_]; [lia|].
  io_step.
  change (Z.to_nat 4) with 4%nat. rewrite E4.
  change (negb (Z.of_nat (length [b0; b1; b2; b3]) =? 4)) with false.
  io_step. rewrite Ef.
  io_step. destruct (Z.ltb_spec offset 0) as [|_]; [lia|].
  io_step. io_step. io_step.
  replace (Z.to_nat offset - length bytes)%nat with 0%nat by lia.
  cbn [replicate app length]. cbn [app] in Hd.
  rewrite Hd, Z.eqb_refl. cbn [negb].
  rewrite when_print_run. cbn [snd stdout].
  subst crc. rewrite reverse32_involutive by apply zlib_crc32_u32.
  destruct printstatus; [|reflexivity].
  rewrite <- !app_assoc. reflexivity.
Qed.

(** X17 (changes inside 4 bytes are detected).  Two byte sequences that
    differ only inside a window of 4 consecutive bytes never have the same
    CRC-32: on such a window the digest computed by the loop of
    [calculate_crc32] is injective. *)
Theorem crc32_detects_window_change (pre m1 m2 post : list byte) :
  length m1 = 4%nat -> length m2 = 4%nat -> m1 <> m2 ->
  crc32_of_bytes (pre ++ m1 ++ post) <> crc32_of_bytes (pre ++ m2 ++ post).
Proof.
  intros L1 L2 N E. apply N.
  destruct (list4 m1 L1) as (a0 & a1 & a2 & a3 & ->).
  destruct (list4 m2 L2) as (b0 & b1 & b2 & b3 & ->).
  rewrite !crc32_of_bytes_zlib in E.
  apply (crc_window_inj pre post). exact E.
Qed.

Lemma crc32_detects_window_change_witness :
  crc32_of_bytes ([x00; x01] ++ [x02; x03; x04; x05] ++ [x06; x07])
  <> crc32_of_bytes ([x00; x01] ++ [x02; x03; x04; xff] ++ [x06; x07]).
Proof.
  apply (crc32_detects_window_change [x00; x01] [x02; x03; x04; x05]
           [x02; x03; x04; xff] [x06; x07]);
    [reflexivity|reflexivity|discriminate].
Defined.

(** Forging, then forging back to the first checksum at the same offset. *)
Lemma modify_file_twice (w : world) (path : string) (bytes : list byte)
    (offset newcrc : Z) (printstatus printstatus' : bool) :
  files w !! path = Some bytes ->
  0 <= offset -> offset + 4 <= Z.of_nat (length bytes) -> u32 newcrc ->
  let run1 := modify_file_crc32 path offset newcrc printstatus w in
  let run2 := modify_file_crc32 path offset
                (reverse32 (crc32_of_bytes bytes)) printstatus' (snd run1) in
  fst run1 = Ok tt /\ fst run2 = Ok tt /\ files (snd run2) = files w.
Proof.
  intros Hf Hoff Hrange Un. cbv zeta.
  rewrite crc32_of_bytes_zlib.
  set (run1 := modify_file_crc32 path offset newcrc printstatus w).
  set (run2 := modify_file_crc32 path offset (reverse32 (zlib_crc32 bytes 0))
                 printstatus' (snd run1)).
  pose proof (modify_file_crc32_run w path bytes offset newcrc printstatus Hf)
    as R1. cbv zeta in R1. fold run1 in R1.
  destruct (modify_raf_success bytes (console w) offset newcrc printstatus
              Hoff Hrange Un)
    as (delta & b0 & b1 & b2 & b3 & c0 & c1 & c2 & c3 & Hfst & Hsplit & Hc
        & _ & _ & _ & _ & _ & _).
  set (s1 := snd (modify_raf_crc32 offset newcrc printstatus
                    (mkState bytes 0 (console w)))) in *.
  set (pre := take (Z.to_nat offset) bytes) in *.
  set (post := drop (Z.to_nat offset + 4) bytes) in *.
  assert (Lpre : length pre = Z.to_nat offset).
  { subst pre. rewrite length_take. lia. }
  assert (Lpost : (length post + Z.to_nat offset + 4 = length bytes)%nat).
  { subst post. rewrite length_drop. lia. }
  assert (L1 : length (content s1) = length bytes).
  { rewrite Hc, !length_app. cbn [length]. lia. }
  split; [rewrite R1; exact Hfst|].
  assert (Hf1 : files (snd run1) !! path = Some (content s1)).
  { rewrite R1. cbn [snd]. apply files_after_run. }
  pose proof (modify_file_crc32_run (snd run1) path (content s1) offset
                (reverse32 (zlib_crc32 bytes 0)) printstatus' Hf1) as R2.
  cbv zeta in R2. fold run2 in R2.
  destruct (modify_raf_success (content s1) (console (snd run1)) offset
              (reverse32 (zlib_crc32 bytes 0)) printstatus'
              Hoff ltac:(lia) (reverse32_u32 _))
    as (delta' & d0 & d1 & d2 & d3 & e0 & e1 & e2 & e3 & Hfst' & _ & Hc'
        & _ & _ & _ & _ & _ & Hd').
  set (s2 := snd (modify_raf_crc32 offset (reverse32 (zlib_crc32 bytes 0))
                    printstatus' (mkState (content s1) 0
                                          (console (snd run1))))) in *.
  split; [rewrite R2; exact Hfst'|].
  assert (Epre : take (Z.to_nat offset) (content s1) = pre).
  { rewrite Hc. apply take_app_length'. lia. }
  assert (Epost : drop (Z.to_nat offset + 4) (content s1) = post).
  { rewrite Hc. rewrite app_assoc. apply drop_app_length'.
    rewrite length_app. cbn [length]. lia. }
  rewrite Epre, Epost in Hc'.
  apply reverse32_inj in Hd'; [|apply zlib_crc32_u32..].
  rewrite Hc' in Hd'.
  pose proof (eq_trans Hd' (f_equal (fun l => zlib_crc32 l 0) Hsplit)) as Hw.
  cbv beta in Hw. apply crc_window_inj in Hw.
  assert (Eb : content s2 = bytes).
  { rewrite Hc', Hw. symmetry. exact Hsplit. }
  rewrite R2. cbn [snd files]. rewrite Eb.
  rewrite R1. cbn [snd files].
  rewrite insert_insert_eq. apply insert_id. exact Hf.
Qed.

(** X18 (forging back).  After [modify_file_crc32] has forged a file at
    a valid offset to any 32-bit checksum, a second call at the same
    offset with the checksum the file had at first gives back the original
    file, byte for byte: both calls return and the file system is as it
    was before the first one. *)
Theorem forge_back_restores (w : world) (path : string) (bytes : list byte)
    (offset newcrc : Z) (printstatus printstatus' : bool) :
  files w !! path = Some bytes ->
  0 <= offset -> offset + 4 <= Z.of_nat (length bytes) -> u32 newcrc ->
  let run1 := modify_file_crc32 path offset newcrc printstatus w in
  let run2 := modify_file_crc32 path offset
                (reverse32 (crc32_of_bytes bytes)) printstatus' (snd run1) in
  fst run1 = Ok tt /\ fst run2 = Ok tt /\ files (snd run2) = files w.
Proof. apply modify_file_twice. Qed.

Lemma forge_back_restores_witness :
  let run1 := modify_file_crc32 "f" 2 0x12345678 false sample_world in
  let run2 := modify_file_crc32 "f" 2
                (reverse32 (crc32_of_bytes sample_bytes)) false (snd run1) in
  fst run1 = Ok tt /\ fst run2 = Ok tt /\
  files (snd run2) = files sample_world.
Proof.
  apply (forge_back_restores sample_world "f" sample_bytes 2 0x12345678
           false false);
    [reflexivity|lia|simpl; lia|unfold u32; lia].
Defined.

(** X19 (reading the checksum).  [get_crc32] starts from the beginning of
    the file wherever the handle was positioned, leaves the content and
    the console as they were, and leaves the handle at the end of the
    file. *)
Theorem get_crc32_frame (bytes : list byte) (pos : Z) (out : list string) :
  fst (get_crc32 (mkState bytes pos out))
  = Ok (reverse32 (crc32_of_bytes bytes)) /\
  snd (get_crc32 (mkState bytes pos out))
  = mkState bytes (Z.of_nat (length bytes)) out.
Proof.
  rewrite get_crc32_run, crc32_of_bytes_zlib. split; reflexivity.
Qed.

(** X20 (target wider than 32 bits).  Called with a target checksum
    outside [0, 2^32), [modify_file_crc32] never returns normally,
    whatever the path, the file and the offset. *)
Theorem forge_rejects_wide_target (w : world) (path : string)
    (offset newcrc : Z) (printstatus : bool) :
  ~ u32 newcrc ->
  fst (modify_file_crc32 path offset newcrc printstatus w) <> Ok tt.
Proof.
  intros Nu.
  destruct (files w !! path) as [bytes|] eqn:Hf.
  - rewrite (modify_file_crc32_run w path bytes offset newcrc printstatus Hf).
    cbn [fst].
    destruct (Z_le_gt_dec (offset + 4) (Z.of_nat (length bytes))) as [Hr|Hr].
    + destruct (modify_raf_outcome bytes (console w) offset newcrc
                  printstatus Hr) as [p [r [_ [_ H]]]].
      cbv zeta in H.
      destruct (multiply_mod r _) as [delta|e|]; [|destruct H|].
      * destruct (offset <? 0).
        { destruct H as [-> _]. unfold seek_error.
          destruct (offset <? - 2 ^ 63); discriminate. }
        destruct H as [patched [_ [_ [_ ->]]]].
        destruct (Z.eqb_spec
                    (reverse32
                       (zlib_crc32
                          (take (Z.to_nat offset) bytes ++ patched ++
                           drop (Z.to_nat offset + 4) bytes) 0)) newcrc)
          as [E|_]; [|discriminate].
        exfalso. apply Nu. rewrite <- E. apply reverse32_u32.
      * destruct H as [-> _]. discriminate.
    + rewrite modify_raf_range_error by exact Hr. discriminate.
  - unfold modify_file_crc32. rewrite Hf. discriminate.
Qed.

Lemma forge_rejects_wide_target_witness :
  fst (modify_file_crc32 "f" 2 0x100000000 false sample_world) <> Ok tt.
Proof.
  apply (forge_rejects_wide_target sample_world "f" 2 0x100000000 false).
  unfold u32. lia.
Defined.

(** X21 (status lines).  On a call that passes the checks,
    [modify_file_crc32] prints exactly three lines when [printstatus] is
    true (the original checksum as 8 upper-case hexadecimal digits, then
    the two progress messages) and prints nothing when it is false. *)
Theorem forge_status_lines (w : world) (path : string) (bytes : list byte)
    (offset newcrc : Z) (printstatus : bool) :
  files w !! path = Some bytes ->
  0 <= offset -> offset + 4 <= Z.of_nat (length bytes) -> u32 newcrc ->
  console (snd (modify_file_crc32 path offset newcrc printstatus w))
  = if printstatus
    then console w ++
         ["Original CRC-32: " +:+ format_08X (crc32_of_bytes bytes);
          "Computed and wrote patch";
          "New CRC-32 successfully verified"]
    else console w.
Proof.
  intros Hf Hoff Hrange Un.
  rewrite (modify_file_crc32_run w path bytes offset newcrc printstatus Hf).
  cbn [snd console].
  rewrite crc32_of_bytes_zlib.
  apply modify_raf_success_stdout; assumption.
Qed.

Lemma forge_status_lines_witness :
  console (snd (modify_file_crc32 "f" 2 0x12345678 true sample_world))
  = console sample_world ++
    ["Original CRC-32: " +:+ format_08X (crc32_of_bytes sample_bytes);
     "Computed and wrote patch";
     "New CRC-32 successfully verified"].
Proof.
  apply (forge_status_lines sample_world "f" sample_bytes 2 0x12345678 true);
    [reflexivity|lia|simpl; lia|unfold u32; lia].
Defined.

(** ** The residue of the digest *)

Lemma crc_poly_zeros (R : Z) :
  crc_poly R [x00; x00; x00; x00] = Z.shiftl R 32.
Proof.
  rewrite <- (Z.lxor_0_l R) at 1. rewrite crc_poly_lxor.
  replace (crc_poly 0 [x00; x00; x00; x00]) with 0
    by (vm_compute; reflexivity).
  rewrite Z.lxor_0_l. reflexivity.
Qed.

(** ** The command line *)

Lemma parse_new_crc_inr (arg : string) (v : Z) :
  parse_new_crc arg = inr v ->
  exists temp, py_int arg 16 = Some temp /\ u32 temp /\ v = reverse32 temp.
Proof.
  unfold parse_new_crc.
  destruct (negb _ || _); [discriminate|].
  destruct (py_int arg 16) as [temp|]; [|discriminate].
  destruct (Z.eqb_spec (Z.land temp MASK) temp) as [E|N]; cbn [negb];
    [|discriminate].
  intros H. injection H as <-. exists temp.
  split; [reflexivity|]. split; [|reflexivity].
  rewrite <- E. change MASK with 0xFFFFFFFF. apply land_mask_bounded.
Qed.

Lemma parse_new_crc_inl (arg msg : string) :
  parse_new_crc arg = inl msg -> msg = "Error: Invalid new CRC-32 value".
Proof.
  unfold parse_new_crc.
  destruct (negb _ || _); [intros H; injection H as <-; reflexivity|].
  destruct (py_int arg 16) as [temp|];
    [|intros H; injection H as <-; reflexivity].
  destruct (negb _); [intros H; injection H as <-; reflexivity|discriminate].
Qed.

(** [main] once its three arguments have been parsed. *)
Lemma main_forger_run (w : world) (path a1 a2 : string) (offset v : Z) :
  py_int a1 10 = Some offset -> 0 <= offset -> parse_new_crc a2 = inr v ->
  main [path; a1; a2] w =
  match modify_file_crc32 path offset v true w with
  | (Ok _, w') => (Ok None, w')
  | (Raise (IOError msg), w') => (Ok (Some ("I/O error: " +:+ msg)), w')
  | (Raise (ValueError msg), w') => (Ok (Some ("Error: " +:+ msg)), w')
  | (Raise (AssertionError msg), w') =>
      (Ok (Some ("Assertion error: " +:+ msg)), w')
  | (Raise e, w') => (Raise e, w')
  | (OutOfFuel, w') => (OutOfFuel, w')
  end.
Proof.
  intros H1 H2 H3. unfold main. rewrite H1.
  destruct (Z.ltb_spec offset 0) as [|_]; [lia|].
  rewrite H3. reflexivity.
Qed.

Lemma modify_file_missing (w : world) (path : string) (offset v : Z)
    (printstatus : bool) :
  files w !! path = None ->
  modify_file_crc32 path offset v printstatus w = (Raise (open_error path), w).
Proof. intros H. unfold modify_file_crc32. rewrite H. reflexivity. Qed.

Lemma modify_file_range_error (w : world) (path : string) (bytes : list byte)
    (offset v : Z) (printstatus : bool) :
  files w !! path = Some bytes -> offset + 4 > Z.of_nat (length bytes) ->
  modify_file_crc32 path offset v printstatus w =
  (Raise (ValueError "Byte offset plus 4 exceeds file length"), w).
Proof.
  intros Hf Hr.
  rewrite (modify_file_crc32_run w path bytes offset v printstatus Hf).
  rewrite modify_raf_range_error by exact Hr. cbn [fst snd content stdout].
  f_equal. destruct w as [fs out]. cbn [files console] in *.
  f_equal. apply insert_id. exact Hf.
Qed.

Lemma modify_file_success (w : world) (path : string) (bytes : list byte)
    (offset v : Z) (printstatus : bool) :
  files w !! path = Some bytes ->
  0 <= offset -> offset + 4 <= Z.of_nat (length bytes) -> u32 v ->
  exists bytes',
    modify_file_crc32 path offset v printstatus w =
    (Ok tt,
     mkWorld (<[path := bytes']> (files w))
       (if printstatus
        then console w ++
             ["Original CRC-32: " +:+ format_08X (zlib_crc32 bytes 0);
              "Computed and wrote patch";
              "New CRC-32 successfully verified"]
        else console w)) /\
    length bytes' = length bytes /\
    reverse32 (zlib_crc32 bytes' 0) = v.
Proof.
  intros Hf Hoff Hr Uv.
  rewrite (modify_file_crc32_run w path bytes offset v printstatus Hf).
  destruct (modify_raf_success bytes (console w) offset v printstatus
              Hoff Hr Uv)
    as (delta & b0 & b1 & b2 & b3 & c0 & c1 & c2 & c3 & Hfst & Hsplit & Hc
        & _ & _ & _ & _ & _ & Hd).
  rewrite (modify_raf_success_stdout bytes (console w) offset v printstatus
             Hoff Hr Uv).
  rewrite Hfst.
  exists (content (snd (modify_raf_crc32 offset v printstatus
                          (mkState bytes 0 (console w))))).
  split; [reflexivity|]. split; [|exact Hd].
  rewrite Hc, !length_app, length_take, length_drop. cbn [length]. lia.
Qed.

(** Every way [main] can end. *)
Lemma main_cases (args : list string) (w : world) :
  (exists msg, main args w = (Ok (Some msg), w) /\
     (msg = "Usage: python crc32_modifier.py <FileName> <ByteOffset> <NewCrc32Value>"
      \/ msg = "Error: Invalid byte offset"
      \/ msg = "Error: Negative byte offset"
      \/ msg = "Error: Invalid new CRC-32 value"
      \/ msg = "Error: Byte offset plus 4 exceeds file length"
      \/ msg = "Error: embedded null byte"
      \/ exists path,
           msg = "I/O error: [Errno 2] No such file or directory: "
                 +:+ py_repr path))
  \/ (exists path a1 a2 offset temp bytes bytes',
        args = [path; a1; a2] /\
        py_int a1 10 = Some offset /\ 0 <= offset /\
        py_int a2 16 = Some temp /\ u32 temp /\
        parse_new_crc a2 = inr (reverse32 temp) /\
        files w !! path = Some bytes /\
        offset + 4 <= Z.of_nat (length bytes) /\
        main args w =
        (Ok None,
         mkWorld (<[path := bytes']> (files w))
           (console w ++
            ["Original CRC-32: " +:+ format_08X (zlib_crc32 bytes 0);
             "Computed and wrote patch";
             "New CRC-32 successfully verified"])) /\
        length bytes' = length bytes /\
        zlib_crc32 bytes' 0 = temp).
Proof.
  destruct args as [|path [|a1 [|a2 [|a3 l]]]];
    try (left; eexists; split; [reflexivity|left; reflexivity]).
  destruct (py_int a1 10) as [offset|] eqn:E1.
  2:{ left. eexists. split; [unfold main; rewrite E1; reflexivity|].
      right; left; reflexivity. }
  destruct (Z.ltb_spec offset 0) as [Hneg|Hpos].
  { left. eexists. split.
    - unfold main. rewrite E1.
      destruct (Z.ltb_spec offset 0) as [_|]; [reflexivity|lia].
    - right; right; left; reflexivity. }
  destruct (parse_new_crc a2) as [msg|v] eqn:E2.
  { left. exists msg. split.
    - unfold main. rewrite E1.
      destruct (Z.ltb_spec offset 0) as [|_]; [lia|]. rewrite E2. reflexivity.
    - right; right; right; left. apply (parse_new_crc_inl a2). exact E2. }
  rewrite (main_forger_run w path a1 a2 offset v E1 Hpos E2).
  destruct (parse_new_crc_inr a2 v E2) as [temp [Et [Ut ->]]].
  destruct (files w !! path) as [bytes|] eqn:Hf.
  - destruct (Z_le_gt_dec (offset + 4) (Z.of_nat (length bytes))) as [Hr|Hr].
    + right.
      destruct (modify_file_success w path bytes offset (reverse32 temp) true
                  Hf Hpos Hr (reverse32_u32 _)) as [bytes' [-> [Hl Hd]]].
      exists path, a1, a2, offset, temp, bytes, bytes'.
      repeat (split; [assumption || reflexivity|]).
      apply reverse32_inj; [apply zlib_crc32_u32|exact Ut|exact Hd].
    + left. rewrite (modify_file_range_error w path bytes offset _ true Hf Hr).
      eexists. split; [reflexivity|].
      right; right; right; right; left. reflexivity.
  - left. rewrite (modify_file_missing w path offset _ true Hf).
    unfold open_error. destruct (contains "000" path).
    + eexists. split; [reflexivity|].
      right; right; right; right; right; left. reflexivity.
    + eexists. split; [reflexivity|].
      right; right; right; right; right; right. exists path. reflexivity.
Qed.

(** X22 (residue).  Appending to any byte sequence the 4 bytes of its
    CRC-32, least significant byte first, gives a sequence whose CRC-32, as
    computed by the loop of [calculate_crc32], is always [0x2144DF1C]. *)
Theorem crc32_residue (data : list byte) (c0 c1 c2 c3 : byte) :
  Z_of_byte c0 = Z.land (crc32_of_bytes data) 0xFF ->
  Z_of_byte c1 = Z.land (Z.shiftr (crc32_of_bytes data) 8) 0xFF ->
  Z_of_byte c2 = Z.land (Z.shiftr (crc32_of_bytes data) 16) 0xFF ->
  Z_of_byte c3 = Z.land (Z.shiftr (crc32_of_bytes data) 24) 0xFF ->
  crc32_of_bytes (data ++ [c0; c1; c2; c3]) = 0x2144DF1C.
Proof.
  intros H0 H1 H2 H3.
  set (C := crc32_of_bytes data) in *.
  assert (UC : u32 C).
  { subst C. rewrite crc32_of_bytes_zlib. apply zlib_crc32_u32. }
  set (delta := reverse32 C).
  assert (Ud : u32 delta) by apply reverse32_u32.
  assert (P : forall i, patch_byte delta i = Z.land (Z.shiftr C (i * 8)) 0xFF).
  { intros i. unfold patch_byte, delta.
    rewrite (reverse32_involutive C UC). reflexivity. }
  set (r := reverse32 (fold_left crc32_byte_step data 0xFFFFFFFF)).
  assert (Er : delta = Z.lxor r 0xFFFFFFFF).
  { unfold delta, C, crc32_of_bytes. rewrite reverse32_lxor, reverse32_mask.
    reflexivity. }
  assert (Epoly : crc_poly r [c0; c1; c2; c3] = Z.shiftl 0xFFFFFFFF 32).
  { rewrite (crc_poly_patch4 r delta x00 x00 x00 x00 c0 c1 c2 c3 Ud).
    - rewrite crc_poly_zeros, <- Z.shiftl_lxor. f_equal.
      rewrite Er, <- Z.lxor_assoc, Z.lxor_nilpotent. apply Z.lxor_0_l.
    - rewrite (P 0). change (Z_of_byte x00) with 0. rewrite Z.lxor_0_l.
      exact H0.
    - rewrite (P 1). change (Z_of_byte x00) with 0. rewrite Z.lxor_0_l.
      exact H1.
    - rewrite (P 2). change (Z_of_byte x00) with 0. rewrite Z.lxor_0_l.
      exact H2.
    - rewrite (P 3). change (Z_of_byte x00) with 0. rewrite Z.lxor_0_l.
      exact H3. }
  destruct (register_poly data) as [_ Cd]. fold r in Cd.
  destruct (register_poly (data ++ [c0; c1; c2; c3])) as [Ua Ca].
  destruct (register_poly [x00; x00; x00; x00]) as [Uz Cz].
  rewrite crc_poly_zeros in Cz.
  rewrite crc_poly_app in Ca.
  pose proof (crc_poly_pcong [c0; c1; c2; c3] _ _ Cd) as Cp.
  rewrite Epoly in Cp.
  pose proof (pcong_trans _ _ _ Ca (pcong_trans _ _ _ (pcong_sym _ _ Cp)
                                      (pcong_sym _ _ Cz))) as Cf.
  apply pcong_u32_eq in Cf; [|exact Ua|exact Uz].
  apply reverse32_inj in Cf; [|apply crc_fold_u32, u32_mask..].
  unfold crc32_of_bytes. rewrite Cf. vm_compute. reflexivity.
Qed.

Lemma crc32_residue_witness :
  crc32_of_bytes (sample_bytes ++ [x9f; x68; xaa; x88]) = 0x2144DF1C.
Proof.
  apply (crc32_residue sample_bytes x9f x68 xaa x88);
    vm_compute; reflexivity.
Defined.

(** X23 (no exception leaves [main]).  Whatever the arguments and the
    files, [main] returns: it neither raises nor loops for ever, and the
    message it returns is never the one of the failed verification
    ("Assertion error: ..."). *)
Theorem main_always_returns (args : list string) (w : world) :
  exists r, fst (main args w) = Ok r /\
            forall msg, r <> Some ("Assertion error: " +:+ msg).
Proof.
  destruct (main_cases args w) as [[msg [E H]]|H].
  - exists (Some msg). rewrite E. split; [reflexivity|].
    intros m Hm. injection Hm as ->.
    destruct H as [H|[H|[H|[H|[H|[H|[path H]]]]]]]; cbn in H; discriminate H.
  - destruct H as (path & a1 & a2 & offset & temp & bytes & bytes' & _ & _
                   & _ & _ & _ & _ & _ & _ & E & _).
    exists None. rewrite E. split; [reflexivity|discriminate].
Qed.

(** X24 (a failed run changes nothing).  Whenever [main] returns a
    message (usage, invalid argument, range error, missing file), no file
    has been modified and nothing has been printed. *)
Theorem main_failure_changes_nothing (args : list string) (w : world)
    (msg : string) :
  fst (main args w) = Ok (Some msg) -> snd (main args w) = w.
Proof.
  intros H.
  destruct (main_cases args w) as [[m [E _]]|H'].
  - rewrite E. reflexivity.
  - destruct H' as (path & a1 & a2 & offset & temp & bytes & bytes' & _ & _
                    & _ & _ & _ & _ & _ & _ & E & _).
    rewrite E in H. discriminate H.
Qed.

Lemma main_failure_changes_nothing_witness :
  snd (main ["f"; "5"; "DEADBEEF"] sample_world) = sample_world.
Proof.
  apply (main_failure_changes_nothing ["f"; "5"; "DEADBEEF"] sample_world
           "Error: Byte offset plus 4 exceeds file length").
  vm_compute. reflexivity.
Defined.




(** ** The printed checksum *)

Lemma hex_digit_value (d : Z) :
  0 <= d < 16 ->
  digit_value (hex_digit d) = Some d /\ is_hex_digit (hex_digit d) = true.
Proof.
  intros H.
  assert (E : d = 0 \/ d = 1 \/ d = 2 \/ d = 3 \/ d = 4 \/ d = 5 \/ d = 6
              \/ d = 7 \/ d = 8 \/ d = 9 \/ d = 10 \/ d = 11 \/ d = 12
              \/ d = 13 \/ d = 14 \/ d = 15) by lia.
  repeat (destruct E as [->|E]; [split; reflexivity|]).
  subst d. split; reflexivity.
Qed.

Lemma hex_number_digit (a d : Z) (acc : string) :
  0 <= d < 16 ->
  hex_number a (String (hex_digit d) acc) = hex_number (a * 16 + d) acc.
Proof.
  intros H. cbn [hex_number].
  rewrite (proj1 (hex_digit_value d H)). reflexivity.
Qed.

(** The digits written by [hex_digits]: [k] of them, no leading zero,
    with the value [v]. *)
Lemma hex_digits_spec (fuel : nat) :
  forall (v : Z) (acc : string),
    0 <= v < 2 ^ Z.of_nat fuel ->
    exists k : nat,
      (1 <= k)%nat /\
      String.length (hex_digits fuel v acc) = (k + String.length acc)%nat /\
      (k = 1%nat \/ 16 ^ (Z.of_nat k - 1) <= v) /\
      (all_hex_digits acc = true ->
       all_hex_digits (hex_digits fuel v acc) = true) /\
      forall a, hex_number a (hex_digits fuel v acc)
                = hex_number (a * 16 ^ Z.of_nat k + v) acc.
Proof.
  assert (Base : forall v acc, 0 <= v < 16 ->
    (1 <= 1)%nat /\
    String.length (String (hex_digit (v mod 16)) acc)
    = (1 + String.length acc)%nat /\
    (1%nat = 1%nat \/ 16 ^ (Z.of_nat 1 - 1) <= v) /\
    (all_hex_digits acc = true ->
     all_hex_digits (String (hex_digit (v mod 16)) acc) = true) /\
    forall a, hex_number a (String (hex_digit (v mod 16)) acc)
              = hex_number (a * 16 ^ Z.of_nat 1 + v) acc).
  { intros v acc Hv. rewrite (Z.mod_small v 16 Hv).
    split; [lia|]. split; [reflexivity|]. split; [left; reflexivity|].
    split.
    - intros Ha. cbn [all_hex_digits].
      rewrite (proj2 (hex_digit_value v Hv)). exact Ha.
    - intros a. rewrite (hex_number_digit a v acc Hv). reflexivity. }
  induction fuel as [|fuel IH]; intros v acc Hv.
  - exists 1%nat. cbn [hex_digits]. apply Base.
    change (2 ^ Z.of_nat 0) with 1 in Hv. lia.
  - cbn [hex_digits].
    destruct (Z.eqb_spec (v / 16) 0) as [E|N].
    + exists 1%nat. apply Base.
      apply Z.div_small_iff in E; lia.
    + assert (Hq : 0 <= v / 16 < 2 ^ Z.of_nat fuel).
      { split; [apply Z.div_pos; lia|].
        apply Z.div_lt_upper_bound; [lia|].
        rewrite Nat2Z.inj_succ, Z.pow_succ_r in Hv by lia. lia. }
      assert (Hd : 0 <= v mod 16 < 16) by (apply Z.mod_pos_bound; lia).
      pose proof (Z.div_mod v 16 ltac:(lia)) as Hdm.
      destruct (IH (v / 16) (String (hex_digit (v mod 16)) acc) Hq)
        as [k [Hk [Hl [Hlead [Hall Hval]]]]].
      exists (S k). split; [lia|]. split; [|split; [|split]].
      * rewrite Hl. cbn [String.length]. lia.
      * right. replace (Z.of_nat (S k) - 1) with (Z.of_nat k) by lia.
        destruct Hlead as [->|Hlead].
        { change (16 ^ Z.of_nat 1) with 16.
          assert (0 < v / 16) by lia. lia. }
        replace (Z.of_nat k) with (Z.succ (Z.of_nat k - 1)) by lia.
        rewrite Z.pow_succ_r by lia. lia.
      * intros Ha. apply Hall. cbn [all_hex_digits].
        rewrite (proj2 (hex_digit_value _ Hd)). exact Ha.
      * intros a. rewrite Hval, (hex_number_digit _ _ acc Hd).
        f_equal. rewrite Nat2Z.inj_succ, Z.pow_succ_r by lia. lia.
Qed.

Lemma zero_pad_spec (n : nat) (s : string) :
  String.length (zero_pad n s) = (n + String.length s)%nat /\
  (all_hex_digits s = true -> all_hex_digits (zero_pad n s) = true) /\
  hex_number 0 (zero_pad n s) = hex_number 0 s.
Proof.
  induction n as [|n [IHl [IHa IHv]]]; [auto|].
  cbn [zero_pad]. split; [cbn [String.length]; lia|]. split.
  - intros Ha. cbn [all_hex_digits]. rewrite (IHa Ha). reflexivity.
  - cbn [hex_number]. exact IHv.
Qed.

(** What [format(v, "08X")] writes for a 32-bit value. *)
Lemma format_08X_spec (v : Z) :
  u32 v ->
  String.length (format_08X v) = 8%nat /\
  all_hex_digits (format_08X v) = true /\
  hex_number 0 (format_08X v) = v.
Proof.
  intros Uv. unfold format_08X.
  destruct (Z.ltb_spec v 0) as [|_]; [unfold u32 in Uv; lia|].
  rewrite (Z.abs_eq v) by apply Uv.
  destruct (hex_digits_spec (Z.to_nat (bit_length v)) v EmptyString
              (bit_length_fuel v (proj1 Uv)))
    as [k [Hk [Hl [Hlead [Hall Hval]]]]].
  cbn [String.length] in Hl.
  assert (Hk8 : (k <= 8)%nat).
  { destruct Hlead as [->|Hlead]; [lia|].
    destruct (le_gt_dec k 8) as [|Hgt]; [assumption|exfalso].
    assert (16 ^ 8 <= 16 ^ (Z.of_nat k - 1))
      by (apply Z.pow_le_mono_r; lia).
    unfold u32 in Uv. lia. }
  set (digits := hex_digits (Z.to_nat (bit_length v)) v EmptyString) in *.
  destruct (zero_pad_spec (8 - String.length digits) digits)
    as [Pl [Pa Pv]].
  split; [rewrite Pl; lia|]. split; [apply Pa, Hall; reflexivity|].
  rewrite Pv, Hval. cbn [hex_number]. lia.
Qed.

Lemma parse_printed (v : Z) :
  u32 v -> parse_new_crc (format_08X v) = inr (reverse32 v).
Proof.
  intros Uv. destruct (format_08X_spec v Uv) as [Hl [Ha Hv]].
  rewrite (parse_new_crc_hex_digits _ Hl Ha), Hv. reflexivity.
Qed.

(** ** The encoding of the text *)

Lemma lor_bounded (n a b : Z) :
  0 <= n -> 0 <= a < 2 ^ n -> 0 <= b < 2 ^ n -> 0 <= Z.lor a b < 2 ^ n.
Proof.
  intros Hn Ha Hb. apply bits_bounded; [exact Hn|]. intros k Hk.
  rewrite Z.lor_spec, (bounded_bits n a k Ha Hk), (bounded_bits n b k Hb Hk).
  reflexivity.
Qed.

Lemma shiftr_bounded (x n m : Z) :
  0 <= n -> 0 <= m -> 0 <= x < 2 ^ (n + m) -> 0 <= Z.shiftr x n < 2 ^ m.
Proof.
  intros Hn Hm Hx. apply bits_bounded; [exact Hm|]. intros k Hk.
  rewrite shiftr_spec_all. rewrite (bounded_bits (n + m) x (k + n) Hx) by lia.
  apply andb_false_r.
Qed.

Lemma low6_bounded (y : Z) : 0 <= Z.lor 0x80 (Z.land y 0x3F) < 2 ^ 8.
Proof.
  apply lor_bounded; [lia|lia|].
  apply bits_bounded; [lia|]. intros k Hk.
  rewrite Z.land_spec, (bounded_bits 8 0x3F k) by lia.
  apply andb_false_r.
Qed.

Lemma bytes_of_Zs_ok (l : list Z) :
  Forall (fun v => 0 <= v < 2 ^ 8) l -> exists bs, bytes_of_Zs l = Ok bs.
Proof.
  intros H. unfold bytes_of_Zs.
  assert (S : is_Some (mapM byte_of_Z l)).
  { apply mapM_is_Some. eapply Forall_impl; [exact H|].
    intros v Hv. destruct (byte_of_Z_spec v Hv) as [b [E _]].
    exists b. exact E. }
  destruct S as [bs ->]. exists bs. reflexivity.
Qed.

Ltac forall_list :=
  repeat match goal with
    | |- Forall _ (_ :: _) => constructor
    | |- Forall _ [] => constructor
    end.

Lemma utf8_encode_char_ok (pos : nat) (cp : Z) (rest : pystr) :
  0 <= cp <= 0x10FFFF ->
  (0xD800 <=? cp) && (cp <=? 0xDFFF) = false ->
  exists bs, utf8_encode_char pos cp rest = Ok bs.
Proof.
  intros Hcp Hs. unfold utf8_encode_char.
  destruct (Z.ltb_spec cp 0x80); [apply bytes_of_Zs_ok; forall_list; lia|].
  destruct (Z.ltb_spec cp 0x800).
  { apply bytes_of_Zs_ok. forall_list; try apply low6_bounded.
    apply lor_bounded; [lia|lia|].
    apply (bounded_weaken 5); [lia|]. apply shiftr_bounded; lia. }
  destruct (Z.ltb_spec cp 0x10000).
  { rewrite Hs. apply bytes_of_Zs_ok.
    forall_list; try apply low6_bounded.
    apply lor_bounded; [lia|lia|].
    apply (bounded_weaken 4); [lia|]. apply shiftr_bounded; lia. }
  apply bytes_of_Zs_ok. forall_list; try apply low6_bounded.
  apply lor_bounded; [lia|lia|].
  apply (bounded_weaken 3); [lia|]. apply shiftr_bounded; lia.
Qed.

Lemma utf8_encode_char_surrogate (pos : nat) (cp : Z) (rest : pystr) :
  (0xD800 <=? cp) && (cp <=? 0xDFFF) = true ->
  exists msg, utf8_encode_char pos cp rest = Raise (ValueError msg).
Proof.
  intros Hs. unfold utf8_encode_char. rewrite Hs.
  apply andb_true_iff in Hs. destruct Hs as [H1 H2].
  apply Z.leb_le in H1, H2.
  destruct (Z.ltb_spec cp 0x80); [lia|].
  destruct (Z.ltb_spec cp 0x800); [lia|].
  destruct (Z.ltb_spec cp 0x10000); [|lia].
  unfold surrogates_not_allowed. eexists. reflexivity.
Qed.

Lemma utf8_encode_outcome (data : pystr) :
  Forall (fun cp => 0 <= cp <= 0x10FFFF) data ->
  forall pos : nat,
    if forallb (fun cp => negb ((0xD800 <=? cp) && (cp <=? 0xDFFF))) data
    then exists bs, utf8_encode_from pos data = Ok bs
    else exists msg, utf8_encode_from pos data = Raise (ValueError msg).
Proof.
  induction 1 as [|cp rest Hcp _ IH]; intros pos; [exists []; reflexivity|].
  cbn [forallb utf8_encode_from].
  destruct ((0xD800 <=? cp) && (cp <=? 0xDFFF)) eqn:Hs; cbn [negb andb].
  - destruct (utf8_encode_char_surrogate pos cp rest Hs) as [msg ->].
    exists msg. reflexivity.
  - destruct (utf8_encode_char_ok pos cp rest Hcp Hs) as [bs ->].
    rewrite result_bind_ok. specialize (IH (S pos)).
    destruct (forallb _ rest).
    + destruct IH as [bs' ->]. exists (bs ++ bs'). reflexivity.
    + destruct IH as [msg ->]. exists msg. reflexivity.
Qed.

(** X28 (the printed checksum is a valid argument).  For every 32-bit
    value, what [modify_file_crc32] prints after "Original CRC-32: " (the
    value formatted with [08X]) has exactly 8 characters and passes the
    check of the new value in [main], which reads the same number back and
    bit-reverses it. *)
Theorem printed_checksum_accepted (v : Z) :
  u32 v ->
  String.length (format_08X v) = 8%nat /\
  py_int (format_08X v) 16 = Some v /\
  parse_new_crc (format_08X v) = inr (reverse32 v).
Proof.
  intros Uv. destruct (format_08X_spec v Uv) as [Hl [Ha Hv]].
  split; [exact Hl|]. split; [|apply parse_printed; exact Uv].
  rewrite py_int_hex_digits, Hv; [reflexivity| |exact Ha].
  intros E. rewrite E in Hl. discriminate Hl.
Qed.

Lemma printed_checksum_accepted_witness :
  String.length (format_08X 0xBEEF) = 8%nat /\
  py_int (format_08X 0xBEEF) 16 = Some 0xBEEF /\
  parse_new_crc (format_08X 0xBEEF) = inr (reverse32 0xBEEF).
Proof. apply (printed_checksum_accepted 0xBEEF). unfold u32. lia. Defined.

(** X29 (undoing a run from its output).  After a successful run of
    [main] on a file, running [main] again on the same file and offset
    with, as new value, the checksum printed by the first run as
    "Original CRC-32" succeeds too and gives back the original file system,
    byte for byte. *)
Theorem main_undo_with_printed_checksum (w : world) (path a1 a2 : string)
    (offset v : Z) (bytes : list byte) :
  py_int a1 10 = Some offset -> 0 <= offset ->
  parse_new_crc a2 = inr v ->
  files w !! path = Some bytes ->
  offset + 4 <= Z.of_nat (length bytes) ->
  let run1 := main [path; a1; a2] w in
  let run2 := main [path; a1; format_08X (crc32_of_bytes bytes)] (snd run1) in
  fst run1 = Ok None /\ fst run2 = Ok None /\ files (snd run2) = files w.
Proof.
  intros E1 Hoff Ep Hf Hr. cbv zeta.
  destruct (parse_new_crc_inr a2 v Ep) as [temp [_ [_ Ev]]].
  assert (Uv : u32 v) by (rewrite Ev; apply reverse32_u32).
  assert (UC : u32 (crc32_of_bytes bytes)).
  { rewrite crc32_of_bytes_zlib. apply zlib_crc32_u32. }
  destruct (modify_file_twice w path bytes offset v true true Hf Hoff Hr Uv)
    as [F1 [F2 F3]].
  rewrite (main_forger_run w path a1 a2 offset v E1 Hoff Ep).
  destruct (modify_file_crc32 path offset v true w) as [r1 w1].
  cbn [fst snd] in *. subst r1. cbn [fst snd].
  split; [reflexivity|].
  rewrite (main_forger_run w1 path a1 _ offset _ E1 Hoff
             (parse_printed _ UC)).
  destruct (modify_file_crc32 path offset
              (reverse32 (crc32_of_bytes bytes)) true w1) as [r2 w2].
  cbn [fst snd] in *. subst r2. cbn [fst snd].
  split; [reflexivity|exact F3].
Qed.

Lemma main_undo_with_printed_checksum_witness :
  let run1 := main ["f"; "2"; "DEADBEEF"] sample_world in
  let run2 := main ["f"; "2"; format_08X (crc32_of_bytes sample_bytes)]
                (snd run1) in
  fst run1 = Ok None /\ fst run2 = Ok None /\
  files (snd run2) = files sample_world.
Proof.
  apply (main_undo_with_printed_checksum sample_world "f" "2" "DEADBEEF" 2
           (reverse32 0xDEADBEEF) sample_bytes);
    [reflexivity|lia|reflexivity|reflexivity|simpl; lia].
Defined.

(** X30 (text that cannot be encoded).  On a string of code points
    ([0 <= cp <= 0x10FFFF]), [calculate_crc32] returns a 32-bit value when
    no code point is a surrogate ([0xD800..0xDFFF]), and otherwise raises
    the error of the UTF-8 encoding, a [ValueError]; nothing else can
    happen. *)
Theorem calculate_crc32_outcome (data : pystr) :
  Forall (fun cp => 0 <= cp <= 0x10FFFF) data ->
  if forallb (fun cp => negb ((0xD800 <=? cp) && (cp <=? 0xDFFF))) data
  then exists v, calculate_crc32 data = Ok v /\ u32 v
  else exists msg, calculate_crc32 data = Raise (ValueError msg).
Proof.
  intros H. pose proof (utf8_encode_outcome data H 0%nat) as O.
  unfold calculate_crc32, utf8_encode.
  destruct (forallb _ data).
  - destruct O as [bs ->]. eexists. split; [reflexivity|].
    rewrite crc32_of_bytes_zlib. apply zlib_crc32_u32.
  - destruct O as [msg ->]. exists msg. reflexivity.
Qed.

Lemma calculate_crc32_outcome_witness :
  exists msg,
    calculate_crc32 [0x67; 0xD800; 0x20AC] = Raise (ValueError msg).
Proof.
  apply (calculate_crc32_outcome [0x67; 0xD800; 0x20AC]).
  forall_list; lia.
Defined.
